(** * Calfy: the pdf.js text-extraction layer ([src/js/pdfParser.js])

    A shallow embedding of [ensurePdfWorker], [extractPdfText] and
    [harvestTables], and the properties the specification states about them.

    Conventions of the embedding:
    - a JavaScript string is the list of its UTF-16 code units;
    - a JavaScript number is an IEEE-754 binary64 value ([spec_float] with
      precision 53 and maximal exponent 1024);
    - a function that may throw returns a [result];
    - the asynchronous code of the extractor is a state-and-exception
      computation over a [world] that records the observable calls in a log;
    - the worker provisioner, whose calls interleave on the event loop, is
      additionally given as a labelled step relation. *)

From Equations Require Import Equations.
From Stdlib Require Import String Ascii.
From Stdlib Require Import List ZArith NArith Arith Lia Bool.
From Stdlib Require Import SpecFloat.
Import ListNotations.
Open Scope string_scope.
Open Scope list_scope.
Open Scope nat_scope.

Set Implicit Arguments.

(* ===================================================================== *)
(** ** JavaScript strings *)
(* ===================================================================== *)

Definition code_unit := N.
Definition jsstring := list code_unit.

(** A string literal of the source (ASCII only). *)
Definition lit (s : string) : jsstring :=
  map N_of_ascii (list_ascii_of_string s).

Arguments lit : simpl never.

Definition jsstring_eqb (a b : jsstring) : bool :=
  if list_eq_dec N.eq_dec a b then true else false.

(** The class [\s] of a regular expression, which is also the set removed
    by [String.prototype.trim]: WhiteSpace and LineTerminator. *)
Definition is_space (c : code_unit) : bool :=
  ((9 <=? c) && (c <=? 13) || (c =? 32) || (c =? 160) || (c =? 5760)
   || (8192 <=? c) && (c <=? 8202) || (c =? 8232) || (c =? 8233)
   || (c =? 8239) || (c =? 8287) || (c =? 12288) || (c =? 65279))%N.

(** The class [\d]. *)
Definition is_digit (c : code_unit) : bool := ((48 <=? c) && (c <=? 57))%N.

(** The character [\n]. *)
Definition is_newline (c : code_unit) : bool := (c =? 10)%N.

Definition is_period (c : code_unit) : bool := (c =? 46)%N.

(** The class [[:,]]. *)
Definition is_separator (c : code_unit) : bool := ((c =? 58) || (c =? 44))%N.

(** [s.substring(p, q)] for [p <= q]. *)
Definition substring (s : jsstring) (p q : nat) : jsstring :=
  firstn (q - p) (skipn p s).

(** Length of the longest prefix of [s] whose code units satisfy [f]: what a
    greedy [c+] consumes. *)
Fixpoint run (f : code_unit -> bool) (s : jsstring) : nat :=
  match s with
  | c :: s' => if f c then S (run f s') else 0
  | [] => 0
  end.

(** A value is truthy as a string when it is not empty. *)
Definition nonempty (s : jsstring) : bool :=
  match s with [] => false | _ :: _ => true end.

(* ===================================================================== *)
(** ** Thrown values and results *)
(* ===================================================================== *)

(** What a [catch] clause can receive: an [Error] instance with its
    [message], or any other value, kept with its [String(...)] conversion. *)
Inductive jserror :=
| JsError (message : jsstring)
| JsThrown (text : jsstring).

Inductive result (A : Type) :=
| Ok (a : A)
| Throw (e : jserror).
Arguments Ok {A} a.
Arguments Throw {A} e.

Definition rbind {A B} (r : result A) (k : A -> result B) : result B :=
  match r with
  | Ok a => k a
  | Throw e => Throw e
  end.

Notation "'let?' x ':=' r 'in' k" := (rbind r (fun x => k))
  (at level 10, x name, r at level 100, k at level 200).

(** [Array.prototype.map] with a callback that may throw. *)
Fixpoint map_r {A B} (f : A -> result B) (l : list A) : result (list B) :=
  match l with
  | [] => Ok []
  | a :: l' => let? b := f a in let? bs := map_r f l' in Ok (b :: bs)
  end.

(** [Array.prototype.filter] with a callback that may throw. *)
Fixpoint filter_r {A} (f : A -> result bool) (l : list A) : result (list A) :=
  match l with
  | [] => Ok []
  | a :: l' =>
      let? keep := f a in
      let? rest := filter_r f l' in
      Ok (if keep then a :: rest else rest)
  end.

(* ===================================================================== *)
(** ** JavaScript numbers and values *)
(* ===================================================================== *)

Definition prec : Z := 53.
Definition emax : Z := 1024.
Definition number := spec_float.

(** The number denoted by a non-negative integer. *)
Definition num_of_nat (n : nat) : number :=
  binary_normalize prec emax (Z.of_nat n) 0 false.

#[local] Set Warnings "-register-all".
Inductive jsval :=
| VUndefined
| VNull
| VBool (b : bool)
| VNum (x : number)
| VStr (s : jsstring)
| VObj (props : list (string * jsval)).
#[local] Set Warnings "register-all".

(** [ToBoolean]. *)
Definition truthy (v : jsval) : bool :=
  match v with
  | VUndefined | VNull => false
  | VBool b => b
  | VNum (S754_zero _) | VNum S754_nan => false
  | VNum _ => true
  | VStr s => nonempty s
  | VObj _ => true
  end.

Fixpoint lookup_prop (k : string) (props : list (string * jsval)) : jsval :=
  match props with
  | [] => VUndefined
  | (k', v) :: rest => if String.eqb k k' then v else lookup_prop k rest
  end.

(** [v.k] for the data properties read by this file ([hasTextContent],
    [text], [index]): a [TypeError] on [undefined] and [null], [undefined] on
    the other primitives. *)
Definition get_prop (v : jsval) (k : string) : result jsval :=
  match v with
  | VUndefined | VNull =>
      Throw (JsError (lit "Cannot read properties of undefined or null"))
  | VObj props => Ok (lookup_prop k props)
  | VBool _ | VNum _ | VStr _ => Ok VUndefined
  end.

(* ===================================================================== *)
(** ** [String.prototype.split] with the splitter of [harvestTables] *)
(* ===================================================================== *)

(** The regular expression [/(?<=\.)\s+|\n+/] tried at index [q] of [s]
    (a sticky match, as [split] performs it): the end index of the match.
    The first alternative needs a period just before [q] and takes the
    whole run of white space that starts at [q]; the second takes the whole
    run of newlines that starts at [q]. *)
Definition splitter_match (s : jsstring) (q : nat) : option nat :=
  let after_period :=
    match q with
    | 0 => false
    | S q' => match nth_error s q' with Some c => is_period c | None => false end
    end in
  let spaces := run is_space (skipn q s) in
  let newlines := run is_newline (skipn q s) in
  if after_period && (0 <? spaces) then Some (q + spaces)
  else if 0 <? newlines then Some (q + newlines)
  else None.

(** A match of the splitter is never empty, which is why the loop of
    [split] below terminates. *)
Lemma splitter_match_advances s q e :
  splitter_match s q = Some e -> q < e.
Proof.
  unfold splitter_match.
  destruct (_ && (0 <? run is_space (skipn q s))) eqn:Hs.
  - apply andb_true_iff in Hs as [_ Hs]. apply Nat.ltb_lt in Hs.
    intros [= <-]. lia.
  - destruct (0 <? run is_newline (skipn q s)) eqn:Hn; [|discriminate].
    apply Nat.ltb_lt in Hn. intros [= <-]. lia.
Qed.

Definition inspect {A} (a : A) : {b : A | a = b} := exist _ a eq_refl.

(** The loop of [RegExp.prototype[Symbol.split]]: [p] is the start of the
    piece being accumulated, [q] the index where the splitter is tried. *)
Equations? split_loop (s : jsstring) (p q : nat) : list jsstring
  by wf (length s - q) lt :=
  split_loop s p q with lt_dec q (length s) => {
    | right _ => [substring s p (length s)]
    | left _ with inspect (splitter_match s q) => {
        | exist _ None _ => split_loop s p (S q)
        | exist _ (Some last_index) _ with Nat.eq_dec (Nat.min last_index (length s)) p => {
            | left _ => split_loop s p (S q)
            | right _ =>
                substring s p q
                  :: split_loop s (Nat.min last_index (length s))
                                  (Nat.min last_index (length s)) } } }.
Proof.
  all: try match goal with H : splitter_match _ _ = Some _ |- _ =>
      apply splitter_match_advances in H end.
  all: lia.
Qed.

(** [s.split(/(?<=\.)\s+|\n+/)]. The splitter does not match the empty
    string, so the empty string splits into one empty piece. *)
Definition js_split (s : jsstring) : list jsstring :=
  match s with
  | [] => [[]]
  | _ :: _ => split_loop s 0 0
  end.


(* ===================================================================== *)
(** ** The data model *)
(* ===================================================================== *)

(** A Page Result object; [error] is present on failed pages only. *)
Record PageResult := {
  index : nat;
  text : jsstring;
  hasTextContent : bool;
  error : option jsstring
}.

(** A Table Candidate object; [page] is whatever the page's [index]
    property holds. *)
Record TableCandidate := {
  page : jsval;
  content : jsstring
}.

(** The object a Page Result is, as [harvestTables] receives it. *)
Definition js_of_page (pg : PageResult) : jsval :=
  VObj ([("index", VNum (num_of_nat (index pg)));
         ("text", VStr (text pg));
         ("hasTextContent", VBool (hasTextContent pg))]
        ++ match error pg with
           | Some msg => [("error", VStr msg)]
           | None => []
           end).

(* ===================================================================== *)
(** ** [harvestTables] *)
(* ===================================================================== *)

(** [page => page.hasTextContent && page.text], coerced by [filter]. *)
Definition page_selected (pg : jsval) : result bool :=
  let? has := get_prop pg "hasTextContent" in
  if truthy has then
    let? t := get_prop pg "text" in Ok (truthy t)
  else Ok false.

(** [text.split(/(?<=\.)\s+|\n+/)] on a truthy [text]: only strings have a
    [split] method. *)
Definition call_split (t : jsval) : result (list jsstring) :=
  match t with
  | VStr s => Ok (js_split s)
  | _ => Throw (JsError (lit "page.text.split is not a function"))
  end.

(** [line => /\d/.test(line) && /[:,]/.test(line)]. *)
Definition is_table_line (line : jsstring) : bool :=
  existsb is_digit line && existsb is_separator line.

(** The callback of [flatMap]. *)
Definition page_candidates (pg : jsval) : result (list TableCandidate) :=
  let? t := get_prop pg "text" in
  let? lines := call_split t in
  let tableCandidates := filter is_table_line lines in
  let? idx := get_prop pg "index" in
  Ok (map (fun line => {| page := idx; content := line |}) tableCandidates).

Definition harvestTables (pages : list jsval) : result (list TableCandidate) :=
  let? selected := filter_r page_selected pages in
  let? groups := map_r page_candidates selected in
  Ok (concat groups).

(** *** The harvester as the specification words it *)

(** Where a scan of the text stands: inside a line, inside the white space
    that follows a period, or inside a run of newlines. *)
Inductive scan_mode := InLine | InSpaces | InNewlines.

(** The lines of a text: a line ends directly after a period that is
    followed by white space (the period stays, the white space goes) or
    before a run of newlines (which goes). [after_period] tells whether the
    code unit just read is a period, [line] is the line read so far. *)
Fixpoint cut_lines_from (mode : scan_mode) (after_period : bool)
    (line : jsstring) (s : jsstring) : list jsstring :=
  match s with
  | [] => [line]
  | c :: rest =>
      match mode with
      | InSpaces =>
          if is_space c then cut_lines_from InSpaces false [] rest
          else cut_lines_from InLine (is_period c) [c] rest
      | InNewlines =>
          if is_newline c then cut_lines_from InNewlines false [] rest
          else cut_lines_from InLine (is_period c) [c] rest
      | InLine =>
          if after_period && is_space c
          then line :: cut_lines_from InSpaces false [] rest
          else if is_newline c
          then line :: cut_lines_from InNewlines false [] rest
          else cut_lines_from InLine (is_period c) (line ++ [c]) rest
      end
  end.

(** Whether the last code unit of [s] is a period. *)
Definition ends_with_period (s : jsstring) : bool :=
  match rev s with
  | c :: _ => is_period c
  | [] => false
  end.

Definition cut_lines (s : jsstring) : list jsstring :=
  cut_lines_from InLine false [] s.

(** One candidate per line that has a digit and a colon or comma, for the
    pages that have text, in page order and line order. *)
Definition spec_harvest (pages : list PageResult) : list TableCandidate :=
  flat_map
    (fun pg => map (fun line => {| page := VNum (num_of_nat (index pg));
                                   content := line |})
                   (filter is_table_line (cut_lines (text pg))))
    (filter (fun pg => hasTextContent pg && nonempty (text pg)) pages).

(** *** Inputs on which the harvester cannot fail *)

(** A page the harvester can process: not [undefined] or [null], and when
    both [hasTextContent] and [text] are truthy, [text] is a string. *)
Definition page_ok (pg : jsval) : bool :=
  match pg with
  | VUndefined | VNull => false
  | VObj props =>
      if truthy (lookup_prop "hasTextContent" props)
         && truthy (lookup_prop "text" props)
      then match lookup_prop "text" props with VStr _ => true | _ => false end
      else true
  | VBool _ | VNum _ | VStr _ => true
  end.

(** A page object whose [text] is the number 5. *)
Definition numeric_text_page : jsval :=
  VObj [("index", VNum (num_of_nat 0));
        ("hasTextContent", VBool true);
        ("text", VNum (num_of_nat 5))].

(* ===================================================================== *)
(** ** String operations of [extractPdfText] *)
(* ===================================================================== *)

(** [parts.join(' ')]. *)
Fixpoint join_space (parts : list jsstring) : jsstring :=
  match parts with
  | [] => []
  | [s] => s
  | s :: rest => s ++ 32%N :: join_space rest
  end.

(** [s.replace(/\s+/g, ' ')]: every maximal run of white space becomes one
    space. [in_run] tells whether the previous code unit was white space. *)
Fixpoint collapse_from (in_run : bool) (s : jsstring) : jsstring :=
  match s with
  | [] => []
  | c :: rest =>
      if is_space c
      then if in_run then collapse_from true rest
           else 32%N :: collapse_from true rest
      else c :: collapse_from false rest
  end.

Definition collapse_spaces (s : jsstring) : jsstring := collapse_from false s.

Fixpoint trim_start (s : jsstring) : jsstring :=
  match s with
  | c :: rest => if is_space c then trim_start rest else s
  | [] => []
  end.

(** [s.trim()]. *)
Definition trim (s : jsstring) : jsstring :=
  rev (trim_start (rev (trim_start s))).

(** The canonical form a case-insensitive regular expression without the
    [u] flag compares by, on the code units that can equal an ASCII one:
    ASCII letters go to upper case, and a code unit from 128 on is never
    canonicalized to one below 128. *)
Definition canonicalize (c : code_unit) : code_unit :=
  if ((97 <=? c) && (c <=? 122))%N then (c - 32)%N else c.

Fixpoint matches_here_ci (pattern s : jsstring) : bool :=
  match pattern, s with
  | [], _ => true
  | _ :: _, [] => false
  | p :: pattern', c :: s' =>
      (canonicalize p =? canonicalize c)%N && matches_here_ci pattern' s'
  end.

(** [/pattern/i.test(s)] for a pattern of literal ASCII characters. *)
Fixpoint test_ci (pattern s : jsstring) : bool :=
  matches_here_ci pattern s
  || match s with
     | [] => false
     | _ :: s' => test_ci pattern s'
     end.

(** [name.replace(/\.pdf$/i, '')]: the pattern can only match the last four
    code units. *)
Definition strip_pdf_extension (name : jsstring) : jsstring :=
  let stem := firstn (length name - 4) name in
  let tail := skipn (length name - 4) name in
  if (4 <=? length name) && matches_here_ci (lit ".pdf") tail
  then stem else name.

(* ===================================================================== *)
(** ** Arithmetic of the progress report *)
(* ===================================================================== *)

Definition num_div : number -> number -> number := SFdiv prec emax.
Definition num_mul : number -> number -> number := SFmul prec emax.
Definition num_ltb : number -> number -> bool := SFltb.
Definition num_leb : number -> number -> bool := SFleb.

(** [Math.round]: the nearest integer, ties towards positive infinity; a
    result of zero keeps the sign of the argument. *)
Definition Math_round (x : number) : number :=
  match x with
  | S754_finite s m e =>
      let mx := cond_Zopp s (Zpos m) in
      let n := match e with
               | Zneg k => ((2 * mx + 2 ^ Zpos k) / 2 ^ (Zpos k + 1))%Z
               | _ => (mx * 2 ^ e)%Z
               end in
      binary_normalize prec emax n 0 s
  | _ => x
  end.

(** [Math.round((pageIndex / totalPages) * 100)]. *)
Definition progress_percent (pageIndex totalPages : nat) : number :=
  Math_round (num_mul (num_div (num_of_nat pageIndex) (num_of_nat totalPages))
                      (num_of_nat 100)).

Arguments num_of_nat : simpl never.
Arguments progress_percent : simpl never.

(* ===================================================================== *)
(** ** The browser, pdf.js and the world *)
(* ===================================================================== *)

Definition PDF_WORKER_SOURCE : jsstring :=
  lit "https://cdnjs.cloudflare.com/ajax/libs/pdf.js/3.4.120/pdf.worker.min.js".

(** [window.pdfjsLib]: its [GlobalWorkerOptions] property ([None] when it is
    undefined, which the [?.] of line 11 allows for; [Some v] when the
    object is there, [v] being its [workerSrc], [None] when undefined) and
    its [disableWorker] property ([Some b] when its [typeof] is
    ['boolean']). *)
Record pdfjs := {
  GlobalWorkerOptions : option (option jsstring);
  disableWorker : option bool
}.

(** [lib.GlobalWorkerOptions?.workerSrc], the read of line 11. *)
Definition workerSrc (lib : pdfjs) : option jsstring :=
  match GlobalWorkerOptions lib with
  | Some v => v
  | None => None
  end.

(** The part of [window] the file touches; [pdfWorkerBlobUrl] is
    [window.__pdfWorkerBlobUrl]. *)
Record window := {
  pdfjsLib : option pdfjs;
  pdfWorkerBlobUrl : option jsstring
}.

(** Where the asynchronous function stored in [pdfWorkerReadyPromise] is
    suspended: at [await fetch(...)], or at [await response.text()] with the
    way the text of the response it holds will settle. *)
Inductive stage :=
| AwaitingFetch
| AwaitingText (body : result jsstring).

Inductive promise_state :=
| Pending (st : stage)
| Fulfilled
| Rejected (e : jserror).

(** The calls an observer of the program can count. [EvProvision] marks the
    invocation of the asynchronous function of [ensurePdfWorker]. *)
Inductive event :=
| EvProvision
| EvFetch
| EvWarn (message : jsstring)
| EvArrayBuffer
| EvGetDocument
| EvGetPage (pageNumber : nat)
| EvProgress (percent : number)
| EvGetMetadata
| EvCleanup.

Record world := {
  win : window;
  pdfWorkerReadyPromise : option promise_state;
  log : list event
}.

(** What [fetch] resolves to: [status] is the decimal text of the status
    code, [body_text] how [response.text()] settles. *)
Record response := {
  ok : bool;
  status : jsstring;
  body_text : result jsstring
}.

(** One item of a page's text content; [str] may be missing. *)
Record text_item := { str : option jsstring }.

Record pdf_page := { getTextContent : result (list text_item) }.

Record pdf_info := {
  Title : option jsstring;
  Author : option jsstring
}.

(** The value [getMetadata] resolves to; [info] may be missing. *)
Record pdf_metadata := { info : option pdf_info }.

(** A document session: [getPage] and [getMetadata] give how the promises
    settle ([getMetadata] may resolve to a falsy value, [None]). *)
Record pdf_document := {
  numPages : nat;
  getPage : nat -> result pdf_page;
  getMetadata : result (option pdf_metadata)
}.

(** What lies outside the program: the capabilities of the environment, how
    the fetch of the worker script settles, and how pdf.js opens the bytes
    (depending on the number of earlier attempts and on the library's
    configuration at the time). *)
Record environment := {
  can_fetch : bool;
  can_Blob : bool;
  can_URL : bool;
  can_createObjectURL : bool;
  fetch_result : result response;
  createObjectURL : jsstring -> result jsstring;
  getDocument : list N -> nat -> pdfjs -> result pdf_document
}.

Record File := {
  file_name : jsstring;
  file_size : N;
  file_lastModified : N;
  file_arrayBuffer : result (list N)
}.

Record DocumentResult := {
  title : jsstring;
  author : jsstring;
  totalPages : nat;
  pages : list PageResult;
  rawSize : N;
  lastModified : N
}.

(** The [onProgress] option when it is a function: what the call does, given
    the number of calls made before and the argument; [Some e] when it
    throws [e]. *)
Definition progress_callback := nat -> number -> option jserror.

(** *** Updates of the world *)

Definition emit (e : event) (w : world) : world :=
  {| win := win w;
     pdfWorkerReadyPromise := pdfWorkerReadyPromise w;
     log := log w ++ [e] |}.

Definition set_promise (p : promise_state) (w : world) : world :=
  {| win := win w; pdfWorkerReadyPromise := Some p; log := log w |}.

Definition set_window (wn : window) (w : world) : world :=
  {| win := wn; pdfWorkerReadyPromise := pdfWorkerReadyPromise w; log := log w |}.

(** The [TypeError] of an assignment to [workerSrc] where
    [GlobalWorkerOptions] is undefined. *)
Definition no_options_error : jserror :=
  JsError (lit "Cannot set properties of undefined (setting 'workerSrc')").

(** [window.pdfjsLib.GlobalWorkerOptions.workerSrc = url], the write of
    lines 32 and 39: a [TypeError] where the library or its
    [GlobalWorkerOptions] is undefined. *)
Definition assign_workerSrc (url : jsstring) (w : world) : result world :=
  match pdfjsLib (win w) with
  | Some lib =>
      match GlobalWorkerOptions lib with
      | Some _ =>
          Ok (set_window
                {| pdfjsLib := Some {| GlobalWorkerOptions := Some (Some url);
                                       disableWorker := disableWorker lib |};
                   pdfWorkerBlobUrl := pdfWorkerBlobUrl (win w) |} w)
      | None => Throw no_options_error
      end
  | None => Throw (JsError (lit "Cannot read properties of undefined"))
  end.

(** [window.__pdfWorkerBlobUrl = url]. *)
Definition assign_blobUrl (url : jsstring) (w : world) : world :=
  set_window {| pdfjsLib := pdfjsLib (win w); pdfWorkerBlobUrl := Some url |} w.

(** [ToBoolean] of a string or undefined. *)
Definition truthy_str (a : option jsstring) : bool :=
  match a with
  | Some s => nonempty s
  | None => false
  end.

(** [a || b] where [a] is a string or undefined. *)
Definition or_else (a : option jsstring) (b : jsstring) : jsstring :=
  match a with
  | Some s => if nonempty s then s else b
  | None => b
  end.

Definition count_event (f : event -> bool) (w : world) : nat :=
  length (filter f (log w)).

Definition is_fetch (e : event) : bool :=
  match e with EvFetch => true | _ => false end.
Definition is_provision (e : event) : bool :=
  match e with EvProvision => true | _ => false end.
Definition is_getDocument (e : event) : bool :=
  match e with EvGetDocument => true | _ => false end.
Definition is_progress (e : event) : bool :=
  match e with EvProgress _ => true | _ => false end.
Definition is_getPage (e : event) : bool :=
  match e with EvGetPage _ => true | _ => false end.

(* ===================================================================== *)
(** ** [ensurePdfWorker] *)
(* ===================================================================== *)

Definition canInlineWorker (env : environment) : bool :=
  can_fetch env && can_Blob env && can_URL env && can_createObjectURL env.

(** Line 39, which ends the asynchronous function. *)
Definition fall_back (w : world) : world :=
  match assign_workerSrc
          (or_else (pdfWorkerBlobUrl (win w)) PDF_WORKER_SOURCE) w with
  | Ok w' => set_promise Fulfilled w'
  | Throw e => set_promise (Rejected e) w
  end.

(** The [catch] clause of the inlining attempt, then line 39. *)
Definition inline_failed (w : world) : world :=
  fall_back
    (emit (EvWarn (lit "Unable to inline PDF.js worker, falling back to remote worker"))
          w).

(** The asynchronous function of lines 16 to 40, run up to its first
    [await]; its promise is stored in [pdfWorkerReadyPromise]. *)
Definition start_provisioning (env : environment) (w : world) : world :=
  let w := emit EvProvision w in
  if canInlineWorker env
  then set_promise (Pending AwaitingFetch) (emit EvFetch w)
  else fall_back w.

(** The function resumes when [fetch] has settled. *)
Definition fetch_settled (r : result response) (w : world) : world :=
  match r with
  | Throw _ => inline_failed w
  | Ok resp =>
      if ok resp then set_promise (Pending (AwaitingText (body_text resp))) w
      else inline_failed w
  end.

(** The function resumes when [response.text()] has settled. *)
Definition text_settled (env : environment) (r : result jsstring)
    (w : world) : world :=
  match r with
  | Throw _ => inline_failed w
  | Ok script =>
      match createObjectURL env script with
      | Throw _ => inline_failed w
      | Ok blobUrl =>
          let w1 := assign_blobUrl blobUrl w in
          match assign_workerSrc blobUrl w1 with
          | Ok w2 => set_promise Fulfilled w2
          | Throw _ => inline_failed w1
          end
      end
  end.

(** How a call of [ensurePdfWorker] leaves its synchronous part. *)
Inductive call_outcome :=
| Returned
| Threw (e : jserror)
| Suspended.

(** [ensurePdfWorker()] up to [await pdfWorkerReadyPromise]. *)
Definition ensurePdfWorker_call (env : environment) (w : world)
  : world * call_outcome :=
  match pdfjsLib (win w) with
  | None => (w, Threw (JsError (lit "PDF.js library not loaded")))
  | Some lib =>
      if truthy_str (workerSrc lib)
      then (w, Returned)
      else
        (match pdfWorkerReadyPromise w with
         | None => start_provisioning env w
         | Some _ => w
         end, Suspended)
  end.

(** The pending provisioning run to its settlement, [fetch] settling as
    the environment says. *)
Definition run_pending (env : environment) (w : world) : world :=
  match pdfWorkerReadyPromise w with
  | Some (Pending AwaitingFetch) =>
      let w1 := fetch_settled (fetch_result env) w in
      match pdfWorkerReadyPromise w1 with
      | Some (Pending (AwaitingText body)) => text_settled env body w1
      | _ => w1
      end
  | Some (Pending (AwaitingText body)) => text_settled env body w
  | _ => w
  end.

(* ===================================================================== *)
(** ** Computations over the world *)
(* ===================================================================== *)

Definition M (A : Type) := world -> world * result A.

Definition ret {A} (a : A) : M A := fun w => (w, Ok a).

Definition throw {A} (e : jserror) : M A := fun w => (w, Throw e).

Definition bind {A B} (m : M A) (k : A -> M B) : M B :=
  fun w =>
    match m w with
    | (w', Ok a) => k a w'
    | (w', Throw e) => (w', Throw e)
    end.

(** [try { m } catch (error) { handler error }]. *)
Definition try_catch {A} (m : M A) (handler : jserror -> M A) : M A :=
  fun w =>
    match m w with
    | (w', Ok a) => (w', Ok a)
    | (w', Throw e) => handler e w'
    end.

Definition lift {A} (r : result A) : M A := fun w => (w, r).

Definition tell (e : event) : M unit := fun w => (emit e w, Ok tt).

Declare Scope js_scope.
Delimit Scope js_scope with js.
Notation "x <- m ;; k" := (bind m (fun x => k))
  (at level 61, m at next level, right associativity) : js_scope.
Notation "m ;; k" := (bind m (fun _ => k))
  (at level 61, right associativity) : js_scope.
Open Scope js_scope.

(** [await ensurePdfWorker()], seen from its caller. *)
Definition ensurePdfWorker (env : environment) : M unit :=
  fun w =>
    match ensurePdfWorker_call env w with
    | (w1, Returned) => (w1, Ok tt)
    | (w1, Threw e) => (w1, Throw e)
    | (w1, Suspended) =>
        let w2 := run_pending env w1 in
        match pdfWorkerReadyPromise w2 with
        | Some (Rejected e) => (w2, Throw e)
        | _ => (w2, Ok tt)
        end
    end.

(* ===================================================================== *)
(** ** [extractPdfText] *)
(* ===================================================================== *)

(** [error instanceof Error ? error.message : String(error)]. *)
Definition error_message (error : jserror) : jsstring :=
  match error with
  | JsError message => message
  | JsThrown txt => txt
  end.

(** The test of line 59. *)
Definition workerFailed (message : jsstring) : bool :=
  test_ci (lit "Setting up fake worker failed") message
  || test_ci (lit "Cannot load script") message.

(** [await window.pdfjsLib.getDocument({ data }).promise]. *)
Definition open_document (env : environment) (data : list N) : M pdf_document :=
  fun w =>
    match pdfjsLib (win w) with
    | Some lib =>
        (emit EvGetDocument w,
         getDocument env data (count_event is_getDocument w) lib)
    | None => (w, Throw (JsError (lit "Cannot read properties of undefined")))
    end.

(** Lines 65 to 67: the flag is set only where it already is a boolean. *)
Definition disable_worker_if_boolean : M unit :=
  fun w =>
    match pdfjsLib (win w) with
    | Some lib =>
        match disableWorker lib with
        | Some _ =>
            (set_window
               {| pdfjsLib := Some {| GlobalWorkerOptions := GlobalWorkerOptions lib;
                                      disableWorker := Some true |};
                  pdfWorkerBlobUrl := pdfWorkerBlobUrl (win w) |} w,
             Ok tt)
        | None => (w, Ok tt)
        end
    | None => (w, Throw (JsError (lit "Cannot read properties of undefined")))
    end.

(** Lines 54 to 69. *)
Definition open_with_retry (env : environment) (data : list N) : M pdf_document :=
  try_catch (open_document env data)
    (fun error =>
       let message := error_message error in
       if negb (workerFailed message) then throw error
       else
         tell (EvWarn (lit "PDF.js worker failed to initialize, retrying without worker thread")) ;;
         disable_worker_if_boolean ;;
         open_document env data).

(** [item => item.str || '']. *)
Definition item_text (item : text_item) : jsstring := or_else (str item) [].

(** The [try] block of the page loop. *)
Definition read_page (pdf : pdf_document) (pageIndex : nat) : M PageResult :=
  tell (EvGetPage pageIndex) ;;
  pg <- lift (getPage pdf pageIndex) ;;
  items <- lift (getTextContent pg) ;;
  let pageText := trim (collapse_spaces (join_space (map item_text items))) in
  ret {| index := pageIndex - 1;
         text := pageText;
         hasTextContent := nonempty pageText;
         error := None |}.

(** [error instanceof Error ? error.message : 'Unknown parsing error']. *)
Definition recorded_error (err : jserror) : jsstring :=
  match err with
  | JsError message => message
  | JsThrown _ => lit "Unknown parsing error"
  end.

(** The [catch] clause of the page loop. *)
Definition failed_page (pageIndex : nat) (err : jserror) : M PageResult :=
  tell (EvWarn (lit "Failed to parse page")) ;;
  ret {| index := pageIndex - 1;
         text := [];
         hasTextContent := false;
         error := Some (recorded_error err) |}.

(** Lines 93 to 95; [None] stands for an [onProgress] that is not a
    function. *)
Definition report_progress (onProgress : option progress_callback)
    (pageIndex total : nat) : M unit :=
  match onProgress with
  | Some callback =>
      fun w =>
        let percent := progress_percent pageIndex total in
        (emit (EvProgress percent) w,
         match callback (count_event is_progress w) percent with
         | Some e => Throw e
         | None => Ok tt
         end)
  | None => ret tt
  end.

(** One turn of the page loop; [acc] is the array [pages]. *)
Definition page_step (pdf : pdf_document) (onProgress : option progress_callback)
    (total : nat) (acc : list PageResult) (pageIndex : nat)
  : M (list PageResult) :=
  acc' <- try_catch (pg <- read_page pdf pageIndex ;; ret (acc ++ [pg]))
                    (fun err => pg <- failed_page pageIndex err ;;
                                ret (acc ++ [pg])) ;;
  report_progress onProgress pageIndex total ;;
  ret acc'.

(** [for (pageIndex = 1; pageIndex <= totalPages; pageIndex += 1)] as the
    list of the values [pageIndex] takes, over the array [acc]. *)
Fixpoint page_loop (pdf : pdf_document) (onProgress : option progress_callback)
    (total : nat) (indices : list nat) (acc : list PageResult)
  : M (list PageResult) :=
  match indices with
  | [] => ret acc
  | pageIndex :: rest =>
      acc' <- page_step pdf onProgress total acc pageIndex ;;
      page_loop pdf onProgress total rest acc'
  end.

(** Line 98. *)
Definition read_metadata (pdf : pdf_document) : M pdf_metadata :=
  tell EvGetMetadata ;;
  ret match getMetadata pdf with
      | Throw _ => {| info := Some {| Title := None; Author := None |} |}
      | Ok (Some meta) => meta
      | Ok None => {| info := None |}
      end.

(** [titleMeta.info?.Title] and [titleMeta.info?.Author]. *)
Definition info_field (field : pdf_info -> option jsstring)
    (titleMeta : pdf_metadata) : option jsstring :=
  match info titleMeta with
  | Some i => field i
  | None => None
  end.

(** Lines 47 to 69: everything before the page loop. *)
Definition open_phase (env : environment) (file : File) : M pdf_document :=
  (fun w => match pdfjsLib (win w) with
            | None => (w, Throw (JsError (lit "PDF.js library not loaded")))
            | Some _ => (w, Ok tt)
            end) ;;
  ensurePdfWorker env ;;
  tell EvArrayBuffer ;;
  arrayBuffer <- lift (file_arrayBuffer file) ;;
  open_with_retry env arrayBuffer.

(** Lines 70 to 110. *)
Definition extract_from (pdf : pdf_document) (file : File)
    (onProgress : option progress_callback) : M DocumentResult :=
  let total := numPages pdf in
  pgs <- page_loop pdf onProgress total (seq 1 total) [] ;;
  titleMeta <- read_metadata pdf ;;
  let ttl := or_else (info_field Title titleMeta)
                     (strip_pdf_extension (file_name file)) in
  tell EvCleanup ;;
  ret {| title := ttl;
         author := or_else (info_field Author titleMeta) (lit "Unknown author");
         totalPages := total;
         pages := pgs;
         rawSize := file_size file;
         lastModified := file_lastModified file |}.

Definition extractPdfText (env : environment) (file : File)
    (onProgress : option progress_callback) : M DocumentResult :=
  pdf <- open_phase env file ;;
  extract_from pdf file onProgress.

(* ===================================================================== *)
(** ** [ensurePdfWorker] on the event loop *)
(* ===================================================================== *)

(** What can happen between two turns of the event loop: some caller calls
    [ensurePdfWorker()]; the pending [fetch] settles, in any way; the pending
    [response.text()] settles; code outside this file assigns the worker
    location. *)
Inductive action :=
| Call
| FetchSettles (r : result response)
| TextSettles
| ExternalWorkerSrc (v : option jsstring).

(** The world together with the suspended calls: for each call waiting at
    [await pdfWorkerReadyPromise], the ordinal of the provisioning operation
    whose promise it awaits. *)
Record system := {
  sys_world : world;
  awaited : list nat
}.

(** [window.pdfjsLib.GlobalWorkerOptions.workerSrc = v] in code outside
    this file; where the library or its [GlobalWorkerOptions] is undefined
    the assignment throws there and changes nothing. *)
Definition assign_external (v : option jsstring) (w : world) : world :=
  match pdfjsLib (win w) with
  | Some lib =>
      match GlobalWorkerOptions lib with
      | Some _ =>
          set_window
            {| pdfjsLib := Some {| GlobalWorkerOptions := Some v;
                                   disableWorker := disableWorker lib |};
               pdfWorkerBlobUrl := pdfWorkerBlobUrl (win w) |} w
      | None => w
      end
  | None => w
  end.

Inductive step (env : environment) : system -> action -> system -> Prop :=
| step_call st w' out :
    ensurePdfWorker_call env (sys_world st) = (w', out) ->
    step env st Call
      {| sys_world := w';
         awaited := match out with
                    | Suspended => awaited st ++ [count_event is_provision w']
                    | _ => awaited st
                    end |}
| step_fetch st r :
    pdfWorkerReadyPromise (sys_world st) = Some (Pending AwaitingFetch) ->
    step env st (FetchSettles r)
      {| sys_world := fetch_settled r (sys_world st); awaited := awaited st |}
| step_text st body :
    pdfWorkerReadyPromise (sys_world st) = Some (Pending (AwaitingText body)) ->
    step env st TextSettles
      {| sys_world := text_settled env body (sys_world st);
         awaited := awaited st |}
| step_external st v :
    step env st (ExternalWorkerSrc v)
      {| sys_world := assign_external v (sys_world st);
         awaited := awaited st |}.

(** A run of the event loop. *)
Inductive steps (env : environment) : system -> list action -> system -> Prop :=
| steps_nil st : steps env st [] st
| steps_cons st a st' acts st'' :
    step env st a st' -> steps env st' acts st'' ->
    steps env st (a :: acts) st''.

(** The process as the module is loaded: no promise yet, nothing logged,
    nobody waiting; the window is arbitrary. *)
Definition initial (wn : window) : system :=
  {| sys_world := {| win := wn; pdfWorkerReadyPromise := None; log := [] |};
     awaited := [] |}.

(* ===================================================================== *)
(** ** Derived descriptions used by the statements *)
(* ===================================================================== *)

(** The world with more events logged. *)
Definition extend (evs : list event) (w : world) : world :=
  {| win := win w;
     pdfWorkerReadyPromise := pdfWorkerReadyPromise w;
     log := log w ++ evs |}.

(** How the retrieval of a page's text ends. *)
Definition page_outcome (pdf : pdf_document) (pageIndex : nat)
  : result (list text_item) :=
  let? pg := getPage pdf pageIndex in getTextContent pg.

(** The Page Result pushed for a page. *)
Definition page_result (pdf : pdf_document) (pageIndex : nat) : PageResult :=
  match page_outcome pdf pageIndex with
  | Ok items =>
      let pageText := trim (collapse_spaces (join_space (map item_text items))) in
      {| index := pageIndex - 1;
         text := pageText;
         hasTextContent := nonempty pageText;
         error := None |}
  | Throw err =>
      {| index := pageIndex - 1;
         text := [];
         hasTextContent := false;
         error := Some (recorded_error err) |}
  end.

(** The events of the [try]/[catch] of a page. *)
Definition page_trace (pdf : pdf_document) (pageIndex : nat) : list event :=
  EvGetPage pageIndex
    :: match page_outcome pdf pageIndex with
       | Ok _ => []
       | Throw _ => [EvWarn (lit "Failed to parse page")]
       end.

(** The events of one turn of the page loop. *)
Definition turn_trace (pdf : pdf_document) (onProgress : option progress_callback)
    (total pageIndex : nat) : list event :=
  page_trace pdf pageIndex
    ++ match onProgress with
       | Some _ => [EvProgress (progress_percent pageIndex total)]
       | None => []
       end.

(** The title and author fields of the metadata the document gives, if any. *)
Definition metadata_field (field : pdf_info -> option jsstring)
    (pdf : pdf_document) : option jsstring :=
  match getMetadata pdf with
  | Ok (Some meta) => info_field field meta
  | _ => None
  end.

(** A list of numbers is strictly increasing. *)
Fixpoint increasing (l : list number) : bool :=
  match l with
  | a :: (b :: _) as rest => num_ltb a b && increasing rest
  | _ => true
  end.

(** A list of numbers never decreases. *)
Fixpoint non_decreasing (l : list number) : bool :=
  match l with
  | a :: (b :: _) as rest => num_leb a b && non_decreasing rest
  | _ => true
  end.

(** The percentages reported for a document of [total] pages. *)
Definition percentages (total : nat) : list number :=
  map (fun pageIndex => progress_percent pageIndex total) (seq 1 total).

(** The inlining of the worker script fails: a capability is missing, the
    fetch is rejected, the status is not a success, the text cannot be read,
    or the blob URL cannot be made. *)
Definition inlining_fails (env : environment) : bool :=
  negb (canInlineWorker env)
  || match fetch_result env with
     | Throw _ => true
     | Ok resp =>
         negb (ok resp)
         || match body_text resp with
            | Throw _ => true
            | Ok script =>
                match createObjectURL env script with
                | Throw _ => true
                | Ok _ => false
                end
            end
     end.

(** What a call of the [onProgress] option does; nothing when it is not a
    function. *)
Definition call_result (onProgress : option progress_callback)
    (calls_before : nat) (percent : number) : option jserror :=
  match onProgress with
  | Some callback => callback calls_before percent
  | None => None
  end.

(** The callback returns normally at every turn of the loop over [indices],
    [calls_before] calls having been made before the loop. *)
Definition quiet (onProgress : option progress_callback) (total : nat)
    (calls_before : nat) (indices : list nat) : Prop :=
  forall j pageIndex,
    nth_error indices j = Some pageIndex ->
    call_result onProgress (calls_before + j) (progress_percent pageIndex total)
    = None.

(** The Document Result of a document and a file. *)
Definition document_result (pdf : pdf_document) (file : File) : DocumentResult :=
  {| title := or_else (metadata_field Title pdf)
                      (strip_pdf_extension (file_name file));
     author := or_else (metadata_field Author pdf) (lit "Unknown author");
     totalPages := numPages pdf;
     pages := map (page_result pdf) (seq 1 (numPages pdf));
     rawSize := file_size file;
     lastModified := file_lastModified file |}.

(** The events of [extractPdfText] from the page loop on, when no callback
    throws. *)
Definition extraction_trace (pdf : pdf_document)
    (onProgress : option progress_callback) : list event :=
  flat_map (turn_trace pdf onProgress (numPages pdf)) (seq 1 (numPages pdf))
  ++ [EvGetMetadata; EvCleanup].

(* ===================================================================== *)
(** ** Sample inputs *)
(* ===================================================================== *)

(** A window where pdf.js is loaded and already has a worker location, as
    pdf.js 3.4.120 is: it has no boolean [disableWorker] property. *)
Definition sample_window : window :=
  {| pdfjsLib := Some {| GlobalWorkerOptions := Some (Some (lit "pdf.worker.js"));
                         disableWorker := None |};
     pdfWorkerBlobUrl := None |}.

Definition sample_world : world :=
  {| win := sample_window; pdfWorkerReadyPromise := None; log := [] |}.

(** Two pages: the first has text, the text of the second cannot be read,
    and the failure is an [Error] with an empty message. The metadata has no
    title and an empty author. *)
Definition sample_pdf : pdf_document :=
  {| numPages := 2;
     getPage := fun n =>
       match n with
       | 1 => Ok {| getTextContent :=
                      Ok [{| str := Some (lit "Hello") |};
                          {| str := None |};
                          {| str := Some (lit " world ") |}] |}
       | _ => Throw (JsError [])
       end;
     getMetadata :=
       Ok (Some {| info := Some {| Title := None; Author := Some [] |} |}) |}.

(** A document of [n] empty pages without metadata. *)
Definition blank_pdf (n : nat) : pdf_document :=
  {| numPages := n;
     getPage := fun _ => Ok {| getTextContent := Ok [] |};
     getMetadata := Throw (JsError (lit "no metadata")) |}.

(** An environment where the worker script cannot be fetched and every
    open gives [pdf]. *)
Definition env_opening (pdf : pdf_document) : environment :=
  {| can_fetch := true;
     can_Blob := true;
     can_URL := true;
     can_createObjectURL := true;
     fetch_result := Throw (JsError (lit "Failed to fetch"));
     createObjectURL := fun _ => Ok (lit "blob:1");
     getDocument := fun _ _ _ => Ok pdf |}.

Definition sample_file : File :=
  {| file_name := lit "Report.PDF";
     file_size := 4;
     file_lastModified := 0;
     file_arrayBuffer := Ok [37; 80; 68; 70]%N |}.

(** A callback that never throws. *)
Definition silent_callback : progress_callback := fun _ _ => None.

(** The [onProgress] option never throws. *)
Definition never_throws (onProgress : option progress_callback) : Prop :=
  forall calls_before percent, call_result onProgress calls_before percent = None.

(** *** The file extension as the specification words it *)

Definition ascii_lower (c : code_unit) : code_unit :=
  if ((65 <=? c) && (c <=? 90))%N then (c + 32)%N else c.

(** [ext] is [.pdf] written in any mix of upper and lower case. *)
Definition is_pdf_extension (ext : jsstring) : bool :=
  jsstring_eqb (map ascii_lower ext) (lit ".pdf").

(** The library as the retry of the opening finds it: [disableWorker] is
    true where it was a boolean, and stays as it was elsewhere. *)
Definition retry_library (lib : pdfjs) : pdfjs :=
  {| GlobalWorkerOptions := GlobalWorkerOptions lib;
     disableWorker := match disableWorker lib with
                      | Some _ => Some true
                      | None => None
                      end |}.

(** An environment where the first opening fails as a worker that cannot be
    set up, and the next one gives a document of one page. *)
Definition env_failing_worker : environment :=
  {| can_fetch := true;
     can_Blob := true;
     can_URL := true;
     can_createObjectURL := true;
     fetch_result := Throw (JsError (lit "Failed to fetch"));
     createObjectURL := fun _ => Ok (lit "blob:1");
     getDocument := fun _ attempt _ =>
       match attempt with
       | 0 => Throw (JsError (lit "Setting up fake worker failed: no worker"))
       | _ => Ok (blank_pdf 1)
       end |}.

(** A window where pdf.js is loaded, has a boolean [disableWorker], and
    has no worker location yet. *)
Definition fresh_window : window :=
  {| pdfjsLib := Some {| GlobalWorkerOptions := Some None;
                         disableWorker := Some false |};
     pdfWorkerBlobUrl := None |}.

Definition fresh_world : world :=
  {| win := fresh_window; pdfWorkerReadyPromise := None; log := [] |}.

(** A window whose library object has no [GlobalWorkerOptions]. *)
Definition bare_window : window :=
  {| pdfjsLib := Some {| GlobalWorkerOptions := None; disableWorker := None |};
     pdfWorkerBlobUrl := None |}.

Definition bare_world : world :=
  {| win := bare_window; pdfWorkerReadyPromise := None; log := [] |}.

(** At most one provisioning operation was started, it is the one whose
    promise [pdfWorkerReadyPromise] holds, it fetched at most once, and every
    suspended call awaits it. *)
Definition provisioned_once (st : system) : Prop :=
  count_event is_provision (sys_world st)
  = match pdfWorkerReadyPromise (sys_world st) with
    | Some _ => 1
    | None => 0
    end
  /\ count_event is_fetch (sys_world st) <= count_event is_provision (sys_world st)
  /\ Forall (fun id => id = 1) (awaited st).

(** [w'] has the provisioning and fetch counts of [w] and holds a promise. *)
Definition settles (w w' : world) : Prop :=
  count_event is_provision w' = count_event is_provision w
  /\ count_event is_fetch w' = count_event is_fetch w
  /\ pdfWorkerReadyPromise w' <> None.

(** The events of the page loop an observer of pages and progress sees. *)
Definition is_page_or_progress (e : event) : bool :=
  is_getPage e || is_progress e.

(* ===================================================================== *)
(** ** Rounding to 53 bits, on integers *)
(* ===================================================================== *)

Open Scope Z_scope.

(** A non-negative rational [a / b] as the cell it falls in: four times its
    integer part, plus 0 when it is that integer, 1 when it lies in the lower
    half above it, 2 when it is the midpoint, 3 when it lies in the upper
    half. *)
Definition cell (a b : Z) : Z :=
  4 * (a / b)
  + (if a mod b =? 0 then 0
     else match 2 * (a mod b) ?= b with
          | Lt => 1
          | Eq => 2
          | Gt => 3
          end).

(** The cell of a shift record: mantissa, round bit, sticky bit. *)
Definition code (mrs : shr_record) : Z :=
  4 * shr_m mrs + (if shr_r mrs then 2 else 0) + (if shr_s mrs then 1 else 0).

(** The cell of a mantissa with a location. *)
Definition loc_code (m : Z) (l : location) : Z :=
  4 * m + match l with
          | loc_Exact => 0
          | loc_Inexact Lt => 1
          | loc_Inexact Eq => 2
          | loc_Inexact Gt => 3
          end.

(** Round to nearest, ties to even, of a cell. *)
Definition round_cell (c : Z) : Z :=
  c / 4 + (if (c mod 4 =? 3) || ((c mod 4 =? 2) && Z.odd (c / 4)) then 1 else 0).

(** One right shift that keeps a sticky bit. *)
Definition sticky_shift (c : Z) : Z :=
  2 * (c / 4) + (if c mod 4 =? 0 then 0 else 1).

(** The number that [binary_round_aux] makes of a rounded mantissa. *)
Definition rounded (q : Z) (e : Z) : spec_float :=
  if q =? 2 ^ 53 then S754_finite false 4503599627370496 (e + 1)
  else S754_finite false (Z.to_pos q) e.

(** [x] is the positive number of mantissa [m], of 53 bits, and exponent
    [e]. *)
Definition normal (x : number) (m e : Z) : Prop :=
  x = S754_finite false (Z.to_pos m) e /\ 2 ^ 52 <= m < 2 ^ 53.

(** The order of positive normal numbers, on their mantissas and
    exponents. *)
Definition normal_le (m e m' e' : Z) : Prop :=
  e < e' \/ (e = e' /\ m <= m').

(** The integer nearest to [m * 2 ^ e], ties upwards. *)
Definition round_half (m e : Z) : Z :=
  (2 * m * 2 ^ (e + 400) + 2 ^ 400) / 2 ^ 401.

Close Scope Z_scope.

(* ===================================================================== *)
(** ** Words of a text *)
(* ===================================================================== *)

(** The maximal runs of code units that are not white space, in the order
    of the text; [word] is the run being read. *)
Fixpoint words_from (word : jsstring) (s : jsstring) : list jsstring :=
  match s with
  | [] => if nonempty word then [word] else []
  | c :: rest =>
      if is_space c
      then (if nonempty word then [word] else []) ++ words_from [] rest
      else words_from (word ++ [c]) rest
  end.

Definition words (s : jsstring) : list jsstring := words_from [] s.

(** The words of the items of a page, item after item. *)
Definition page_words (items : list text_item) : list jsstring :=
  concat (map (fun item => words (item_text item)) items).

(** A word: not empty, and without white space. *)
Definition is_word (w : jsstring) : Prop :=
  w <> [] /\ Forall (fun c => is_space c = false) w.

(** Every white-space code unit of [s] is a space that is not followed by
    white space. *)
Fixpoint single_spaced (s : jsstring) : bool :=
  match s with
  | [] => true
  | c :: rest =>
      (if is_space c
       then (c =? 32)%N
            && match rest with
               | c' :: _ => negb (is_space c')
               | [] => true
               end
       else true)
      && single_spaced rest
  end.

(** [piece] occurs in [s] as a run of consecutive code units. *)
Definition occurs_in (piece s : jsstring) : Prop :=
  exists before after, s = before ++ piece ++ after.

(** [s] without its white space. *)
Definition without_spaces (s : jsstring) : jsstring :=
  filter (fun c => negb (is_space c)) s.

(** [a] and [b] are the same up to the case of their ASCII letters. *)
Definition same_ignoring_case (a b : jsstring) : Prop :=
  map canonicalize a = map canonicalize b.

(* ===================================================================== *)
(** ** Counting the events of a run *)
(* ===================================================================== *)

Definition is_cleanup (e : event) : bool :=
  match e with EvCleanup => true | _ => false end.
Definition is_arrayBuffer (e : event) : bool :=
  match e with EvArrayBuffer => true | _ => false end.

(** The events of the provisioning of the worker. *)
Definition is_setup_event (e : event) : bool :=
  match e with
  | EvProvision | EvFetch | EvWarn _ => true
  | _ => false
  end.

(** The events that come before the page loop. *)
Definition is_opening_event (e : event) : bool :=
  match e with
  | EvProvision | EvFetch | EvWarn _ | EvArrayBuffer | EvGetDocument => true
  | _ => false
  end.

(** How many of the events [evs] satisfy [f]. *)
Definition occurrences (f : event -> bool) (evs : list event) : nat :=
  length (filter f evs).

(** The promise of the provisioning is settled. *)
Definition is_settled (w : world) : bool :=
  match pdfWorkerReadyPromise w with
  | Some Fulfilled | Some (Rejected _) => true
  | _ => false
  end.

(** At most one warning, and nothing else. *)
Definition warned (evs : list event) : Prop :=
  evs = [] \/ exists m, evs = [EvWarn m].

(* ===================================================================== *)
(** ** States of the provisioning *)
(* ===================================================================== *)

(** [window.pdfjsLib] is there. *)
Definition has_lib (w : world) : bool :=
  match pdfjsLib (win w) with Some _ => true | None => false end.

(** The promise of the provisioning is rejected. *)
Definition is_rejected (w : world) : bool :=
  match pdfWorkerReadyPromise w with Some (Rejected _) => true | _ => false end.

(** The library is there and carries its [GlobalWorkerOptions]. *)
Definition has_options (w : world) : bool :=
  match pdfjsLib (win w) with
  | Some lib =>
      match GlobalWorkerOptions lib with Some _ => true | None => false end
  | None => false
  end.

(** The promise of the provisioning is rejected only by the [TypeError] of
    a library without [GlobalWorkerOptions]. *)
Definition rejected_for_options (w : world) : Prop :=
  forall e,
    pdfWorkerReadyPromise w = Some (Rejected e) ->
    e = no_options_error /\ has_options w = false.

(** The library has a worker location. *)
Definition has_workerSrc (w : world) : bool :=
  match pdfjsLib (win w) with
  | Some lib => truthy_str (workerSrc lib)
  | None => false
  end.

(** An environment where the worker script is fetched and made a blob. *)
Definition env_inlining : environment :=
  {| can_fetch := true;
     can_Blob := true;
     can_URL := true;
     can_createObjectURL := true;
     fetch_result := Ok {| ok := true;
                           status := lit "200";
                           body_text := Ok (lit "onmessage = null") |};
     createObjectURL := fun _ => Ok (lit "blob:1");
     getDocument := fun _ _ _ => Ok (blank_pdf 1) |}.

(** A world where [ensurePdfWorker] has nothing left to do: the library is
    there, and it has a worker location or the promise of the provisioning
    is fulfilled. *)
Definition worker_ready (w : world) : Prop :=
  has_lib w = true
  /\ (has_workerSrc w = true \/ pdfWorkerReadyPromise w = Some Fulfilled).

(** What two worlds share when the second comes from the first without a
    step of the provisioning. *)
Definition same_worker (w w' : world) : Prop :=
  pdfWorkerReadyPromise w' = pdfWorkerReadyPromise w
  /\ count_event is_provision w' = count_event is_provision w
  /\ count_event is_fetch w' = count_event is_fetch w.

(** What happens in a session, one thing after the other: an extraction,
    run to its end, or an assignment of the worker location by code
    outside this file. *)
Inductive session_action :=
| Extraction (env : environment) (file : File)
             (onProgress : option progress_callback)
| OutsideAssignment (v : option jsstring).

Definition session_step (w : world) (a : session_action) : world :=
  match a with
  | Extraction env file onProgress => fst (extractPdfText env file onProgress w)
  | OutsideAssignment v => assign_external v w
  end.

(** The world after the session [acts], begun in [w]. *)
Definition session (acts : list session_action) (w : world) : world :=
  fold_left session_step acts w.

(** Between two actions of a session: one provisioning was started if the
    promise is there and none otherwise, it fetched at most once, and the
    promise is not pending. *)
Definition provisioning_counted (w : world) : Prop :=
  count_event is_provision w
  = match pdfWorkerReadyPromise w with
    | Some _ => 1
    | None => 0
    end
  /\ count_event is_fetch w <= count_event is_provision w
  /\ forall stage, pdfWorkerReadyPromise w <> Some (Pending stage).

(** The sentences of a sequence of words: a sentence ends with a word that
    ends with a period and is not the last word; [cur] is the sentence
    being read. *)
Fixpoint sentences_from (cur : list jsstring) (ws : list jsstring)
  : list (list jsstring) :=
  match ws with
  | [] => [cur]
  | w :: rest =>
      match rest with
      | [] => [cur ++ [w]]
      | _ :: _ =>
          if ends_with_period w
          then (cur ++ [w]) :: sentences_from [] rest
          else sentences_from (cur ++ [w]) rest
      end
  end.

(** The line that holds the words [cur] and waits for the next word. *)
Definition open_line (cur : list jsstring) : jsstring :=
  match cur with
  | [] => []
  | _ :: _ => join_space cur ++ [32%N]
  end.

(* ===================================================================== *)
(** * Properties *)
(* ===================================================================== *)

Unset Implicit Arguments.

(** ** The split loop *)

Example js_split_example :
  js_split (lit "Revenue: 100, up 5%. Notes here.")
  = [lit "Revenue: 100, up 5%."; lit "Notes here."].
Proof. reflexivity. Qed.

Lemma split_loop_done s p q :
  length s <= q -> split_loop s p q = [substring s p (length s)].
Proof.
  intros Hq. rewrite split_loop_equation_1.
  destruct (lt_dec q (length s)); [lia|]. reflexivity.
Qed.

Lemma split_loop_skip s p q :
  q < length s -> splitter_match s q = None ->
  split_loop s p q = split_loop s p (S q).
Proof.
  intros Hq Hm. remember (split_loop s p (S q)) as rhs eqn:Hrhs.
  rewrite split_loop_equation_1.
  destruct (lt_dec q (length s)); [|lia].
  rewrite split_loop_clause_1_equation_1.
  destruct (inspect (splitter_match s q)) as [[e|] He]; [congruence|].
  simp split_loop. rewrite <- split_loop_equation_1. congruence.
Qed.

Lemma split_loop_cut s p q e :
  q < length s -> splitter_match s q = Some e -> p <= q -> e <= length s ->
  split_loop s p q = substring s p q :: split_loop s e e.
Proof.
  intros Hq Hm Hp He. remember (split_loop s e e) as rhs eqn:Hrhs.
  rewrite split_loop_equation_1.
  destruct (lt_dec q (length s)); [|lia].
  rewrite split_loop_clause_1_equation_1.
  destruct (inspect (splitter_match s q)) as [[e'|] He']; [|congruence].
  assert (e' = e) by congruence. subst e'.
  pose proof (splitter_match_advances _ _ Hm).
  simp split_loop.
  destruct (Nat.eq_dec (Nat.min e (length s)) p); [lia|].
  simp split_loop. rewrite <- split_loop_equation_1.
  rewrite Nat.min_l by lia. congruence.
Qed.

(** ** The splitter against the scan of the specification *)

Lemma is_newline_space c : is_newline c = true -> is_space c = true.
Proof.
  unfold is_newline, is_space. intros H. apply N.eqb_eq in H. subst c.
  reflexivity.
Qed.

Lemma is_space_not_period c : is_space c = true -> is_period c = false.
Proof.
  unfold is_period. intros H. destruct (N.eqb_spec c 46) as [->|]; [|reflexivity].
  discriminate H.
Qed.

Lemma run_le f s : run f s <= length s.
Proof. induction s as [|c s IH]; cbn; [lia|]. destruct (f c); cbn; lia. Qed.

Lemma run_prefix f s : Forall (fun c => f c = true) (firstn (run f s) s).
Proof.
  induction s as [|c s IH]; cbn; [constructor|].
  destruct (f c) eqn:Hc; cbn; [constructor; assumption | constructor].
Qed.

Lemma ends_with_period_snoc s c : ends_with_period (s ++ [c]) = is_period c.
Proof. unfold ends_with_period. rewrite rev_app_distr. reflexivity. Qed.

Lemma ends_with_period_run f pre s :
  (forall c, f c = true -> is_period c = false) ->
  0 < run f s ->
  ends_with_period (pre ++ firstn (run f s) s) = false.
Proof.
  intros Hf Hpos. pose proof (run_prefix f s) as Hall.
  destruct (firstn (run f s) s) as [|c l] eqn:E using rev_ind.
  - apply (f_equal (@length _)) in E. rewrite length_firstn in E.
    pose proof (run_le f s). cbn in E. lia.
  - rewrite app_assoc, ends_with_period_snoc.
    apply Forall_app in Hall as [_ Hall]. inversion Hall; subst. auto.
Qed.

Lemma after_period_nth pre rest :
  match length pre with
  | 0 => false
  | S q' => match nth_error (pre ++ rest) q' with
            | Some c => is_period c
            | None => false
            end
  end = ends_with_period pre.
Proof.
  destruct pre as [|a l] using rev_ind; [reflexivity|].
  rewrite ends_with_period_snoc, length_app. cbn [length].
  replace (length l + 1) with (S (length l)) by lia.
  rewrite <- app_assoc. rewrite nth_error_app2 by lia.
  rewrite Nat.sub_diag. reflexivity.
Qed.

Lemma splitter_match_app pre rest :
  splitter_match (pre ++ rest) (length pre)
  = if ends_with_period pre && (0 <? run is_space rest)
    then Some (length pre + run is_space rest)
    else if 0 <? run is_newline rest
    then Some (length pre + run is_newline rest)
    else None.
Proof.
  unfold splitter_match. rewrite after_period_nth.
  rewrite skipn_app, skipn_all, Nat.sub_diag. reflexivity.
Qed.

Lemma skip_spaces b b' r :
  cut_lines_from InSpaces b [] r
  = cut_lines_from InLine b' [] (skipn (run is_space r) r).
Proof.
  revert b. induction r as [|c r IH]; intros b; [reflexivity|]. cbn.
  destruct (is_space c) eqn:Hc; [apply IH|]. cbn. rewrite Hc.
  destruct (is_newline c) eqn:Hn.
  - apply is_newline_space in Hn. congruence.
  - rewrite andb_false_r. reflexivity.
Qed.

Lemma skip_newlines b r :
  cut_lines_from InNewlines b [] r
  = cut_lines_from InLine false [] (skipn (run is_newline r) r).
Proof.
  revert b. induction r as [|c r IH]; intros b; [reflexivity|]. cbn.
  destruct (is_newline c) eqn:Hc; [apply IH|]. cbn. rewrite Hc. reflexivity.
Qed.

Lemma substring_prefix pre rest p :
  p <= length pre ->
  substring (pre ++ rest) p (length pre) = skipn p pre.
Proof.
  intros Hp. unfold substring. rewrite skipn_app.
  replace (p - length pre) with 0 by lia. cbn [skipn].
  rewrite firstn_app, length_skipn.
  replace (length pre - p - (length pre - p)) with 0 by lia.
  cbn [firstn]. rewrite app_nil_r. apply firstn_all2. rewrite length_skipn. lia.
Qed.

Lemma split_loop_scan n :
  forall rest pre p, length rest <= n -> p <= length pre ->
  split_loop (pre ++ rest) p (length pre)
  = cut_lines_from InLine (ends_with_period pre) (skipn p pre) rest.
Proof.
  induction n as [|n IH]; intros rest pre p Hn Hp.
  - destruct rest; [|cbn in Hn; lia].
    rewrite split_loop_done by (rewrite app_nil_r; lia).
    rewrite app_nil_r. cbn. f_equal. unfold substring.
    apply firstn_all2. rewrite length_skipn. lia.
  - destruct rest as [|c r].
    { rewrite split_loop_done by (rewrite app_nil_r; lia).
      rewrite app_nil_r. cbn. f_equal. unfold substring.
      apply firstn_all2. rewrite length_skipn. lia. }
    assert (Hq : length pre < length (pre ++ c :: r))
      by (rewrite length_app; cbn; lia).
    pose proof (splitter_match_app pre (c :: r)) as Hm.
    pose proof (run_le is_space (c :: r)) as Hsp.
    pose proof (run_le is_newline (c :: r)) as Hnl.
    cbn [cut_lines_from].
    destruct (ends_with_period pre && (0 <? run is_space (c :: r))) eqn:Hs.
    + (* a sentence boundary *)
      apply andb_true_iff in Hs as [Hper Hrun]. apply Nat.ltb_lt in Hrun.
      assert (Hc : is_space c = true)
        by (cbn in Hrun; destruct (is_space c); [reflexivity | lia]).
      rewrite Hper, Hc. cbn [andb].
      rewrite (split_loop_cut _ _ _ _ Hq Hm Hp) by (rewrite length_app; lia).
      rewrite substring_prefix by assumption. f_equal.
      set (k := run is_space (c :: r)) in *.
      rewrite <- (firstn_skipn k (c :: r)) at 1. rewrite app_assoc.
      assert (Hlen : length (pre ++ firstn k (c :: r)) = length pre + k)
        by (rewrite length_app, length_firstn; lia).
      rewrite <- Hlen. rewrite IH.
      * rewrite skipn_all. rewrite (skip_spaces false (ends_with_period (pre ++ firstn k (c :: r)))).
        subst k. cbn. rewrite Hc. reflexivity.
      * rewrite length_skipn. cbn [length] in *. lia.
      * lia.
    + destruct (0 <? run is_newline (c :: r)) eqn:Hrun.
      * (* a run of newlines *)
        apply Nat.ltb_lt in Hrun.
        assert (Hc : is_newline c = true)
          by (cbn in Hrun; destruct (is_newline c); [reflexivity | lia]).
        assert (Hs' : ends_with_period pre && is_space c = false).
        { rewrite <- Hs. f_equal. cbn. rewrite (is_newline_space _ Hc).
          reflexivity. }
        rewrite Hs', Hc.
        rewrite (split_loop_cut _ _ _ _ Hq Hm Hp) by (rewrite length_app; lia).
        rewrite substring_prefix by assumption. f_equal.
        set (k := run is_newline (c :: r)) in *.
        rewrite <- (firstn_skipn k (c :: r)) at 1. rewrite app_assoc.
        assert (Hlen : length (pre ++ firstn k (c :: r)) = length pre + k)
          by (rewrite length_app, length_firstn; lia).
        rewrite <- Hlen. rewrite IH.
        -- rewrite skipn_all. subst k.
           rewrite ends_with_period_run; [| | assumption].
           ++ rewrite (skip_newlines false r). cbn. rewrite Hc. reflexivity.
           ++ intros c' Hc'. apply is_space_not_period, is_newline_space, Hc'.
        -- rewrite length_skipn. cbn [length] in *. lia.
        -- lia.
      * (* an ordinary code unit *)
        apply Nat.ltb_ge in Hrun.
        assert (Hc : is_newline c = false)
          by (cbn in Hrun; destruct (is_newline c); [lia | reflexivity]).
        assert (Hs' : ends_with_period pre && is_space c = false).
        { rewrite <- Hs. f_equal. cbn. destruct (is_space c); reflexivity. }
        rewrite Hs', Hc.
        rewrite (split_loop_skip _ p _ Hq Hm).
        replace (pre ++ c :: r) with ((pre ++ [c]) ++ r)
          by (rewrite <- app_assoc; reflexivity).
        replace (S (length pre)) with (length (pre ++ [c]))
          by (rewrite length_app; cbn; lia).
        rewrite IH.
        -- rewrite ends_with_period_snoc. rewrite skipn_app.
           replace (p - length pre) with 0 by lia. reflexivity.
        -- cbn in Hn. lia.
        -- rewrite length_app. lia.
Qed.

(** [split] with the splitter of [harvestTables] cuts a text exactly where
    the specification says. *)
Lemma js_split_cut_lines s : js_split s = cut_lines s.
Proof.
  destruct s as [|c s]; [reflexivity|].
  unfold js_split, cut_lines.
  exact (split_loop_scan _ (c :: s) [] 0 (le_n _) (le_n _)).
Qed.

(** ** [harvestTables] *)

Lemma is_table_line_iff line :
  is_table_line line = true <->
  (exists c, In c line /\ is_digit c = true) /\
  (exists c, In c line /\ (c = 58%N \/ c = 44%N)).
Proof.
  unfold is_table_line. rewrite andb_true_iff, !existsb_exists.
  split; intros [Hd [c [Hin Hc]]]; (split; [exact Hd|]); exists c;
    (split; [exact Hin|]); unfold is_separator in *.
  - apply orb_true_iff in Hc as [Hc|Hc]; apply N.eqb_eq in Hc; auto.
  - apply orb_true_iff. destruct Hc as [->| ->]; auto.
Qed.

Lemma filter_r_pages pages :
  filter_r page_selected (map js_of_page pages)
  = Ok (map js_of_page
          (filter (fun pg => hasTextContent pg && nonempty (text pg)) pages)).
Proof.
  induction pages as [|pg pages IH]; [reflexivity|].
  cbn [map filter_r filter]. rewrite IH.
  destruct pg as [i t h e]. unfold page_selected, js_of_page. cbn.
  destruct h; cbn; [|reflexivity].
  destruct t; reflexivity.
Qed.

Lemma map_r_pages pages :
  map_r page_candidates (map js_of_page pages)
  = Ok (map (fun pg =>
               map (fun line => {| page := VNum (num_of_nat (index pg));
                                   content := line |})
                   (filter is_table_line (cut_lines (text pg))))
            pages).
Proof.
  induction pages as [|pg pages IH]; [reflexivity|].
  cbn [map map_r]. rewrite IH.
  destruct pg as [i t h e]. unfold page_candidates, js_of_page. cbn.
  rewrite js_split_cut_lines. reflexivity.
Qed.

(** C5. On every sequence of Page Results [harvestTables] returns the
    candidates of the specification: only the pages with [hasTextContent]
    true and a non-empty text are considered; each text is cut directly
    after a period followed by white space and at runs of newlines; the
    lines with a digit and a colon or comma, and only those, are kept, one
    candidate per line, tagged with the page's index, in line order within
    page order.
    On the page [{index: 0, hasTextContent: true, text: "Revenue: 100, up
    5%. Notes here."}] the result is the one candidate
    [{page: 0, content: "Revenue: 100, up 5%."}]. *)
Theorem harvestTables_spec :
  (forall pages : list PageResult,
      harvestTables (map js_of_page pages) = Ok (spec_harvest pages))
  /\ (forall line,
        is_table_line line = true <->
        (exists c, In c line /\ is_digit c = true) /\
        (exists c, In c line /\ (c = 58%N \/ c = 44%N)))
  /\ harvestTables
       [js_of_page {| index := 0;
                      text := lit "Revenue: 100, up 5%. Notes here.";
                      hasTextContent := true;
                      error := None |}]
     = Ok [{| page := VNum (S754_zero false);
              content := lit "Revenue: 100, up 5%." |}].
Proof.
  assert (H : forall pages : list PageResult,
             harvestTables (map js_of_page pages) = Ok (spec_harvest pages)).
  { intros pages. unfold harvestTables, spec_harvest.
    rewrite filter_r_pages. cbn [rbind]. rewrite map_r_pages. cbn [rbind].
    rewrite flat_map_concat_map. reflexivity. }
  split; [exact H|]. split; [exact is_table_line_iff|].
  specialize (H [{| index := 0;
                    text := lit "Revenue: 100, up 5%. Notes here.";
                    hasTextContent := true;
                    error := None |}]).
  cbn [map] in H. rewrite H. reflexivity.
Qed.

Lemma filter_r_ok pages :
  Forall (fun pg => page_ok pg = true) pages ->
  exists selected,
    filter_r page_selected pages = Ok selected
    /\ Forall (fun pg => exists props s,
                   pg = VObj props /\ lookup_prop "text" props = VStr s)
              selected.
Proof.
  induction 1 as [|pg pages Hpg _ [selected [Hsel Hall]]].
  - exists []. split; [reflexivity | constructor].
  - cbn [filter_r]. rewrite Hsel.
    destruct pg as [| |b|x|s|props]; try discriminate Hpg;
      try (exists selected; split; [reflexivity | assumption]).
    unfold page_selected. cbn. cbn in Hpg.
    destruct (truthy (lookup_prop "hasTextContent" props)); cbn in *;
      [|exists selected; split; [reflexivity | assumption]].
    destruct (truthy (lookup_prop "text" props)); cbn in *;
      [|exists selected; split; [reflexivity | assumption]].
    exists (VObj props :: selected). split; [reflexivity|].
    constructor; [|assumption].
    destruct (lookup_prop "text" props) eqn:Ht; try discriminate Hpg.
    eauto.
Qed.

Lemma map_r_ok selected :
  Forall (fun pg => exists props s,
              pg = VObj props /\ lookup_prop "text" props = VStr s)
         selected ->
  exists groups, map_r page_candidates selected = Ok groups.
Proof.
  induction 1 as [|pg l [props [s [-> Ht]]] _ [groups Hg]].
  - exists []. reflexivity.
  - cbn [map_r]. rewrite Hg. unfold page_candidates. cbn. rewrite Ht. cbn.
    eexists. reflexivity.
Qed.

Lemma filter_r_none pages :
  Forall (fun pg => exists v,
              get_prop pg "hasTextContent" = Ok v /\ truthy v = false)
         pages ->
  filter_r page_selected pages = Ok [].
Proof.
  induction 1 as [|pg l [v [Hv Hf]] _ IH]; [reflexivity|].
  cbn [filter_r]. rewrite IH. unfold page_selected. rewrite Hv. cbn.
  rewrite Hf. reflexivity.
Qed.

(** C9, as the code has it. [harvestTables] is a function of its argument
    alone. It returns normally on every array whose elements are neither
    [undefined] nor [null] and whose [text] is a string wherever
    [hasTextContent] and [text] are both truthy; and pages whose
    [hasTextContent] is falsy yield no candidates whatever their [text]
    holds. *)
Theorem harvestTables_total_on_ok_pages :
  (forall pages,
      Forall (fun pg => page_ok pg = true) pages ->
      exists candidates, harvestTables pages = Ok candidates)
  /\ (forall pages,
      Forall (fun pg => exists v,
                  get_prop pg "hasTextContent" = Ok v /\ truthy v = false)
             pages ->
      harvestTables pages = Ok []).
Proof.
  split.
  - intros pages Hok. unfold harvestTables.
    destruct (filter_r_ok _ Hok) as [selected [-> Hall]]. cbn [rbind].
    destruct (map_r_ok _ Hall) as [groups ->]. cbn [rbind]. eauto.
  - intros pages Hnone. unfold harvestTables.
    rewrite (filter_r_none _ Hnone). reflexivity.
Qed.

Lemma harvestTables_total_on_ok_pages_witness :
  (exists candidates,
      harvestTables [VObj [("hasTextContent", VBool true);
                           ("text", VStr (lit "a: 1"));
                           ("index", VNum (num_of_nat 3))];
                     VStr (lit "not a page")]
      = Ok candidates)
  /\ harvestTables [VObj [("hasTextContent", VBool false);
                          ("text", VNum (num_of_nat 5))]]
     = Ok [].
Proof.
  split.
  - apply (proj1 harvestTables_total_on_ok_pages).
    repeat constructor.
  - apply (proj2 harvestTables_total_on_ok_pages).
    constructor; [|constructor].
    exists (VBool false). split; reflexivity.
Defined.

(** C9 as stated fails: a page whose [text] is the number 5 makes
    [harvestTables] throw, since numbers have no [split] method. *)
Lemma harvestTables_throws_on_numeric_text :
  harvestTables [numeric_text_page]
  = Throw (JsError (lit "page.text.split is not a function")).
Proof. reflexivity. Qed.

(** ** The page loop of [extractPdfText] *)

Lemma bind_ok {A B} (m : M A) (k : A -> M B) w w' a :
  m w = (w', Ok a) -> bind m k w = k a w'.
Proof. unfold bind. intros ->. reflexivity. Qed.

Lemma bind_throw {A B} (m : M A) (k : A -> M B) w w' e :
  m w = (w', Throw e) -> bind m k w = (w', Throw e).
Proof. unfold bind. intros ->. reflexivity. Qed.

Arguments bind_ok {A B} m k {w w' a} _.
Arguments bind_throw {A B} m k {w w' e} _.

Lemma extend_nil w : extend [] w = w.
Proof. destruct w. unfold extend. cbn. rewrite app_nil_r. reflexivity. Qed.

Lemma extend_app a b w : extend b (extend a w) = extend (a ++ b) w.
Proof. unfold extend. cbn. rewrite app_assoc. reflexivity. Qed.

Lemma count_event_extend f evs w :
  count_event f (extend evs w) = count_event f w + length (filter f evs).
Proof. unfold count_event. cbn. rewrite filter_app, length_app. reflexivity. Qed.

Lemma emit_extend e evs w : emit e (extend evs w) = extend (evs ++ [e]) w.
Proof. unfold emit, extend. cbn. rewrite <- app_assoc. reflexivity. Qed.

Lemma emit_as_extend e w : emit e w = extend [e] w.
Proof. reflexivity. Qed.

Lemma page_trace_no_progress pdf i : filter is_progress (page_trace pdf i) = [].
Proof. unfold page_trace. destruct (page_outcome pdf i); reflexivity. Qed.

Lemma try_page_run pdf acc i w :
  try_catch (pg <- read_page pdf i ;; ret (acc ++ [pg]))
            (fun err => pg <- failed_page i err ;; ret (acc ++ [pg])) w
  = (extend (page_trace pdf i) w, Ok (acc ++ [page_result pdf i])).
Proof.
  unfold try_catch, read_page, failed_page, bind, tell, lift, ret,
    page_trace, page_result, page_outcome.
  destruct (getPage pdf i) as [pg|e]; cbn.
  - destruct (getTextContent pg) as [items|e]; cbn.
    + reflexivity.
    + rewrite (emit_as_extend (EvGetPage i)), emit_extend. reflexivity.
  - rewrite (emit_as_extend (EvGetPage i)), emit_extend. reflexivity.
Qed.

Lemma page_step_run pdf cb total acc i w :
  page_step pdf cb total acc i w
  = (extend (turn_trace pdf cb total i) w,
     match call_result cb (count_event is_progress w) (progress_percent i total) with
     | Some e => Throw e
     | None => Ok (acc ++ [page_result pdf i])
     end).
Proof.
  unfold page_step. rewrite (bind_ok _ _ (try_page_run pdf acc i w)).
  unfold report_progress, turn_trace, call_result, bind.
  destruct cb as [f|].
  - rewrite count_event_extend, page_trace_no_progress. cbn [length].
    rewrite Nat.add_0_r. rewrite emit_extend.
    destruct (f _ _); reflexivity.
  - unfold ret. rewrite app_nil_r. reflexivity.
Qed.

Lemma turn_trace_progress pdf cb total i :
  length (filter is_progress (turn_trace pdf cb total i))
  = match cb with Some _ => 1 | None => 0 end.
Proof.
  unfold turn_trace. rewrite filter_app, page_trace_no_progress.
  destruct cb; reflexivity.
Qed.


Lemma quiet_cons cb total c0 i idxs :
  quiet cb total c0 (i :: idxs) ->
  call_result cb c0 (progress_percent i total) = None
  /\ quiet cb total (S c0) idxs.
Proof.
  intros Hq. split.
  - specialize (Hq 0 i eq_refl). rewrite Nat.add_0_r in Hq. exact Hq.
  - intros j k Hj. specialize (Hq (S j) k Hj).
    rewrite Nat.add_succ_r in Hq. exact Hq.
Qed.

Lemma quiet_none total c0 idxs : quiet None total c0 idxs.
Proof. intros j k _. reflexivity. Qed.

(** The loop when the callback returns normally at every turn: one Page
    Result per index, and the events of every turn. *)
Lemma page_loop_quiet pdf cb total idxs :
  forall acc w,
    quiet cb total (count_event is_progress w) idxs ->
    page_loop pdf cb total idxs acc w
    = (extend (flat_map (turn_trace pdf cb total) idxs) w,
       Ok (acc ++ map (page_result pdf) idxs)).
Proof.
  induction idxs as [|i idxs IH]; intros acc w Hq.
  - cbn. rewrite extend_nil, app_nil_r. reflexivity.
  - apply quiet_cons in Hq as [Hcall Hq].
    cbn [page_loop flat_map map].
    pose proof (page_step_run pdf cb total acc i w) as Hstep.
    rewrite Hcall in Hstep. rewrite (bind_ok _ _ Hstep).
    rewrite IH.
    + rewrite extend_app, <- app_assoc. reflexivity.
    + rewrite count_event_extend, turn_trace_progress.
      destruct cb; [|apply quiet_none].
      rewrite Nat.add_1_r. exact Hq.
Qed.

(** The loop when the callback throws at some turn: the exception leaves
    the loop, and nothing after that turn happens. *)
Lemma page_loop_throws pdf cb total pre k post e :
  forall acc w,
    quiet cb total (count_event is_progress w) pre ->
    call_result cb (count_event is_progress w + length pre)
                (progress_percent k total) = Some e ->
    page_loop pdf cb total (pre ++ k :: post) acc w
    = (extend (flat_map (turn_trace pdf cb total) pre
               ++ turn_trace pdf cb total k) w,
       Throw e).
Proof.
  induction pre as [|i pre IH]; intros acc w Hq He.
  - cbn [app page_loop flat_map length] in *. rewrite Nat.add_0_r in He.
    pose proof (page_step_run pdf cb total acc k w) as Hstep.
    rewrite He in Hstep. rewrite (bind_throw _ _ Hstep). reflexivity.
  - apply quiet_cons in Hq as [Hcall Hq].
    cbn [app page_loop flat_map length] in *.
    pose proof (page_step_run pdf cb total acc i w) as Hstep.
    rewrite Hcall in Hstep. rewrite (bind_ok _ _ Hstep).
    assert (Hc : count_event is_progress (extend (turn_trace pdf cb total i) w)
                 = S (count_event is_progress w)).
    { rewrite count_event_extend, turn_trace_progress.
      destruct cb; [lia | discriminate He]. }
    rewrite IH.
    + rewrite extend_app, <- app_assoc. reflexivity.
    + rewrite Hc. exact Hq.
    + rewrite Hc. rewrite <- He. f_equal. lia.
Qed.

(** Whatever the callback does, a loop that ends normally has pushed one
    Page Result per index. *)
Lemma page_loop_result pdf cb total idxs :
  forall acc w w' pgs,
    page_loop pdf cb total idxs acc w = (w', Ok pgs) ->
    pgs = acc ++ map (page_result pdf) idxs.
Proof.
  induction idxs as [|i idxs IH]; intros acc w w' pgs Hrun.
  - cbn in Hrun. injection Hrun as _ <-. rewrite app_nil_r. reflexivity.
  - cbn [page_loop] in Hrun. unfold bind in Hrun.
    rewrite page_step_run in Hrun.
    destruct (call_result cb _ _); [discriminate Hrun|].
    apply IH in Hrun. rewrite Hrun, <- app_assoc. reflexivity.
Qed.

(** ** From the loop to the Document Result *)

Lemma read_metadata_run pdf w :
  exists titleMeta,
    read_metadata pdf w = (extend [EvGetMetadata] w, Ok titleMeta)
    /\ info_field Title titleMeta = metadata_field Title pdf
    /\ info_field Author titleMeta = metadata_field Author pdf.
Proof.
  unfold read_metadata, bind, tell, ret, metadata_field.
  eexists. split; [reflexivity|].
  destruct (getMetadata pdf) as [[meta|]|e]; split; reflexivity.
Qed.

Lemma extract_tail_run pdf file pgs w :
  (titleMeta <- read_metadata pdf ;;
   let ttl := or_else (info_field Title titleMeta)
                      (strip_pdf_extension (file_name file)) in
   tell EvCleanup ;;
   ret {| title := ttl;
          author := or_else (info_field Author titleMeta) (lit "Unknown author");
          totalPages := numPages pdf;
          pages := pgs;
          rawSize := file_size file;
          lastModified := file_lastModified file |}) w
  = (extend [EvGetMetadata; EvCleanup] w,
     Ok {| title := title (document_result pdf file);
           author := author (document_result pdf file);
           totalPages := numPages pdf;
           pages := pgs;
           rawSize := file_size file;
           lastModified := file_lastModified file |}).
Proof.
  destruct (read_metadata_run pdf w) as [titleMeta [Hrun [Htitle Hauthor]]].
  rewrite (bind_ok _ _ Hrun). cbn zeta.
  unfold bind, tell, ret. rewrite emit_extend, Htitle, Hauthor. reflexivity.
Qed.

Lemma extract_from_result pdf file cb w w' r :
  extract_from pdf file cb w = (w', Ok r) -> r = document_result pdf file.
Proof.
  unfold extract_from. cbn zeta. unfold bind at 1.
  destruct (page_loop pdf cb (numPages pdf) (seq 1 (numPages pdf)) [] w)
    as [w1 [pgs|e]] eqn:Hloop; [|discriminate].
  apply page_loop_result in Hloop. cbn [app] in Hloop. subst pgs.
  rewrite extract_tail_run. intros [= _ <-]. reflexivity.
Qed.

Lemma extract_from_quiet pdf file cb w :
  quiet cb (numPages pdf) (count_event is_progress w) (seq 1 (numPages pdf)) ->
  extract_from pdf file cb w
  = (extend (extraction_trace pdf cb) w, Ok (document_result pdf file)).
Proof.
  intros Hq. unfold extract_from. cbn zeta.
  rewrite (bind_ok _ _ (page_loop_quiet pdf cb _ _ [] w Hq)).
  rewrite extract_tail_run, extend_app. reflexivity.
Qed.

Lemma extractPdfText_inv env file cb w w' r :
  extractPdfText env file cb w = (w', Ok r) ->
  exists w1 pdf,
    open_phase env file w = (w1, Ok pdf)
    /\ extract_from pdf file cb w1 = (w', Ok r).
Proof.
  unfold extractPdfText. unfold bind at 1.
  destruct (open_phase env file w) as [w1 [pdf|e]]; [|discriminate].
  intros H. eauto.
Qed.

Lemma nonempty_iff (s : jsstring) : nonempty s = true <-> s <> [].
Proof. destruct s; cbn; split; congruence. Qed.

Lemma page_result_index pdf k : index (page_result pdf k) = k - 1.
Proof. unfold page_result. destruct (page_outcome pdf k); reflexivity. Qed.

Lemma page_result_text_flag pdf k :
  hasTextContent (page_result pdf k) = true <-> text (page_result pdf k) <> [].
Proof.
  unfold page_result. destruct (page_outcome pdf k); cbn.
  - apply nonempty_iff.
  - split; congruence.
Qed.

(** C1. When [extractPdfText] returns a result for a document, the result
    has exactly as many Page Results as the document has pages, which is
    [totalPages]; the Page Result at position [i] has index [i]; and
    [hasTextContent] holds exactly of the Page Results whose text is not
    empty. *)
Theorem pages_invariant env file cb w w' r :
  extractPdfText env file cb w = (w', Ok r) ->
  (exists w1 pdf,
      open_phase env file w = (w1, Ok pdf) /\ totalPages r = numPages pdf)
  /\ length (pages r) = totalPages r
  /\ (forall i pg, nth_error (pages r) i = Some pg -> index pg = i)
  /\ (forall pg, In pg (pages r) ->
                 hasTextContent pg = true <-> text pg <> []).
Proof.
  intros Hrun.
  destruct (extractPdfText_inv _ _ _ _ _ _ Hrun) as [w1 [pdf [Hopen Hfrom]]].
  apply extract_from_result in Hfrom. subst r. cbn [pages totalPages document_result].
  split; [eauto|]. split; [|split].
  - rewrite length_map, length_seq. reflexivity.
  - intros i pg Hnth. rewrite nth_error_map in Hnth.
    destruct (nth_error (seq 1 (numPages pdf)) i) as [k|] eqn:Hk; [|discriminate].
    injection Hnth as <-.
    assert (Hlt : i < numPages pdf).
    { assert (Hi : i < length (seq 1 (numPages pdf)))
        by (apply nth_error_Some; congruence).
      rewrite length_seq in Hi. exact Hi. }
    rewrite nth_error_seq in Hk.
    destruct (Nat.ltb_spec i (numPages pdf)); [|lia].
    injection Hk as <-. rewrite page_result_index. lia.
  - intros pg Hin. apply in_map_iff in Hin as [k [<- _]].
    apply page_result_text_flag.
Qed.

Lemma pages_invariant_witness :
  (exists w1 pdf,
      open_phase (env_opening sample_pdf) sample_file sample_world = (w1, Ok pdf)
      /\ totalPages (document_result sample_pdf sample_file) = numPages pdf)
  /\ length (pages (document_result sample_pdf sample_file))
     = totalPages (document_result sample_pdf sample_file)
  /\ (forall i pg,
         nth_error (pages (document_result sample_pdf sample_file)) i = Some pg ->
         index pg = i)
  /\ (forall pg, In pg (pages (document_result sample_pdf sample_file)) ->
                 hasTextContent pg = true <-> text pg <> []).
Proof.
  apply (pages_invariant (env_opening sample_pdf) sample_file None sample_world
           (extend [EvArrayBuffer; EvGetDocument; EvGetPage 1; EvGetPage 2;
                    EvWarn (lit "Failed to parse page");
                    EvGetMetadata; EvCleanup] sample_world)).
  vm_compute. reflexivity.
Defined.

Lemma never_throws_quiet cb total c0 idxs :
  never_throws cb -> quiet cb total c0 idxs.
Proof. intros H j k _. apply H. Qed.

Lemma extractPdfText_opened env file cb w w1 pdf :
  open_phase env file w = (w1, Ok pdf) ->
  extractPdfText env file cb w = extract_from pdf file cb w1.
Proof. intros H. unfold extractPdfText, bind. rewrite H. reflexivity. Qed.

Lemma extractPdfText_quiet env file cb w w1 pdf :
  open_phase env file w = (w1, Ok pdf) ->
  never_throws cb ->
  extractPdfText env file cb w
  = (extend (extraction_trace pdf cb) w1, Ok (document_result pdf file)).
Proof.
  intros Hopen Hcb. rewrite (extractPdfText_opened _ _ cb _ _ _ Hopen).
  apply extract_from_quiet, never_throws_quiet, Hcb.
Qed.

Lemma nth_error_pages pdf file k :
  1 <= k <= numPages pdf ->
  nth_error (pages (document_result pdf file)) (k - 1)
  = Some (page_result pdf k).
Proof.
  intros Hk. cbn [pages document_result].
  rewrite nth_error_map, nth_error_seq.
  destruct (Nat.ltb_spec (k - 1) (numPages pdf)); [|lia].
  cbn. do 2 f_equal. lia.
Qed.

Lemma getPage_logged pdf cb total j idxs :
  In j idxs -> In (EvGetPage j) (flat_map (turn_trace pdf cb total) idxs).
Proof.
  intros Hin. apply in_flat_map. exists j. split; [exact Hin|].
  unfold turn_trace, page_trace. left. reflexivity.
Qed.

(** C2, as the code has it. When the retrieval of a page's text throws and
    the progress callback does not, the extraction still returns a result
    with one Page Result per page; the failed page's has an empty text,
    [hasTextContent] false, and as [error] the message of the thrown
    [Error] (which may be empty) or ["Unknown parsing error"] for any other
    thrown value; and every later page is requested and recorded. *)
Theorem page_failure_is_recorded env file cb w w1 pdf k err :
  open_phase env file w = (w1, Ok pdf) ->
  never_throws cb ->
  1 <= k <= numPages pdf ->
  page_outcome pdf k = Throw err ->
  exists w' r,
    extractPdfText env file cb w = (w', Ok r)
    /\ length (pages r) = numPages pdf
    /\ nth_error (pages r) (k - 1)
       = Some {| index := k - 1;
                 text := [];
                 hasTextContent := false;
                 error := Some (recorded_error err) |}
    /\ (forall j, k < j <= numPages pdf ->
          In (EvGetPage j) (log w')
          /\ nth_error (pages r) (j - 1) = Some (page_result pdf j)).
Proof.
  intros Hopen Hcb Hk Herr.
  exists (extend (extraction_trace pdf cb) w1), (document_result pdf file).
  split; [apply (extractPdfText_quiet _ _ _ _ _ _ Hopen Hcb)|].
  split; [cbn; rewrite length_map, length_seq; reflexivity|].
  split.
  - rewrite nth_error_pages by assumption.
    unfold page_result. rewrite Herr. reflexivity.
  - intros j Hj. split.
    + cbn [log extend]. apply in_or_app. right.
      unfold extraction_trace. apply in_or_app. left.
      apply getPage_logged, in_seq. lia.
    + apply nth_error_pages. lia.
Qed.

Lemma page_failure_is_recorded_witness :
  exists w' r,
    extractPdfText (env_opening sample_pdf) sample_file (Some silent_callback)
                   sample_world = (w', Ok r)
    /\ length (pages r) = numPages sample_pdf
    /\ nth_error (pages r) (2 - 1)
       = Some {| index := 2 - 1;
                 text := [];
                 hasTextContent := false;
                 error := Some (recorded_error (JsError [])) |}
    /\ (forall j, 2 < j <= numPages sample_pdf ->
          In (EvGetPage j) (log w')
          /\ nth_error (pages r) (j - 1) = Some (page_result sample_pdf j)).
Proof.
  apply (page_failure_is_recorded (env_opening sample_pdf) sample_file
           (Some silent_callback) sample_world
           (extend [EvArrayBuffer; EvGetDocument] sample_world)
           sample_pdf 2 (JsError [])).
  - reflexivity.
  - intros n v. reflexivity.
  - cbn. lia.
  - reflexivity.
Defined.

(** C2 as stated fails: when the thrown [Error] has an empty message, the
    [error] of the recorded Page Result is the empty string. *)
Lemma page_failure_error_can_be_empty :
  page_outcome sample_pdf 2 = Throw (JsError [])
  /\ exists w' r,
      extractPdfText (env_opening sample_pdf) sample_file None sample_world
      = (w', Ok r)
      /\ nth_error (pages r) 1
         = Some {| index := 1; text := []; hasTextContent := false;
                   error := Some [] |}.
Proof.
  split; [reflexivity|].
  eexists. eexists. split; [vm_compute; reflexivity|]. reflexivity.
Qed.

Lemma seq_split_at k n :
  1 <= k <= n -> seq 1 n = seq 1 (k - 1) ++ k :: seq (S k) (n - k).
Proof.
  intros Hk. replace n with ((k - 1) + S (n - k)) at 1 by lia.
  rewrite seq_app. cbn [seq]. replace (1 + (k - 1)) with k by lia.
  reflexivity.
Qed.

Lemma turn_trace_events pdf cb total i ev :
  In ev (turn_trace pdf cb total i) ->
  ev = EvGetPage i
  \/ ev = EvWarn (lit "Failed to parse page")
  \/ ev = EvProgress (progress_percent i total).
Proof.
  unfold turn_trace, page_trace. intros Hin.
  apply in_app_or in Hin as [[<-|Hin]|Hin]; [auto| |].
  - destruct (page_outcome pdf i); [destruct Hin|].
    destruct Hin as [<-|[]]. auto.
  - destruct cb; [|destruct Hin]. destruct Hin as [<-|[]]. auto.
Qed.

(** C10. When the [onProgress] callback throws at some page, having
    returned normally at the pages before, [extractPdfText] ends with that
    exception and no Document Result; after the opening of the document
    nothing is logged but the turns of the loop up to that page: no later
    page is requested and the session's [cleanup] is not called. *)
Theorem callback_exception_propagates env file callback w w1 pdf k e :
  open_phase env file w = (w1, Ok pdf) ->
  1 <= k <= numPages pdf ->
  (forall j, 1 <= j < k ->
     callback (count_event is_progress w1 + (j - 1))
              (progress_percent j (numPages pdf)) = None) ->
  callback (count_event is_progress w1 + (k - 1))
           (progress_percent k (numPages pdf)) = Some e ->
  exists evs,
    extractPdfText env file (Some callback) w = (extend evs w1, Throw e)
    /\ evs = flat_map (turn_trace pdf (Some callback) (numPages pdf)) (seq 1 k)
    /\ (forall j, In (EvGetPage j) evs -> j <= k)
    /\ ~ In EvCleanup evs.
Proof.
  intros Hopen Hk Hbefore Hthrow.
  exists (flat_map (turn_trace pdf (Some callback) (numPages pdf)) (seq 1 k)).
  split; [|split; [reflexivity|split]].
  - rewrite (extractPdfText_opened _ _ _ _ _ _ Hopen).
    unfold extract_from. cbn zeta.
    rewrite (seq_split_at k (numPages pdf) Hk).
    erewrite bind_throw; [reflexivity|].
    rewrite (page_loop_throws pdf (Some callback) (numPages pdf)
               (seq 1 (k - 1)) k (seq (S k) (numPages pdf - k)) e).
    + f_equal. f_equal.
      replace k with ((k - 1) + 1) at 3 by lia.
      rewrite seq_app, flat_map_app. cbn [seq flat_map].
      rewrite app_nil_r. replace (1 + (k - 1)) with k by lia. reflexivity.
    + intros j i Hnth. cbn [call_result].
      assert (Hj : j < length (seq 1 (k - 1)))
        by (apply nth_error_Some; congruence).
      rewrite length_seq in Hj.
      rewrite nth_error_seq in Hnth.
      destruct (Nat.ltb_spec j (k - 1)); [|lia]. injection Hnth as <-.
      specialize (Hbefore (1 + j)). replace (1 + j - 1) with j in Hbefore by lia.
      apply Hbefore. lia.
    + rewrite length_seq. exact Hthrow.
  - intros j Hin. apply in_flat_map in Hin as [i [Hi Hin]].
    apply in_seq in Hi. apply turn_trace_events in Hin.
    destruct Hin as [Heq|[Heq|Heq]]; try discriminate Heq.
    injection Heq as ->. lia.
  - intros Hin. apply in_flat_map in Hin as [i [_ Hin]].
    apply turn_trace_events in Hin.
    destruct Hin as [Heq|[Heq|Heq]]; discriminate Heq.
Qed.

(** A callback that throws at its second call. *)
Lemma callback_exception_propagates_witness :
  exists evs,
    extractPdfText (env_opening (blank_pdf 3)) sample_file
      (Some (fun calls_before _ =>
               match calls_before with
               | 1 => Some (JsThrown (lit "stop"))
               | _ => None
               end))
      sample_world
    = (extend evs (extend [EvArrayBuffer; EvGetDocument] sample_world),
       Throw (JsThrown (lit "stop")))
    /\ evs = flat_map (turn_trace (blank_pdf 3)
                         (Some (fun calls_before _ =>
                                  match calls_before with
                                  | 1 => Some (JsThrown (lit "stop"))
                                  | _ => None
                                  end))
                         (numPages (blank_pdf 3)))
                      (seq 1 2)
    /\ (forall j, In (EvGetPage j) evs -> j <= 2)
    /\ ~ In EvCleanup evs.
Proof.
  apply (callback_exception_propagates (env_opening (blank_pdf 3)) sample_file
           (fun calls_before _ =>
              match calls_before with
              | 1 => Some (JsThrown (lit "stop"))
              | _ => None
              end)
           sample_world (extend [EvArrayBuffer; EvGetDocument] sample_world)
           (blank_pdf 3) 2 (JsThrown (lit "stop"))).
  - reflexivity.
  - cbn. lia.
  - intros j Hj. assert (j = 1) as -> by lia. reflexivity.
  - reflexivity.
Defined.

(** ** Title and author *)

Lemma canonicalize_matches p c :
  In p (lit ".pdf") ->
  (canonicalize p =? canonicalize c)%N = (ascii_lower c =? p)%N.
Proof.
  intros Hp.
  assert (Hcases : p = 46%N \/ p = 112%N \/ p = 100%N \/ p = 102%N).
  { vm_compute in Hp. intuition congruence. }
  destruct Hcases as [-> | [-> | [-> | -> ]]];
    [ change (canonicalize 46%N) with 46%N
    | change (canonicalize 112%N) with 80%N
    | change (canonicalize 100%N) with 68%N
    | change (canonicalize 102%N) with 70%N ];
    unfold canonicalize, ascii_lower;
    destruct (N.leb_spec 97 c), (N.leb_spec c 122), (N.leb_spec 65 c),
      (N.leb_spec c 90); cbn [andb];
    apply eq_true_iff_eq; rewrite !N.eqb_eq; lia.
Qed.

Lemma matches_pdf_extension ext :
  length ext = 4 ->
  matches_here_ci (lit ".pdf") ext = is_pdf_extension ext.
Proof.
  intros Hlen.
  destruct ext as [|c1 [|c2 [|c3 [|c4 [|c5 rest]]]]]; try discriminate Hlen.
  unfold is_pdf_extension, jsstring_eqb.
  change (lit ".pdf") with [46; 112; 100; 102]%N.
  cbn [matches_here_ci map].
  rewrite !canonicalize_matches by (vm_compute; tauto).
  destruct (list_eq_dec _ _ _) as [Heq|Hne].
  - injection Heq as -> -> -> ->. reflexivity.
  - destruct (N.eqb_spec (ascii_lower c1) 46), (N.eqb_spec (ascii_lower c2) 112),
      (N.eqb_spec (ascii_lower c3) 100), (N.eqb_spec (ascii_lower c4) 102);
      cbn; try reflexivity.
    exfalso. apply Hne.
    repeat match goal with H : ascii_lower _ = _ |- _ => rewrite H; clear H end.
    reflexivity.
Qed.

(** The regular expression strips exactly a trailing [.pdf] in any case. *)
Lemma strip_pdf_extension_spec :
  (forall stem ext,
      is_pdf_extension ext = true -> strip_pdf_extension (stem ++ ext) = stem)
  /\ (forall name,
      is_pdf_extension (skipn (length name - 4) name) = false ->
      strip_pdf_extension name = name).
Proof.
  split.
  - intros stem ext Hext.
    assert (Hlen : length ext = 4).
    { unfold is_pdf_extension, jsstring_eqb in Hext.
      destruct (list_eq_dec _ _ _) as [Heq|]; [|discriminate].
      apply (f_equal (@length _)) in Heq. rewrite length_map in Heq. exact Heq. }
    unfold strip_pdf_extension. rewrite length_app, Hlen.
    replace (length stem + 4 - 4) with (length stem) by lia.
    rewrite skipn_app, skipn_all, Nat.sub_diag. cbn [skipn app].
    rewrite matches_pdf_extension, Hext by assumption.
    destruct (Nat.leb_spec 4 (length stem + 4)); [|lia]. cbn [andb].
    rewrite firstn_app, firstn_all, Nat.sub_diag. cbn. apply app_nil_r.
  - intros name Hext. unfold strip_pdf_extension.
    destruct (Nat.leb_spec 4 (length name)); [|reflexivity]. cbn [andb].
    rewrite matches_pdf_extension, Hext; [reflexivity|].
    rewrite length_skipn. lia.
Qed.

(** C4, as the code has it. In every extraction result the title is the
    metadata title when that is present and not empty, and otherwise the
    file's name without a trailing [.pdf] in any case; the author is the
    metadata author when that is present and not empty, and otherwise
    ["Unknown author"]. The file name [Report.PDF] without metadata title
    gives the title [Report]. *)
Theorem title_and_author env file cb w w' r :
  extractPdfText env file cb w = (w', Ok r) ->
  exists w1 pdf,
    open_phase env file w = (w1, Ok pdf)
    /\ (forall t, metadata_field Title pdf = Some t -> t <> [] -> title r = t)
    /\ (metadata_field Title pdf = None \/ metadata_field Title pdf = Some [] ->
        title r = strip_pdf_extension (file_name file)
        /\ (forall stem ext, file_name file = stem ++ ext ->
                             is_pdf_extension ext = true -> title r = stem)
        /\ (is_pdf_extension
              (skipn (length (file_name file) - 4) (file_name file)) = false ->
            title r = file_name file)
        /\ (file_name file = lit "Report.PDF" -> title r = lit "Report"))
    /\ (forall a, metadata_field Author pdf = Some a -> a <> [] -> author r = a)
    /\ (metadata_field Author pdf = None \/ metadata_field Author pdf = Some [] ->
        author r = lit "Unknown author").
Proof.
  intros Hrun.
  destruct (extractPdfText_inv _ _ _ _ _ _ Hrun) as [w1 [pdf [Hopen Hfrom]]].
  apply extract_from_result in Hfrom. subst r.
  exists w1, pdf. split; [exact Hopen|].
  cbn [title author document_result].
  destruct strip_pdf_extension_spec as [Hstrip Hkeep].
  repeat split.
  - intros t -> Ht. cbn. destruct t; [congruence | reflexivity].
  - destruct H as [-> | ->]; reflexivity.
  - intros stem ext Hname Hext.
    rewrite Hname, Hstrip by assumption. destruct H as [-> | ->]; reflexivity.
  - intros Hext. rewrite Hkeep by assumption. destruct H as [-> | ->]; reflexivity.
  - intros Hname. rewrite Hname. destruct H as [-> | ->]; reflexivity.
  - intros a -> Ha. cbn. destruct a; [congruence | reflexivity].
  - intros [-> | ->]; reflexivity.
Qed.

Lemma title_and_author_witness :
  exists w1 pdf,
    open_phase (env_opening sample_pdf) sample_file sample_world = (w1, Ok pdf)
    /\ (forall t, metadata_field Title pdf = Some t -> t <> [] ->
                  title (document_result sample_pdf sample_file) = t)
    /\ (metadata_field Title pdf = None \/ metadata_field Title pdf = Some [] ->
        title (document_result sample_pdf sample_file)
        = strip_pdf_extension (file_name sample_file)
        /\ (forall stem ext, file_name sample_file = stem ++ ext ->
                             is_pdf_extension ext = true ->
                             title (document_result sample_pdf sample_file) = stem)
        /\ (is_pdf_extension
              (skipn (length (file_name sample_file) - 4) (file_name sample_file))
            = false ->
            title (document_result sample_pdf sample_file) = file_name sample_file)
        /\ (file_name sample_file = lit "Report.PDF" ->
            title (document_result sample_pdf sample_file) = lit "Report"))
    /\ (forall a, metadata_field Author pdf = Some a -> a <> [] ->
                  author (document_result sample_pdf sample_file) = a)
    /\ (metadata_field Author pdf = None \/ metadata_field Author pdf = Some [] ->
        author (document_result sample_pdf sample_file) = lit "Unknown author").
Proof.
  apply (title_and_author (env_opening sample_pdf) sample_file None sample_world
           (extend [EvArrayBuffer; EvGetDocument; EvGetPage 1; EvGetPage 2;
                    EvWarn (lit "Failed to parse page");
                    EvGetMetadata; EvCleanup] sample_world)).
  vm_compute. reflexivity.
Defined.

(** C4 as stated fails for the author: a metadata author that is present
    but empty is replaced by ["Unknown author"]. *)
Lemma empty_author_is_replaced :
  metadata_field Author sample_pdf = Some []
  /\ exists w' r,
      extractPdfText (env_opening sample_pdf) sample_file None sample_world
      = (w', Ok r)
      /\ author r = lit "Unknown author"
      /\ author r <> [].
Proof.
  split; [reflexivity|].
  eexists. eexists. split; [vm_compute; reflexivity|].
  split; [reflexivity | discriminate].
Qed.

(** ** Opening the document *)

Lemma count_event_emit f e w :
  count_event f (emit e w) = count_event f w + (if f e then 1 else 0).
Proof.
  rewrite emit_as_extend, count_event_extend. cbn. destruct (f e); reflexivity.
Qed.

Lemma open_with_retry_run env data w lib err :
  pdfjsLib (win w) = Some lib ->
  getDocument env data (count_event is_getDocument w) lib = Throw err ->
  exists w2,
    open_with_retry env data w
    = (w2, if workerFailed (error_message err)
           then getDocument env data (S (count_event is_getDocument w))
                            (retry_library lib)
           else Throw err)
    /\ pdfjsLib (win w2)
       = Some (if workerFailed (error_message err) then retry_library lib else lib)
    /\ pdfWorkerBlobUrl (win w2) = pdfWorkerBlobUrl (win w)
    /\ count_event is_getDocument w2
       = count_event is_getDocument w
         + (if workerFailed (error_message err) then 2 else 1).
Proof.
  intros Hlib Hfirst.
  unfold open_with_retry, try_catch. unfold open_document at 1.
  rewrite Hlib, Hfirst.
  destruct (workerFailed (error_message err)) eqn:Hwf; cbn [negb].
  - unfold bind, tell, disable_worker_if_boolean, open_document.
    cbn [win emit]. rewrite Hlib. unfold retry_library.
    destruct (disableWorker lib) as [b|] eqn:Hdw.
    + cbn [win set_window pdfjsLib]. eexists. split; [|split; [|split]].
      * f_equal. unfold count_event. cbn [log emit set_window].
        rewrite !filter_app, !length_app. cbn.
        rewrite Nat.add_0_r, Nat.add_1_r. reflexivity.
      * reflexivity.
      * reflexivity.
      * unfold count_event. cbn [log emit set_window].
        rewrite !filter_app, !length_app. cbn. lia.
    + cbn [win emit]. rewrite Hlib. eexists. split; [|split; [|split]].
      * f_equal. unfold count_event. cbn [log emit].
        rewrite !filter_app, !length_app. cbn.
        rewrite Nat.add_0_r, Nat.add_1_r.
        destruct lib; cbn in *; subst; reflexivity.
      * cbn. rewrite Hlib. destruct lib; cbn in *; subst; reflexivity.
      * reflexivity.
      * unfold count_event. cbn [log emit].
        rewrite !filter_app, !length_app. cbn. lia.
  - unfold throw. eexists. split; [reflexivity|].
    split; [exact Hlib|]. split; [reflexivity|].
    rewrite count_event_emit. reflexivity.
Qed.

Lemma open_phase_run env file w w1 data :
  pdfjsLib (win w) <> None ->
  ensurePdfWorker env w = (w1, Ok tt) ->
  file_arrayBuffer file = Ok data ->
  open_phase env file w = open_with_retry env data (emit EvArrayBuffer w1).
Proof.
  intros Hlib Hworker Hdata. unfold open_phase.
  unfold bind at 1. destruct (pdfjsLib (win w)); [|congruence].
  unfold bind at 1. rewrite Hworker.
  unfold bind at 1. unfold tell.
  unfold bind at 1. unfold lift. rewrite Hdata. reflexivity.
Qed.

(** C6, as the code has it. When the first opening fails with a message
    that matches one of the two worker patterns, [extractPdfText] sets
    [disableWorker] to true if the library has it as a boolean (and leaves
    the library as it is otherwise) and opens once more, the outcome of that
    second opening being the outcome of the opening as a whole, so that its
    failure reaches the caller; when the message matches neither pattern,
    the failure reaches the caller after that one opening, the library
    untouched. *)
Theorem worker_failure_retry env file cb w w1 data lib err :
  pdfjsLib (win w) <> None ->
  ensurePdfWorker env w = (w1, Ok tt) ->
  file_arrayBuffer file = Ok data ->
  pdfjsLib (win w1) = Some lib ->
  getDocument env data (count_event is_getDocument w1) lib = Throw err ->
  (workerFailed (error_message err) = true ->
   exists w2,
     open_phase env file w
     = (w2, getDocument env data (S (count_event is_getDocument w1))
                        (retry_library lib))
     /\ pdfjsLib (win w2) = Some (retry_library lib)
     /\ count_event is_getDocument w2 = count_event is_getDocument w1 + 2
     /\ forall err2,
         getDocument env data (S (count_event is_getDocument w1))
                     (retry_library lib) = Throw err2 ->
         extractPdfText env file cb w = (w2, Throw err2))
  /\ (workerFailed (error_message err) = false ->
      exists w2,
        extractPdfText env file cb w = (w2, Throw err)
        /\ pdfjsLib (win w2) = Some lib
        /\ count_event is_getDocument w2 = count_event is_getDocument w1 + 1).
Proof.
  intros Hlib Hworker Hdata Hlib1 Hfirst.
  pose proof (open_phase_run env file w w1 data Hlib Hworker Hdata) as Hphase.
  destruct (open_with_retry_run env data (emit EvArrayBuffer w1) lib err)
    as [w2 [Hrun [Hlib2 [_ Hcount]]]].
  { exact Hlib1. }
  { rewrite count_event_emit. cbn. rewrite Nat.add_0_r. exact Hfirst. }
  rewrite count_event_emit in Hrun, Hcount. cbn [is_getDocument] in Hrun, Hcount.
  rewrite Nat.add_0_r in Hrun, Hcount.
  split; intros Hwf; rewrite Hwf in *; exists w2.
  - split; [congruence|]. split; [exact Hlib2|]. split; [exact Hcount|].
    intros err2 Hsecond. unfold extractPdfText, bind.
    rewrite Hphase, Hrun, Hsecond. reflexivity.
  - split; [|split; assumption].
    unfold extractPdfText, bind. rewrite Hphase, Hrun. reflexivity.
Qed.

Lemma worker_failure_retry_witness :
  exists w2,
    open_phase env_failing_worker sample_file
               {| win := {| pdfjsLib := Some {| GlobalWorkerOptions := Some (Some (lit "w.js"));
                                                disableWorker := Some false |};
                            pdfWorkerBlobUrl := None |};
                  pdfWorkerReadyPromise := None;
                  log := [] |}
    = (w2, Ok (blank_pdf 1))
    /\ pdfjsLib (win w2)
       = Some {| GlobalWorkerOptions := Some (Some (lit "w.js"));
                 disableWorker := Some true |}
    /\ count_event is_getDocument w2 = 2.
Proof.
  destruct (worker_failure_retry env_failing_worker sample_file None
              {| win := {| pdfjsLib := Some {| GlobalWorkerOptions := Some (Some (lit "w.js"));
                                               disableWorker := Some false |};
                           pdfWorkerBlobUrl := None |};
                 pdfWorkerReadyPromise := None;
                 log := [] |}
              {| win := {| pdfjsLib := Some {| GlobalWorkerOptions := Some (Some (lit "w.js"));
                                               disableWorker := Some false |};
                           pdfWorkerBlobUrl := None |};
                 pdfWorkerReadyPromise := None;
                 log := [] |}
              [37; 80; 68; 70]%N
              {| GlobalWorkerOptions := Some (Some (lit "w.js"));
                 disableWorker := Some false |}
              (JsError (lit "Setting up fake worker failed: no worker")))
    as [Hretry _].
  - discriminate.
  - reflexivity.
  - reflexivity.
  - reflexivity.
  - reflexivity.
  - destruct (Hretry eq_refl) as [w2 [Hopen [Hlib [Hcount _]]]].
    exists w2. split; [exact Hopen|]. split; [exact Hlib | exact Hcount].
Defined.

(** C6 as stated fails: with a library that has no boolean
    [disableWorker], as pdf.js 3.4.120 is, the opening is tried again after
    a worker failure with the library untouched: nothing is disabled. *)
Lemma retry_without_disabling :
  workerFailed (lit "Setting up fake worker failed: no worker") = true
  /\ exists w' r,
      extractPdfText env_failing_worker sample_file None sample_world
      = (w', Ok r)
      /\ count_event is_getDocument w' = 2
      /\ win w' = win sample_world
      /\ pdfjsLib (win w')
         = Some {| GlobalWorkerOptions := Some (Some (lit "pdf.worker.js"));
                   disableWorker := None |}.
Proof.
  split; [reflexivity|].
  eexists. eexists. split; [vm_compute; reflexivity|].
  repeat split.
Qed.

(** ** The worker provisioner *)

Lemma fall_back_eq w lib current :
  pdfjsLib (win w) = Some lib ->
  GlobalWorkerOptions lib = Some current ->
  fall_back w
  = set_promise Fulfilled
      (set_window
         {| pdfjsLib :=
              Some {| GlobalWorkerOptions :=
                        Some (Some (or_else (pdfWorkerBlobUrl (win w))
                                            PDF_WORKER_SOURCE));
                      disableWorker := disableWorker lib |};
            pdfWorkerBlobUrl := pdfWorkerBlobUrl (win w) |} w).
Proof.
  intros Hlib Hopt. unfold fall_back, assign_workerSrc.
  rewrite Hlib, Hopt. reflexivity.
Qed.

Lemma or_else_source cached :
  (Some (or_else cached PDF_WORKER_SOURCE) = Some PDF_WORKER_SOURCE
   \/ Some (or_else cached PDF_WORKER_SOURCE) = cached)
  /\ truthy_str (Some (or_else cached PDF_WORKER_SOURCE)) = true.
Proof. destruct cached as [[|c s]|]; cbn; auto. Qed.

Lemma fall_back_promise w lib current :
  pdfjsLib (win w) = Some lib ->
  GlobalWorkerOptions lib = Some current ->
  pdfWorkerReadyPromise (fall_back w) = Some Fulfilled.
Proof.
  intros Hlib Hopt. rewrite (fall_back_eq w lib current Hlib Hopt). reflexivity.
Qed.

(** A first call whose inlining fails ends in line 39, run in a world that
    has the window of the start. *)
Lemma ensurePdfWorker_failed_inlining env w lib current :
  pdfjsLib (win w) = Some lib ->
  GlobalWorkerOptions lib = Some current ->
  truthy_str (workerSrc lib) = false ->
  pdfWorkerReadyPromise w = None ->
  inlining_fails env = true ->
  exists w0, win w0 = win w /\ ensurePdfWorker env w = (fall_back w0, Ok tt).
Proof.
  intros Hlib Hopt Hsrc Hpromise Hfails.
  unfold ensurePdfWorker, ensurePdfWorker_call.
  rewrite Hlib, Hsrc, Hpromise. unfold start_provisioning.
  unfold inlining_fails in Hfails.
  assert (Hdone : forall w0,
             win w0 = win w ->
             pdfWorkerReadyPromise (fall_back w0) = Some Fulfilled).
  { intros w0 Hwin. apply (fall_back_promise w0 lib current); [|exact Hopt].
    rewrite Hwin. exact Hlib. }
  destruct (canInlineWorker env) eqn:Hcan; cbn [negb orb] in Hfails;
    unfold run_pending; cbn [pdfWorkerReadyPromise set_promise].
  - unfold fetch_settled.
    destruct (fetch_result env) as [resp|e].
    + destruct (ok resp) eqn:Hok; cbn [negb orb] in Hfails.
      * cbn [pdfWorkerReadyPromise set_promise]. unfold text_settled.
        destruct (body_text resp) as [script|e];
          [destruct (createObjectURL env script) as [url|e]; [discriminate|]|];
          unfold inline_failed; cbv beta iota zeta;
          match goal with |- context [fall_back ?w0] =>
            exists w0; split; [reflexivity|];
            rewrite !(Hdone w0 eq_refl); reflexivity end.
      * unfold inline_failed. cbv beta iota zeta.
        match goal with |- context [fall_back ?w0] =>
          exists w0; split; [reflexivity|];
          rewrite !(Hdone w0 eq_refl); reflexivity end.
    + unfold inline_failed. cbv beta iota zeta.
      match goal with |- context [fall_back ?w0] =>
        exists w0; split; [reflexivity|];
        rewrite !(Hdone w0 eq_refl); reflexivity end.
  - cbv beta iota zeta.
    match goal with |- context [fall_back ?w0] =>
      exists w0; split; [reflexivity|];
      rewrite !(Hdone w0 eq_refl); reflexivity end.
Qed.


(** ** The provisioner on the event loop *)

Lemma settles_trans w w1 w2 :
  count_event is_provision w1 = count_event is_provision w ->
  count_event is_fetch w1 = count_event is_fetch w ->
  settles w1 w2 -> settles w w2.
Proof. intros Hp Hf [Hp' [Hf' Hs]]. repeat split; congruence. Qed.

Lemma fall_back_settles w : settles w (fall_back w).
Proof.
  unfold fall_back, assign_workerSrc.
  destruct (pdfjsLib (win w)) as [lib|];
    [destruct (GlobalWorkerOptions lib)|]; repeat split; discriminate.
Qed.

Lemma inline_failed_settles w : settles w (inline_failed w).
Proof.
  unfold inline_failed.
  eapply settles_trans; [| |apply fall_back_settles];
    rewrite count_event_emit; cbn; lia.
Qed.

Lemma fetch_settled_settles r w : settles w (fetch_settled r w).
Proof.
  unfold fetch_settled. destruct r as [resp|e]; [destruct (ok resp)|];
    try apply inline_failed_settles.
  repeat split; discriminate.
Qed.

Lemma text_settled_settles env body w : settles w (text_settled env body w).
Proof.
  unfold text_settled. destruct body as [script|e];
    [destruct (createObjectURL env script) as [url|e]|];
    try apply inline_failed_settles.
  unfold assign_workerSrc. cbn [win assign_blobUrl set_window pdfjsLib].
  destruct (pdfjsLib (win w)) as [lib|]; [destruct (GlobalWorkerOptions lib)|].
  - repeat split; discriminate.
  - eapply settles_trans; [| |apply inline_failed_settles]; reflexivity.
  - eapply settles_trans; [| |apply inline_failed_settles]; reflexivity.
Qed.

Lemma start_provisioning_counts env w :
  count_event is_provision (start_provisioning env w)
  = S (count_event is_provision w)
  /\ count_event is_fetch (start_provisioning env w)
     <= S (count_event is_fetch w)
  /\ pdfWorkerReadyPromise (start_provisioning env w) <> None.
Proof.
  unfold start_provisioning. destruct (canInlineWorker env).
  - unfold count_event. cbn [log set_promise emit pdfWorkerReadyPromise].
    rewrite !filter_app, !length_app. cbn. repeat split; try lia. discriminate.
  - destruct (fall_back_settles (emit EvProvision w)) as [Hp [Hf Hs]].
    rewrite Hp, Hf, !count_event_emit. cbn. repeat split; try lia. exact Hs.
Qed.

Lemma step_preserves env st a st' :
  step env st a st' -> provisioned_once st -> provisioned_once st'.
Proof.
  intros Hstep [Hcount [Hfetch Hwait]].
  destruct Hstep as [st w' out Hcall | st r Hpending | st body Hpending | st v];
    unfold provisioned_once; cbn [sys_world awaited].
  - unfold ensurePdfWorker_call in Hcall.
    destruct (pdfjsLib (win (sys_world st))) as [lib|];
      [|injection Hcall as <- <-; auto].
    destruct (truthy_str (workerSrc lib)); [injection Hcall as <- <-; auto|].
    injection Hcall as <- <-.
    destruct (pdfWorkerReadyPromise (sys_world st)) as [p|] eqn:Hp.
    + rewrite Hp. split; [exact Hcount|]. split; [exact Hfetch|].
      apply Forall_app. split; [exact Hwait|]. constructor; [exact Hcount | constructor].
    + destruct (start_provisioning_counts env (sys_world st)) as [Hp' [Hf' Hs']].
      rewrite Hp', Hcount.
      destruct (pdfWorkerReadyPromise (start_provisioning env (sys_world st)));
        [|congruence].
      split; [reflexivity|]. split; [lia|].
      apply Forall_app. split; [exact Hwait|]. repeat constructor.
  - destruct (fetch_settled_settles r (sys_world st)) as [Hp [Hf Hs]].
    rewrite Hp, Hf. rewrite Hpending in Hcount.
    destruct (pdfWorkerReadyPromise (fetch_settled r (sys_world st)));
      [|congruence].
    auto.
  - destruct (text_settled_settles env body (sys_world st)) as [Hp [Hf Hs]].
    rewrite Hp, Hf. rewrite Hpending in Hcount.
    destruct (pdfWorkerReadyPromise (text_settled env body (sys_world st)));
      [|congruence].
    auto.
  - unfold assign_external.
    destruct (pdfjsLib (win (sys_world st))) as [lib|];
      [destruct (GlobalWorkerOptions lib)|]; auto.
Qed.

Lemma steps_preserve env st acts st' :
  steps env st acts st' -> provisioned_once st -> provisioned_once st'.
Proof.
  induction 1 as [st | st a st' acts st'' Hstep _ IH]; intros Hinv.
  - exact Hinv.
  - apply IH. exact (step_preserves env st a st' Hstep Hinv).
Qed.

(** C8. Whatever calls of [ensurePdfWorker], settlements of the fetch and
    of the text, and outside assignments of the worker location follow the
    loading of the module, in whatever order, at most one provisioning
    operation is started and [fetch] is called at most once; an operation
    has been started exactly when [pdfWorkerReadyPromise] holds a promise,
    and every call that is suspended awaits that first operation. *)
Theorem single_provisioning env wn acts st :
  steps env (initial wn) acts st ->
  count_event is_provision (sys_world st) <= 1
  /\ count_event is_fetch (sys_world st) <= 1
  /\ (count_event is_provision (sys_world st) = 1
      <-> pdfWorkerReadyPromise (sys_world st) <> None)
  /\ Forall (fun id => id = 1) (awaited st).
Proof.
  intros Hsteps.
  assert (Hinit : provisioned_once (initial wn)).
  { unfold provisioned_once, initial. cbn. repeat split; auto. }
  destruct (steps_preserve env _ acts st Hsteps Hinit) as [Hcount [Hfetch Hwait]].
  destruct (pdfWorkerReadyPromise (sys_world st)) as [p|].
  - repeat split; try lia; try assumption; congruence.
  - repeat split; try lia; try assumption; try congruence.
Qed.

(** Two calls before the fetch is rejected, the worker location cleared
    from outside, and a third call: one provisioning, one fetch. *)
Lemma single_provisioning_witness :
  let st :=
    {| sys_world :=
         {| win := fresh_window;
            pdfWorkerReadyPromise := Some Fulfilled;
            log := [EvProvision; EvFetch;
                    EvWarn (lit "Unable to inline PDF.js worker, falling back to remote worker")] |};
       awaited := [1; 1; 1] |} in
  count_event is_provision (sys_world st) <= 1
  /\ count_event is_fetch (sys_world st) <= 1
  /\ (count_event is_provision (sys_world st) = 1
      <-> pdfWorkerReadyPromise (sys_world st) <> None)
  /\ Forall (fun id => id = 1) (awaited st).
Proof.
  apply (single_provisioning (env_opening sample_pdf) fresh_window
           [Call; Call; FetchSettles (Throw (JsError (lit "Failed to fetch")));
            ExternalWorkerSrc None; Call]).
  eapply steps_cons; [eapply step_call; reflexivity|].
  eapply steps_cons; [eapply step_call; reflexivity|].
  eapply steps_cons; [eapply step_fetch; reflexivity|].
  eapply steps_cons; [eapply step_external|].
  eapply steps_cons; [eapply step_call; reflexivity|].
  apply steps_nil.
Defined.

(** ** The arithmetic of the progress report *)

Open Scope Z_scope.

Lemma digits2_pos_lower p : 2 ^ (Zpos (digits2_pos p) - 1) <= Zpos p.
Proof.
  induction p as [p IH | p IH |]; cbn [digits2_pos].
  - rewrite Pos2Z.inj_succ.
    replace (Z.succ (Zpos (digits2_pos p)) - 1)
      with (Z.succ (Zpos (digits2_pos p) - 1)) by lia.
    rewrite Z.pow_succ_r by lia. lia.
  - rewrite Pos2Z.inj_succ.
    replace (Z.succ (Zpos (digits2_pos p)) - 1)
      with (Z.succ (Zpos (digits2_pos p) - 1)) by lia.
    rewrite Z.pow_succ_r by lia. lia.
  - cbn. lia.
Qed.

Lemma digits2_pos_small p : Zpos p < 2 ^ 53 -> Zpos (digits2_pos p) <= 53.
Proof.
  intros Hp. destruct (Z.le_gt_cases (Zpos (digits2_pos p)) 53) as [H|H]; [exact H|].
  pose proof (digits2_pos_lower p) as Hlow.
  assert (2 ^ 53 <= 2 ^ (Zpos (digits2_pos p) - 1))
    by (apply Z.pow_le_mono_r; lia).
  lia.
Qed.

Lemma digits2_pos_shift p k :
  Zpos (digits2_pos (Pos.iter xO p k)) = Zpos (digits2_pos p) + Zpos k.
Proof.
  induction k as [|k IH] using Pos.peano_ind.
  - cbn. lia.
  - rewrite Pos.iter_succ. cbn [digits2_pos]. rewrite Pos2Z.inj_succ, IH. lia.
Qed.

(** A mantissa that already has its canonical exponent is kept as it is. *)
Lemma binary_round_aux_canonical m e :
  fexp prec emax (Zpos (digits2_pos m) + e) = e ->
  e <= emax - prec ->
  binary_round_aux prec emax false (Zpos m) e loc_Exact = S754_finite false m e.
Proof.
  intros Hcanon Hmax.
  unfold binary_round_aux, shr_fexp, Zdigits2. rewrite Hcanon, Z.sub_diag.
  cbn [shr shr_record_of_loc shr_m loc_of_shr_record round_nearest_even].
  rewrite Hcanon, Z.sub_diag. cbn [shr shr_record_of_loc shr_m].
  destruct (Z.leb_spec e (emax - prec)); [reflexivity | lia].
Qed.

(** A positive integer below [2 ^ 53] is a finite positive number. *)
Lemma num_of_nat_finite n :
  (1 <= n)%nat -> Z.of_nat n < 2 ^ 53 ->
  exists m e, num_of_nat n = S754_finite false m e.
Proof.
  intros Hpos Hsmall. unfold num_of_nat, binary_normalize.
  destruct (Z.of_nat n) as [|p|p] eqn:Hn; try lia.
  pose proof (digits2_pos_small p Hsmall) as Hd.
  unfold binary_round, shl_align.
  assert (Hfexp : fexp prec emax (Zpos (digits2_pos p) + 0)
                  = Zpos (digits2_pos p) - 53).
  { unfold fexp, emin, prec, emax. lia. }
  rewrite Hfexp.
  destruct (Zpos (digits2_pos p) - 53 - 0) as [|k|k] eqn:Hk; try lia.
  - exists p, 0. apply binary_round_aux_canonical.
    + rewrite Hfexp. lia.
    + unfold emax, prec. lia.
  - exists (Pos.iter xO p k), (Zpos (digits2_pos p) - 53).
    apply binary_round_aux_canonical.
    + rewrite digits2_pos_shift. unfold fexp, emin, prec, emax. lia.
    + unfold emax, prec. lia.
Qed.

(** A finite number divided by itself is one. *)
Lemma num_div_self s m e :
  num_div (S754_finite s m e) (S754_finite s m e)
  = S754_finite false 4503599627370496 (-52).
Proof.
  unfold num_div, SFdiv, SFdiv_core_binary.
  rewrite !Z.sub_diag, xorb_nilpotent.
  change (Z.min (fexp prec emax 0) 0) with (-53).
  change (0 - -53) with 53.
  cbv beta iota zeta.
  assert (Hdiv : Z.div_eucl (Z.shiftl (Zpos m) 53) (Zpos m) = (2 ^ 53, 0)).
  { rewrite Z.shiftl_mul_pow2 by lia.
    destruct (Z.div_eucl (Zpos m * 2 ^ 53) (Zpos m)) as [q r] eqn:E.
    assert (Hq : q = Zpos m * 2 ^ 53 / Zpos m) by (unfold Z.div; rewrite E; reflexivity).
    assert (Hr : r = (Zpos m * 2 ^ 53) mod Zpos m)
      by (unfold Z.modulo; rewrite E; reflexivity).
    rewrite Z.mul_comm, Z_div_mult in Hq by lia.
    rewrite Z.mul_comm, Z_mod_mult in Hr. subst. reflexivity. }
  rewrite Hdiv.
  assert (Hloc : new_location (Zpos m) 0 = loc_Exact).
  { unfold new_location, new_location_even, new_location_odd.
    destruct (Z.even (Zpos m)); reflexivity. }
  rewrite Hloc. vm_compute. reflexivity.
Qed.

(** The percentage reported after the last page is 100. *)
Lemma progress_percent_last n :
  (1 <= n)%nat -> Z.of_nat n < 2 ^ 53 ->
  progress_percent n n = num_of_nat 100.
Proof.
  intros Hpos Hsmall.
  destruct (num_of_nat_finite n Hpos Hsmall) as [m [e Hn]].
  unfold progress_percent. rewrite Hn, num_div_self.
  vm_compute. reflexivity.
Qed.

(** ** Rounding to 53 bits is monotone *)

Lemma cell_bounds a b :
  0 <= a -> 0 < b -> 4 * (a / b) <= cell a b <= 4 * (a / b) + 3.
Proof.
  intros Ha Hb. unfold cell.
  destruct (a mod b =? 0); [lia|]. destruct (2 * (a mod b) ?= b); lia.
Qed.

Lemma cell_div a b : 0 <= a -> 0 < b -> cell a b / 4 = a / b.
Proof.
  intros Ha Hb. pose proof (cell_bounds a b Ha Hb).
  symmetry. apply (Z.div_unique _ _ _ (cell a b - 4 * (a / b))); lia.
Qed.

Lemma cell_mod a b :
  0 <= a -> 0 < b -> cell a b mod 4 = cell a b - 4 * (a / b).
Proof.
  intros Ha Hb. pose proof (cell_bounds a b Ha Hb).
  symmetry. apply (Z.mod_unique _ _ (a / b)); lia.
Qed.

(** The cell is a monotone function of the rational. *)
Lemma cell_mono a b a' b' :
  0 <= a -> 0 < b -> 0 <= a' -> 0 < b' ->
  a * b' <= a' * b -> cell a b <= cell a' b'.
Proof.
  intros Ha Hb Ha' Hb' Hle.
  pose proof (Z.div_mod a b ltac:(lia)) as Hab.
  pose proof (Z.div_mod a' b' ltac:(lia)) as Hab'.
  pose proof (Z.mod_pos_bound a b Hb) as Hr.
  pose proof (Z.mod_pos_bound a' b' Hb') as Hr'.
  set (q := a / b) in *. set (r := a mod b) in *.
  set (q' := a' / b') in *. set (r' := a' mod b') in *.
  assert (Hq : q <= q').
  { destruct (Z.le_gt_cases q q') as [H|H]; [exact H|]. exfalso.
    assert (q' + 1 <= q) by lia.
    assert (a' * b < (q' + 1) * b' * b) by nia.
    assert ((q' + 1) * b' * b <= q * b * b') by nia.
    nia. }
  pose proof (cell_bounds a b Ha Hb) as Hc. fold q in Hc.
  pose proof (cell_bounds a' b' Ha' Hb') as Hc'. fold q' in Hc'.
  destruct (Z.eq_dec q q') as [Heq|Hne]; [|lia].
  unfold cell. fold q q' r r'. rewrite <- Heq.
  assert (Hrr : r * b' <= r' * b) by nia.
  destruct (Z.eqb_spec r 0) as [Hz|Hz], (Z.eqb_spec r' 0) as [Hz'|Hz'].
  - lia.
  - destruct (2 * r' ?= b'); lia.
  - exfalso. nia.
  - destruct (Z.compare_spec (2 * r) b), (Z.compare_spec (2 * r') b');
      try lia; exfalso; nia.
Qed.

(** Shifting the cell of [a / b] gives the cell of [a / (2 b)]. *)
Lemma sticky_shift_cell a b :
  0 <= a -> 0 < b -> sticky_shift (cell a b) = cell a (2 * b).
Proof.
  intros Ha Hb. unfold sticky_shift.
  rewrite cell_div, cell_mod by assumption.
  pose proof (Z.div_mod a b ltac:(lia)) as Hab.
  pose proof (Z.mod_pos_bound a b Hb) as Hr.
  assert (Hq2 : a / (2 * b) = a / b / 2)
    by (rewrite (Z.mul_comm 2 b); symmetry; apply Z.div_div; lia).
  assert (Hr2 : a mod (2 * b) = a mod b + b * ((a / b) mod 2))
    by (rewrite (Z.mul_comm 2 b); apply Z.rem_mul_r; lia).
  pose proof (Z.div_mod (a / b) 2 ltac:(lia)) as Hq.
  pose proof (Z.mod_pos_bound (a / b) 2 ltac:(lia)) as Hqr.
  unfold cell at 2. rewrite Hq2, Hr2.
  unfold cell.
  set (q := a / b) in *. set (r := a mod b) in *.
  destruct (Z.eqb_spec r 0) as [Hz|Hz].
  - replace (0 - 4 * q + 4 * q) with 0 by lia.
    assert (Hc : 4 * q + 0 - 4 * q = 0) by lia. rewrite Hc. cbn [Z.eqb].
    destruct (Z.eqb_spec (r + b * (q mod 2)) 0) as [Hz2|Hz2].
    + assert (q mod 2 = 0) by nia. lia.
    + assert (q mod 2 = 1) by nia.
      destruct (Z.compare_spec (2 * (r + b * (q mod 2))) (2 * b)); nia.
  - assert (Hc : forall k, 0 < k -> (4 * q + k - 4 * q =? 0) = false)
      by (intros k Hk; apply Z.eqb_neq; lia).
    assert (Hlhs : (if (4 * q + match 2 * r ?= b with Lt => 1 | Eq => 2 | Gt => 3 end
                        - 4 * q =? 0) then 0 else 1) = 1).
    { destruct (2 * r ?= b); rewrite Hc by lia; reflexivity. }
    rewrite Hlhs.
    destruct (Z.eqb_spec (r + b * (q mod 2)) 0) as [Hz2|Hz2]; [nia|].
    destruct (Z.compare_spec (2 * (r + b * (q mod 2))) (2 * b)); nia.
Qed.

Lemma sticky_shift_iter_cell n a b :
  0 <= a -> 0 < b ->
  Nat.iter n sticky_shift (cell a b) = cell a (b * 2 ^ Z.of_nat n).
Proof.
  intros Ha Hb. induction n as [|n IH].
  - cbn. rewrite Z.mul_1_r. reflexivity.
  - rewrite Nat.iter_succ, IH, sticky_shift_cell by lia.
    f_equal. rewrite Nat2Z.inj_succ, Z.pow_succ_r by lia. lia.
Qed.

(** Every cell is the cell of itself over four. *)
Lemma cell_self c : 0 <= c -> cell c 4 = c.
Proof.
  intros Hc. unfold cell.
  pose proof (Z.div_mod c 4 ltac:(lia)) as Hd.
  pose proof (Z.mod_pos_bound c 4 ltac:(lia)) as Hr.
  destruct (Z.eqb_spec (c mod 4) 0); [lia|].
  destruct (Z.compare_spec (2 * (c mod 4)) 4); lia.
Qed.

Lemma code_shr_1 mrs :
  0 <= shr_m mrs -> code (shr_1 mrs) = sticky_shift (code mrs).
Proof.
  destruct mrs as [m r s]. unfold code, sticky_shift. cbn [shr_m shr_r shr_s].
  intros Hm.
  destruct m as [|p|p]; [| |lia].
  - destruct r, s; reflexivity.
  - destruct p as [p|p|].
    + destruct r, s; cbn [shr_1 shr_m shr_r shr_s orb];
        rewrite Pos2Z.inj_xI;
        match goal with |- context [?x =? 0] => destruct (Z.eqb_spec x 0) end;
        Z.div_mod_to_equations; lia.
    + destruct r, s; cbn [shr_1 shr_m shr_r shr_s orb];
        rewrite Pos2Z.inj_xO;
        match goal with |- context [?x =? 0] => destruct (Z.eqb_spec x 0) end;
        Z.div_mod_to_equations; lia.
    + destruct r, s; vm_compute; reflexivity.
Qed.

Lemma shr_1_nonneg mrs : 0 <= shr_m mrs -> 0 <= shr_m (shr_1 mrs).
Proof.
  destruct mrs as [m r s]. cbn. intros Hm.
  destruct m as [|p|p]; [cbn; lia| |lia].
  destruct p; cbn; lia.
Qed.

Lemma iter_pos_nat {A} (f : A -> A) n x :
  iter_pos f n x = Nat.iter (Pos.to_nat n) f x.
Proof.
  revert x. induction n as [n IH|n IH|]; intros x; cbn [iter_pos].
  - rewrite !IH, Pos2Nat.inj_xI.
    replace (S (2 * Pos.to_nat n))%nat
      with (Pos.to_nat n + S (Pos.to_nat n))%nat by lia.
    rewrite Nat.iter_add, Nat.iter_succ_r. reflexivity.
  - rewrite !IH, Pos2Nat.inj_xO.
    replace (2 * Pos.to_nat n)%nat with (Pos.to_nat n + Pos.to_nat n)%nat by lia.
    rewrite Nat.iter_add. reflexivity.
  - reflexivity.
Qed.

Lemma code_iter_shr_1 n mrs :
  0 <= shr_m mrs ->
  0 <= shr_m (Nat.iter n shr_1 mrs)
  /\ code (Nat.iter n shr_1 mrs) = Nat.iter n sticky_shift (code mrs).
Proof.
  intros Hm. induction n as [|n [IHm IHc]]; [split; [exact Hm | reflexivity]|].
  rewrite !Nat.iter_succ. split; [apply shr_1_nonneg, IHm|].
  rewrite code_shr_1, IHc by exact IHm. reflexivity.
Qed.

Lemma code_of_loc m l : code (shr_record_of_loc m l) = loc_code m l.
Proof. destruct l as [|[]]; unfold code, loc_code; cbn; lia. Qed.

Lemma round_code mrs :
  0 <= shr_m mrs ->
  round_nearest_even (shr_m mrs) (loc_of_shr_record mrs) = round_cell (code mrs).
Proof.
  destruct mrs as [m r s]. unfold round_cell, code. cbn [shr_m shr_r shr_s].
  intros Hm.
  assert (Hdiv : forall k, 0 <= k < 4 -> (4 * m + k) / 4 = m /\ (4 * m + k) mod 4 = k).
  { intros k Hk. split; Z.div_mod_to_equations; lia. }
  destruct r, s; cbn [loc_of_shr_record round_nearest_even].
  - destruct (Hdiv 3 ltac:(lia)) as [Hq Hr].
    replace (4 * m + 2 + 1) with (4 * m + 3) by lia. rewrite Hq, Hr. reflexivity.
  - destruct (Hdiv 2 ltac:(lia)) as [Hq Hr].
    replace (4 * m + 2 + 0) with (4 * m + 2) by lia. rewrite Hq, Hr. cbn.
    rewrite <- Z.negb_even. destruct (Z.even m); cbn; lia.
  - destruct (Hdiv 1 ltac:(lia)) as [Hq Hr].
    replace (4 * m + 0 + 1) with (4 * m + 1) by lia. rewrite Hq, Hr. cbn. lia.
  - destruct (Hdiv 0 ltac:(lia)) as [Hq Hr].
    replace (4 * m + 0 + 0) with (4 * m + 0) by lia. rewrite Hq, Hr. cbn. lia.
Qed.

Lemma digits2_pos_upper p : Zpos p < 2 ^ Zpos (digits2_pos p).
Proof.
  induction p as [p IH | p IH |]; cbn [digits2_pos];
    rewrite ?Pos2Z.inj_succ, ?Z.pow_succ_r by lia; lia.
Qed.

Lemma digits2_pos_unique p k :
  2 ^ (k - 1) <= Zpos p < 2 ^ k -> Zpos (digits2_pos p) = k.
Proof.
  intros [Hlow Hup].
  pose proof (digits2_pos_lower p) as Hl. pose proof (digits2_pos_upper p) as Hu.
  assert (0 < k).
  { destruct (Z.lt_ge_cases 0 k) as [H|H]; [exact H|].
    destruct (Z.eq_dec k 0) as [->|]; [cbn in Hup; lia|].
    rewrite Z.pow_neg_r in Hup by lia. lia. }
  destruct (Z.lt_trichotomy (Zpos (digits2_pos p)) k) as [H1|[H1|H1]]; [|exact H1|].
  - assert (2 ^ Zpos (digits2_pos p) <= 2 ^ (k - 1))
      by (apply Z.pow_le_mono_r; lia). lia.
  - assert (2 ^ k <= 2 ^ (Zpos (digits2_pos p) - 1))
      by (apply Z.pow_le_mono_r; lia). lia.
Qed.

Lemma fexp_normal x : -1074 <= x - 53 -> fexp prec emax x = x - 53.
Proof. intros H. unfold fexp, emin, prec, emax. lia. Qed.

Lemma shift_quotient (m n : Z) (c : Z) :
  0 <= n -> 0 <= m -> 0 <= c < 4 ->
  cell (4 * m + c) (4 * 2 ^ n) / 4 = m / 2 ^ n.
Proof.
  intros Hn Hm Hc. assert (0 < 2 ^ n) by (apply Z.pow_pos_nonneg; lia).
  rewrite cell_div by lia.
  rewrite <- Z.div_div by lia. f_equal. Z.div_mod_to_equations. lia.
Qed.

Lemma loc_code_bounds m l : 4 * m <= loc_code m l < 4 * m + 4.
Proof. unfold loc_code. destruct l as [|[]]; lia. Qed.

(** The second pass of [binary_round_aux], on a rounded mantissa of 53
    bits, or of 54 after a carry. *)
Lemma second_pass q e :
  2 ^ 52 <= q <= 2 ^ 53 -> -1074 <= e -> e + 1 <= 971 ->
  (let '(mrs, e') := shr_fexp prec emax q e loc_Exact in
   match shr_m mrs with
   | 0 => S754_zero false
   | Zpos m => if e' <=? emax - prec then S754_finite false m e'
               else S754_infinity false
   | Zneg _ => S754_nan
   end) = rounded q e.
Proof.
  intros Hq He Hmax. unfold rounded.
  destruct (Z.eqb_spec q (2 ^ 53)) as [->|Hne].
  - unfold shr_fexp. change (Zdigits2 (2 ^ 53)) with 54.
    rewrite fexp_normal by lia.
    replace (54 + e - 53 - e) with 1 by lia.
    cbn [shr shr_record_of_loc iter_pos]. cbn [shr_1 Z.pow Z.pow_pos Pos.iter Z.mul Pos.mul shr_m].
    unfold emax, prec. destruct (Z.leb_spec (e + 1) (1024 - 53)); [reflexivity | lia].
  - destruct q as [|p|p]; try lia.
    unfold shr_fexp, Zdigits2.
    rewrite (digits2_pos_unique p 53) by (change (53 - 1) with 52; lia).
    rewrite fexp_normal by lia.
    replace (53 + e - 53 - e) with 0 by lia.
    cbn [shr shr_record_of_loc shr_m].
    unfold emax, prec. destruct (Z.leb_spec e (1024 - 53)); [reflexivity | lia].
Qed.

(** [binary_round_aux] on a mantissa of at least 53 bits, in the range of
    normal numbers: the mantissa with its location is shifted down to 53
    bits and rounded to nearest even. *)
Lemma binary_round_aux_cell m e l :
  53 <= Zpos (digits2_pos m) ->
  -1074 <= Zpos (digits2_pos m) + e - 53 ->
  Zpos (digits2_pos m) + e - 53 + 1 <= 971 ->
  binary_round_aux prec emax false (Zpos m) e l
  = rounded
      (round_cell (cell (loc_code (Zpos m) l)
                        (4 * 2 ^ (Zpos (digits2_pos m) - 53))))
      (Zpos (digits2_pos m) + e - 53)
  /\ 2 ^ 52 <= round_cell (cell (loc_code (Zpos m) l)
                                (4 * 2 ^ (Zpos (digits2_pos m) - 53)))
            <= 2 ^ 53.
Proof.
  set (d := Zpos (digits2_pos m)). intros Hd Hmin Hmax.
  set (n := d - 53). assert (Hn : 0 <= n) by lia.
  pose proof (digits2_pos_lower m) as Hlow. fold d in Hlow.
  pose proof (digits2_pos_upper m) as Hup. fold d in Hup.
  pose proof (loc_code_bounds (Zpos m) l) as Hlc.
  assert (Hpow : 0 < 2 ^ n) by (apply Z.pow_pos_nonneg; lia).
  set (C := cell (loc_code (Zpos m) l) (4 * 2 ^ n)).
  assert (HC4 : C / 4 = Zpos m / 2 ^ n).
  { unfold C, loc_code.
    destruct l as [|[]]; apply shift_quotient; lia. }
  assert (Hq : 2 ^ 52 <= C / 4 < 2 ^ 53).
  { rewrite HC4.
    assert (Hsplit : 2 ^ d = 2 ^ 53 * 2 ^ n)
      by (rewrite <- Z.pow_add_r by lia; f_equal; lia).
    assert (Hsplit' : 2 ^ (d - 1) = 2 ^ 52 * 2 ^ n)
      by (rewrite <- Z.pow_add_r by lia; f_equal; lia).
    split.
    - apply Z.div_le_lower_bound; lia.
    - apply Z.div_lt_upper_bound; lia. }
  assert (Hround : 2 ^ 52 <= round_cell C <= 2 ^ 53).
  { unfold round_cell. destruct (_ || _); lia. }
  split; [|exact Hround].
  (* the first pass *)
  assert (Hfirst : exists mrs,
             shr_fexp prec emax (Zpos m) e l = (mrs, d + e - 53)
             /\ 0 <= shr_m mrs /\ code mrs = C).
  { unfold shr_fexp, Zdigits2. fold d. rewrite fexp_normal by lia.
    replace (d + e - 53 - e) with n by lia.
    destruct n as [|p|p] eqn:Hnp; [| |lia].
    - exists (shr_record_of_loc (Zpos m) l). cbn [shr].
      split; [f_equal; lia|]. split; [destruct l as [|[]]; cbn; lia|].
      rewrite code_of_loc. unfold C. cbn [Z.pow]. rewrite Z.mul_1_r.
      symmetry. apply cell_self. lia.
    - exists (iter_pos shr_1 p (shr_record_of_loc (Zpos m) l)). cbn [shr].
      split; [f_equal; lia|].
      rewrite iter_pos_nat.
      destruct (code_iter_shr_1 (Pos.to_nat p) (shr_record_of_loc (Zpos m) l))
        as [Hnn Hcode]; [destruct l as [|[]]; cbn; lia|].
      split; [exact Hnn|].
      rewrite Hcode, code_of_loc.
      rewrite <- (cell_self (loc_code (Zpos m) l)) at 1 by lia.
      rewrite sticky_shift_iter_cell by lia.
      unfold C. rewrite positive_nat_Z. reflexivity. }
  destruct Hfirst as [mrs [Hshr [Hnn Hcode]]].
  unfold binary_round_aux. rewrite Hshr.
  rewrite (round_code mrs Hnn), Hcode.
  apply (second_pass (round_cell C) (d + e - 53)); lia.
Qed.

Lemma round_cell_mono c c' : 0 <= c <= c' -> round_cell c <= round_cell c'.
Proof.
  intros Hc. unfold round_cell.
  pose proof (Z.div_mod c 4 ltac:(lia)) as Hd.
  pose proof (Z.div_mod c' 4 ltac:(lia)) as Hd'.
  pose proof (Z.mod_pos_bound c 4 ltac:(lia)) as Hr.
  pose proof (Z.mod_pos_bound c' 4 ltac:(lia)) as Hr'.
  set (q := c / 4) in *. set (r := c mod 4) in *.
  set (q' := c' / 4) in *. set (r' := c' mod 4) in *.
  destruct (Z.eq_dec q q') as [Heq|Hne].
  - rewrite <- Heq.
    destruct (Z.eqb_spec r 3), (Z.eqb_spec r 2), (Z.eqb_spec r' 3),
      (Z.eqb_spec r' 2), (Z.odd q); cbn [orb andb]; lia.
  - assert (q + 1 <= q') by lia.
    destruct (_ || _), (_ || _); lia.
Qed.

(** Rounding a cell at [n] more bits is rounding the rational at [n] more
    bits. *)
Lemma cell_cell a b n :
  0 <= a -> 0 < b -> 0 <= n ->
  cell (cell a b) (4 * 2 ^ n) = cell a (b * 2 ^ n).
Proof.
  intros Ha Hb Hn.
  pose proof (cell_bounds a b Ha Hb) as Hc.
  assert (0 <= a / b) by (apply Z.div_pos; lia).
  rewrite <- (Z2Nat.id n Hn).
  rewrite <- (sticky_shift_iter_cell (Z.to_nat n) (cell a b) 4) by lia.
  rewrite cell_self by lia. apply sticky_shift_iter_cell; assumption.
Qed.

Lemma rounded_normal q e :
  2 ^ 52 <= q <= 2 ^ 53 ->
  exists m e0,
    normal (rounded q e) m e0
    /\ (q = 2 ^ 53 -> m = 2 ^ 52 /\ e0 = e + 1)
    /\ (q < 2 ^ 53 -> m = q /\ e0 = e).
Proof.
  intros Hq. unfold rounded. destruct (Z.eqb_spec q (2 ^ 53)) as [->|Hne].
  - exists (2 ^ 52), (e + 1). repeat split; try lia.
  - exists q, e. repeat split; lia.
Qed.

Lemma rounded_le q e q' e' :
  2 ^ 52 <= q <= 2 ^ 53 -> 2 ^ 52 <= q' <= 2 ^ 53 ->
  normal_le q e q' e' ->
  exists m e0 m' e0',
    normal (rounded q e) m e0 /\ normal (rounded q' e') m' e0'
    /\ normal_le m e0 m' e0'.
Proof.
  intros Hq Hq' Hle.
  destruct (rounded_normal q e Hq) as [m [e0 [Hn [Hcarry Hkeep]]]].
  destruct (rounded_normal q' e' Hq') as [m' [e0' [Hn' [Hcarry' Hkeep']]]].
  exists m, e0, m', e0'. split; [exact Hn|]. split; [exact Hn'|].
  unfold normal_le in *.
  destruct Hn as [_ Hm]. destruct Hn' as [_ Hm'].
  destruct (Z.eq_dec q (2 ^ 53)) as [Hc|Hc], (Z.eq_dec q' (2 ^ 53)) as [Hc'|Hc'].
  - destruct (Hcarry Hc), (Hcarry' Hc'). lia.
  - destruct (Hcarry Hc), (Hkeep' ltac:(lia)). lia.
  - destruct (Hkeep ltac:(lia)), (Hcarry' Hc'). lia.
  - destruct (Hkeep ltac:(lia)), (Hkeep' ltac:(lia)). lia.
Qed.

Lemma normal_le_leb x m e y m' e' :
  normal x m e -> normal y m' e' -> normal_le m e m' e' ->
  SFleb x y = true.
Proof.
  intros [-> Hm] [-> Hm'] Hle. unfold SFleb, SFcompare.
  destruct Hle as [Hlt | [-> Hmm]].
  - rewrite (proj2 (Z.compare_lt_iff e e') Hlt). reflexivity.
  - rewrite Z.compare_refl.
    change (Pos.compare_cont Eq (Z.to_pos m) (Z.to_pos m'))
      with (Pos.compare (Z.to_pos m) (Z.to_pos m')).
    destruct (Pos.compare_spec (Z.to_pos m) (Z.to_pos m')) as [H|H|H];
      try reflexivity.
    exfalso. apply Pos2Z.pos_lt_pos in H. rewrite !Z2Pos.id in H by lia. lia.
Qed.

(** The heart of the matter: [binary_round_aux] is monotone. The inputs
    are the cells of [a / b] at exponent [e] and of [a' / b'] at exponent
    [e + k], and [a / b <= (a' / b') * 2 ^ k]. *)
Lemma binary_round_aux_mono m e l a b m' l' a' b' k :
  0 <= a -> 0 < b -> 0 <= a' -> 0 < b' -> 0 <= k ->
  loc_code (Zpos m) l = cell a b ->
  loc_code (Zpos m') l' = cell a' b' ->
  a * b' <= a' * b * 2 ^ k ->
  53 <= Zpos (digits2_pos m) -> 53 <= Zpos (digits2_pos m') ->
  -1000 <= Zpos (digits2_pos m) + e - 53 <= 900 ->
  -1000 <= Zpos (digits2_pos m') + (e + k) - 53 <= 900 ->
  exists mo eo mo' eo',
    normal (binary_round_aux prec emax false (Zpos m) e l) mo eo
    /\ normal (binary_round_aux prec emax false (Zpos m') (e + k) l') mo' eo'
    /\ normal_le mo eo mo' eo'
    /\ Zpos (digits2_pos m) + e - 53 <= eo <= Zpos (digits2_pos m) + e - 52
    /\ Zpos (digits2_pos m') + (e + k) - 53 <= eo'
       <= Zpos (digits2_pos m') + (e + k) - 52.
Proof.
  intros Ha Hb Ha' Hb' Hk Hcell Hcell' Hle Hd Hd' Hrange Hrange'.
  set (d := Zpos (digits2_pos m)) in *. set (d' := Zpos (digits2_pos m')) in *.
  destruct (binary_round_aux_cell m e l) as [Hr Hq]; try (fold d; lia).
  destruct (binary_round_aux_cell m' (e + k) l') as [Hr' Hq']; try (fold d'; lia).
  fold d in Hr, Hq. fold d' in Hr', Hq'.
  rewrite Hcell, cell_cell in Hr, Hq by lia.
  rewrite Hcell', cell_cell in Hr', Hq' by lia.
  (* the mantissas are the integer parts of the rationals *)
  assert (Hm : Zpos m = a / b).
  { rewrite <- (cell_div a b) by lia. rewrite <- Hcell.
    pose proof (loc_code_bounds (Zpos m) l).
    apply (Z.div_unique _ _ _ (loc_code (Zpos m) l - 4 * Zpos m)); lia. }
  assert (Hm' : Zpos m' = a' / b').
  { rewrite <- (cell_div a' b') by lia. rewrite <- Hcell'.
    pose proof (loc_code_bounds (Zpos m') l').
    apply (Z.div_unique _ _ _ (loc_code (Zpos m') l' - 4 * Zpos m')); lia. }
  pose proof (digits2_pos_lower m) as Hlow. fold d in Hlow.
  pose proof (digits2_pos_upper m') as Hup'. fold d' in Hup'.
  pose proof (Z.div_mod a b ltac:(lia)) as Hab.
  pose proof (Z.mod_pos_bound a b Hb) as Hrb.
  pose proof (Z.div_mod a' b' ltac:(lia)) as Hab'.
  pose proof (Z.mod_pos_bound a' b' Hb') as Hrb'.
  rewrite <- Hm in Hab. rewrite <- Hm' in Hab'.
  assert (Hpk : 0 < 2 ^ k) by (apply Z.pow_pos_nonneg; lia).
  (* the exponents are ordered *)
  assert (Hdd : d <= d' + k).
  { assert (H1 : b * 2 ^ (d - 1) <= a) by nia.
    assert (H2 : a' < b' * 2 ^ d') by nia.
    assert (H3 : 2 ^ (d - 1) * (b * b') < 2 ^ (d' + k) * (b * b')).
    { rewrite Z.pow_add_r by lia.
      assert (b * 2 ^ (d - 1) * b' <= a * b') by nia.
      assert (a' * b * 2 ^ k < b' * 2 ^ d' * b * 2 ^ k).
      { apply Z.mul_lt_mono_pos_r; [lia|]. apply Z.mul_lt_mono_pos_r; lia. }
      nia. }
    assert (H4 : 2 ^ (d - 1) < 2 ^ (d' + k)).
    { apply (Z.mul_lt_mono_pos_r (b * b')); [nia | exact H3]. }
    apply Z.pow_lt_mono_r_iff in H4; lia. }
  set (E := d + e - 53) in *. set (E' := d' + (e + k) - 53) in *.
  assert (Hpn' : 0 < 2 ^ (d' - 53)) by (apply Z.pow_pos_nonneg; lia).
  assert (Hpn : 0 < 2 ^ (d - 53)) by (apply Z.pow_pos_nonneg; lia).
  assert (HE : normal_le (round_cell (cell a (b * 2 ^ (d - 53)))) E
                         (round_cell (cell a' (b' * 2 ^ (d' - 53)))) E').
  { unfold normal_le. destruct (Z.eq_dec E E') as [Heq|Hne]; [right | left; lia].
    split; [exact Heq|].
    apply round_cell_mono. split.
    - pose proof (cell_bounds a (b * 2 ^ (d - 53)) Ha ltac:(nia)).
      assert (0 <= a / (b * 2 ^ (d - 53))) by (apply Z.div_pos; nia). lia.
    - apply cell_mono; try nia.
      replace (d - 53) with (d' - 53 + k) by lia.
      rewrite Z.pow_add_r by lia. nia. }
  destruct (rounded_le _ E _ E' Hq Hq' HE)
    as [mo [eo [mo' [eo' [Hn [Hn' Hle']]]]]].
  destruct (rounded_normal _ E Hq) as [m1 [e1 [Hn1 [Hc1 Hk1]]]].
  destruct (rounded_normal _ E' Hq') as [m2 [e2 [Hn2 [Hc2 Hk2]]]].
  exists m1, e1, m2, e2.
  rewrite Hr, Hr'. split; [exact Hn1|]. split; [exact Hn2|].
  assert (He1 : E <= e1 <= E + 1).
  { destruct (Z.eq_dec (round_cell (cell a (b * 2 ^ (d - 53)))) (2 ^ 53)) as [H|H].
    - destruct (Hc1 H). lia.
    - destruct (Hk1 ltac:(lia)). lia. }
  assert (He2 : E' <= e2 <= E' + 1).
  { destruct (Z.eq_dec (round_cell (cell a' (b' * 2 ^ (d' - 53)))) (2 ^ 53)) as [H|H].
    - destruct (Hc2 H). lia.
    - destruct (Hk2 ltac:(lia)). lia. }
  split; [|split; lia].
  (* the order, again by cases on the carries *)
  unfold normal_le in *.
  destruct Hn1 as [_ Hb1]. destruct Hn2 as [_ Hb2].
  destruct (Z.eq_dec (round_cell (cell a (b * 2 ^ (d - 53)))) (2 ^ 53)) as [H|H],
    (Z.eq_dec (round_cell (cell a' (b' * 2 ^ (d' - 53)))) (2 ^ 53)) as [H'|H'].
  - destruct (Hc1 H), (Hc2 H'). lia.
  - destruct (Hc1 H), (Hk2 ltac:(lia)). lia.
  - destruct (Hk1 ltac:(lia)), (Hc2 H'). lia.
  - destruct (Hk1 ltac:(lia)), (Hk2 ltac:(lia)). lia.
Qed.

(** *** Division *)

Lemma pos_iter_xO p k : Zpos (Pos.iter xO p k) = Zpos p * 2 ^ Zpos k.
Proof.
  induction k as [|k IH] using Pos.peano_ind.
  - cbn [Pos.iter]. lia.
  - rewrite Pos.iter_succ, Pos2Z.inj_xO, IH, Pos2Z.inj_succ, Z.pow_succ_r by lia.
    lia.
Qed.

(** The number of a positive integer below [2 ^ 53]: the integer shifted
    up to 53 bits. *)
Lemma num_of_nat_normal n :
  (1 <= n)%nat -> Z.of_nat n < 2 ^ 53 ->
  exists m e,
    normal (num_of_nat n) m e /\ -52 <= e <= 0 /\ m = Z.of_nat n * 2 ^ (- e).
Proof.
  intros Hpos Hsmall. unfold num_of_nat, binary_normalize.
  destruct (Z.of_nat n) as [|p|p] eqn:Hn; try lia.
  pose proof (digits2_pos_small p Hsmall) as Hd.
  pose proof (digits2_pos_lower p) as Hlow.
  pose proof (digits2_pos_upper p) as Hup.
  set (d := Zpos (digits2_pos p)) in *.
  assert (0 < d) by (unfold d; lia).
  unfold binary_round, shl_align. fold d.
  rewrite (fexp_normal (d + 0)) by lia.
  destruct (d + 0 - 53 - 0) as [|k|k] eqn:Hk; try lia.
  - exists (Zpos p), 0. split; [|split; [lia | cbn; lia]].
    assert (Hd53 : d = 53) by lia. rewrite Hd53 in *.
    split; [|change (53 - 1) with 52 in Hlow; lia].
    rewrite binary_round_aux_canonical; [reflexivity| |unfold emax, prec; lia].
    fold d. rewrite Hd53. reflexivity.
  - assert (Hdk : d - 53 = - Zpos k) by lia.
    exists (Zpos (Pos.iter xO p k)), (d + 0 - 53).
    split; [|split; [lia|]].
    + split.
      * rewrite binary_round_aux_canonical; [reflexivity| |unfold emax, prec; lia].
        rewrite digits2_pos_shift. fold d. unfold fexp, emin, prec, emax. lia.
      * rewrite pos_iter_xO.
        assert (Hs : 2 ^ 53 = 2 ^ d * 2 ^ Zpos k)
          by (rewrite <- Z.pow_add_r by lia; f_equal; lia).
        assert (Hs' : 2 ^ 52 = 2 ^ (d - 1) * 2 ^ Zpos k)
          by (rewrite <- Z.pow_add_r by lia; f_equal; lia).
        assert (0 < 2 ^ Zpos k) by (apply Z.pow_pos_nonneg; lia).
        nia.
    + rewrite pos_iter_xO. f_equal. f_equal. lia.
Qed.

Lemma new_location_cell a b :
  0 <= a -> 0 < b ->
  loc_code (a / b) (new_location b (a mod b)) = cell a b.
Proof.
  intros Ha Hb. unfold loc_code, cell, new_location, new_location_even,
    new_location_odd.
  pose proof (Z.mod_pos_bound a b Hb) as Hr.
  set (r := a mod b) in *.
  destruct (Z.even b) eqn:Hev.
  - destruct (Z.eqb_spec r 0); [reflexivity|].
    destruct (2 * r ?= b); reflexivity.
  - destruct (Z.eqb_spec r 0); [reflexivity|].
    assert (Hodd : Z.odd b = true) by (rewrite <- Z.negb_even, Hev; reflexivity).
    apply Z.odd_spec in Hodd as [h Hh].
    destruct (Z.compare_spec (2 * r + 1) b), (Z.compare_spec (2 * r) b);
      try reflexivity; lia.
Qed.

(** The quotient of two normal numbers, as [binary_round_aux] receives
    it. *)
Lemma num_div_normal x mx ex y my ey :
  normal x mx ex -> normal y my ey ->
  -60 <= ex - ey <= 60 ->
  exists q l,
    num_div x y = binary_round_aux prec emax false (Zpos q) (ex - ey - 53) l
    /\ loc_code (Zpos q) l = cell (mx * 2 ^ 53) my
    /\ 53 <= Zpos (digits2_pos q) <= 54.
Proof.
  intros [-> Hx] [-> Hy] He.
  destruct mx as [|px|px]; try lia. destruct my as [|py|py]; try lia.
  cbn [Z.to_pos].
  unfold num_div, SFdiv, SFdiv_core_binary, Zdigits2.
  rewrite (digits2_pos_unique px 53), (digits2_pos_unique py 53)
    by (change (53 - 1) with 52; lia).
  replace (53 + ex - (53 + ey)) with (ex - ey) by lia.
  rewrite fexp_normal by lia.
  rewrite Z.min_l by lia.
  replace (ex - ey - (ex - ey - 53)) with 53 by lia.
  cbv beta iota zeta.
  rewrite Z.shiftl_mul_pow2 by lia.
  destruct (Z.div_eucl (Zpos px * 2 ^ 53) (Zpos py)) as [q r] eqn:E.
  assert (Hq : q = Zpos px * 2 ^ 53 / Zpos py)
    by (unfold Z.div; rewrite E; reflexivity).
  assert (Hr : r = (Zpos px * 2 ^ 53) mod Zpos py)
    by (unfold Z.modulo; rewrite E; reflexivity).
  assert (Hqb : 2 ^ 52 <= q < 2 ^ 54).
  { rewrite Hq. split.
    - apply Z.div_le_lower_bound; lia.
    - apply Z.div_lt_upper_bound; lia. }
  destruct q as [|pq|pq]; try lia.
  exists pq, (new_location (Zpos py) r). cbn [xorb].
  split; [reflexivity|]. split.
  - rewrite Hq, Hr. apply new_location_cell; lia.
  - destruct (Z.lt_ge_cases (Zpos pq) (2 ^ 53)).
    + rewrite (digits2_pos_unique pq 53) by (change (53 - 1) with 52; lia). lia.
    + rewrite (digits2_pos_unique pq 54) by (change (54 - 1) with 53; lia). lia.
Qed.

(** Division by a normal number is monotone on normal numbers. *)
Lemma num_div_mono x mx ex x' mx' ex' y my ey :
  normal x mx ex -> normal x' mx' ex' -> normal y my ey ->
  normal_le mx ex mx' ex' ->
  -60 <= ex - ey <= 60 -> -60 <= ex' - ey <= 60 ->
  exists mo eo mo' eo',
    normal (num_div x y) mo eo /\ normal (num_div x' y) mo' eo'
    /\ normal_le mo eo mo' eo'
    /\ -120 <= eo <= 120 /\ -120 <= eo' <= 120.
Proof.
  intros Hx Hx' Hy Hle He He'.
  destruct (num_div_normal x mx ex y my ey Hx Hy He) as [q [l [Hdiv [Hcell Hd]]]].
  destruct (num_div_normal x' mx' ex' y my ey Hx' Hy He')
    as [q' [l' [Hdiv' [Hcell' Hd']]]].
  destruct Hx as [_ Hx]. destruct Hx' as [_ Hx']. destruct Hy as [_ Hy].
  assert (Hk : 0 <= ex' - ex) by (destruct Hle as [H|[H _]]; lia).
  assert (Hpk : 0 < 2 ^ (ex' - ex)) by (apply Z.pow_pos_nonneg; lia).
  assert (Hineq : mx * 2 ^ 53 * my <= mx' * 2 ^ 53 * my * 2 ^ (ex' - ex)).
  { assert (Hmm : mx <= mx' * 2 ^ (ex' - ex)).
    { destruct Hle as [Hlt | [Heq Hmm]].
      - assert (2 <= 2 ^ (ex' - ex)).
        { change 2 with (2 ^ 1) at 1. apply Z.pow_le_mono_r; lia. }
        nia.
      - replace (ex' - ex) with 0 by lia. cbn [Z.pow]. lia. }
    replace (mx * 2 ^ 53 * my) with (mx * (2 ^ 53 * my)) by ring.
    replace (mx' * 2 ^ 53 * my * 2 ^ (ex' - ex))
      with (mx' * 2 ^ (ex' - ex) * (2 ^ 53 * my)) by ring.
    apply Z.mul_le_mono_nonneg_r; lia. }
  destruct (binary_round_aux_mono q (ex - ey - 53) l (mx * 2 ^ 53) my
              q' l' (mx' * 2 ^ 53) my (ex' - ex)
              ltac:(lia) ltac:(lia) ltac:(lia) ltac:(lia) Hk Hcell Hcell' Hineq
              ltac:(lia) ltac:(lia) ltac:(lia) ltac:(lia))
    as [mo [eo [mo' [eo' [Hn [Hn' [Hle' [Heo Heo']]]]]]]].
  replace (ex - ey - 53 + (ex' - ex)) with (ex' - ey - 53) in * by lia.
  exists mo, eo, mo', eo'. rewrite Hdiv, Hdiv'.
  split; [exact Hn|]. split; [exact Hn'|]. split; [exact Hle'|]. lia.
Qed.

(** *** Multiplication by 100 *)

Lemma normal_inj x m e m' e' :
  normal x m e -> normal x m' e' -> m = m' /\ e = e'.
Proof.
  intros [-> Hm] [Heq Hm']. injection Heq as Hpos He.
  split; [|exact He]. apply Z2Pos.inj in Hpos; lia.
Qed.

Lemma hundred_normal : normal (num_of_nat 100) 7036874417766400 (-46).
Proof. split; [vm_compute; reflexivity | lia]. Qed.

Lemma num_mul_hundred x mx ex :
  normal x mx ex ->
  exists p,
    num_mul x (num_of_nat 100)
    = binary_round_aux prec emax false (Zpos p) (ex - 46) loc_Exact
    /\ Zpos p = mx * 7036874417766400
    /\ 105 <= Zpos (digits2_pos p) <= 106.
Proof.
  intros [-> Hm]. destruct mx as [|px|px]; try lia. cbn [Z.to_pos].
  exists (px * 7036874417766400)%positive.
  split; [|split].
  - change (num_of_nat 100) with (S754_finite false 7036874417766400 (-46)).
    unfold num_mul, SFmul. cbn [xorb]. f_equal.
  - rewrite Pos2Z.inj_mul. reflexivity.
  - assert (Hp : 2 ^ 104 <= Zpos (px * 7036874417766400) < 2 ^ 106)
      by (rewrite Pos2Z.inj_mul; lia).
    destruct (Z.lt_ge_cases (Zpos (px * 7036874417766400)) (2 ^ 105)).
    + rewrite (digits2_pos_unique _ 105) by (change (105 - 1) with 104; lia). lia.
    + rewrite (digits2_pos_unique _ 106) by (change (106 - 1) with 105; lia). lia.
Qed.

Lemma cell_integer p : 0 <= p -> cell p 1 = loc_code p loc_Exact.
Proof.
  intros Hp. unfold cell, loc_code. rewrite Z.div_1_r, Z.mod_1_r. reflexivity.
Qed.

(** Multiplication by 100 is monotone on normal numbers. *)
Lemma num_mul_hundred_mono x mx ex x' mx' ex' :
  normal x mx ex -> normal x' mx' ex' ->
  normal_le mx ex mx' ex' ->
  -200 <= ex <= 200 -> -200 <= ex' <= 200 ->
  exists mo eo mo' eo',
    normal (num_mul x (num_of_nat 100)) mo eo
    /\ normal (num_mul x' (num_of_nat 100)) mo' eo'
    /\ normal_le mo eo mo' eo'
    /\ -300 <= eo <= 300 /\ -300 <= eo' <= 300.
Proof.
  intros Hx Hx' Hle He He'.
  destruct (num_mul_hundred x mx ex Hx) as [p [Hmul [Hp Hd]]].
  destruct (num_mul_hundred x' mx' ex' Hx') as [p' [Hmul' [Hp' Hd']]].
  destruct Hx as [_ Hx]. destruct Hx' as [_ Hx'].
  assert (Hk : 0 <= ex' - ex) by (destruct Hle as [H|[H _]]; lia).
  assert (Hpk : 0 < 2 ^ (ex' - ex)) by (apply Z.pow_pos_nonneg; lia).
  assert (Hineq : Zpos p * 1 <= Zpos p' * 1 * 2 ^ (ex' - ex)).
  { rewrite Hp, Hp'.
    assert (Hmm : mx <= mx' * 2 ^ (ex' - ex)).
    { destruct Hle as [Hlt | [Heq Hmm]].
      - assert (2 <= 2 ^ (ex' - ex)).
        { change 2 with (2 ^ 1) at 1. apply Z.pow_le_mono_r; lia. }
        nia.
      - replace (ex' - ex) with 0 by lia. cbn [Z.pow]. lia. }
    replace (mx * 7036874417766400 * 1) with (mx * 7036874417766400) by ring.
    replace (mx' * 7036874417766400 * 1 * 2 ^ (ex' - ex))
      with (mx' * 2 ^ (ex' - ex) * 7036874417766400) by ring.
    apply Z.mul_le_mono_nonneg_r; lia. }
  destruct (binary_round_aux_mono p (ex - 46) loc_Exact (Zpos p) 1
              p' loc_Exact (Zpos p') 1 (ex' - ex)
              ltac:(lia) ltac:(lia) ltac:(lia) ltac:(lia) Hk
              (eq_sym (cell_integer (Zpos p) ltac:(lia)))
              (eq_sym (cell_integer (Zpos p') ltac:(lia))) Hineq
              ltac:(lia) ltac:(lia) ltac:(lia) ltac:(lia))
    as [mo [eo [mo' [eo' [Hn [Hn' [Hle' [Heo Heo']]]]]]]].
  replace (ex - 46 + (ex' - ex)) with (ex' - 46) in * by lia.
  exists mo, eo, mo', eo'. rewrite Hmul, Hmul'.
  split; [exact Hn|]. split; [exact Hn'|]. split; [exact Hle'|]. lia.
Qed.

(** *** [Math.round] *)

Lemma Math_round_normal x m e :
  normal x m e -> -400 <= e <= 400 ->
  Math_round x = binary_normalize prec emax (round_half m e) 0 false.
Proof.
  intros [-> Hm] He. destruct m as [|p|p]; try lia. cbn [Z.to_pos].
  unfold Math_round, round_half. cbn [cond_Zopp]. f_equal.
  destruct e as [|k|k].
  - cbn [Z.add]. rewrite Z.pow_0_r, Z.mul_1_r.
    apply (Z.div_unique _ _ _ (2 ^ 400)); [lia|].
    change (2 ^ 401) with (2 * 2 ^ 400). lia.
  - apply (Z.div_unique _ _ _ (2 ^ 400)); [lia|].
    rewrite Z.pow_add_r by lia. change (2 ^ 401) with (2 * 2 ^ 400). lia.
  - assert (Hk : Zpos k <= 400) by lia.
    assert (H400 : 2 ^ 400 = 2 ^ Zpos k * 2 ^ (400 - Zpos k))
      by (rewrite <- Z.pow_add_r by lia; f_equal; lia).
    assert (H401 : 2 ^ 401 = 2 ^ (Zpos k + 1) * 2 ^ (400 - Zpos k))
      by (rewrite <- Z.pow_add_r by lia; f_equal; lia).
    assert (Hpos : 0 < 2 ^ (400 - Zpos k)) by (apply Z.pow_pos_nonneg; lia).
    replace (Zneg k + 400) with (400 - Zpos k) by lia.
    rewrite H401.
    replace (2 * Zpos p * 2 ^ (400 - Zpos k) + 2 ^ 400)
      with ((2 * Zpos p + 2 ^ Zpos k) * 2 ^ (400 - Zpos k)) by (rewrite H400; ring).
    rewrite Z.div_mul_cancel_r; [reflexivity | | lia].
    apply Z.pow_nonzero; lia.
Qed.

Lemma round_half_mono m e m' e' :
  2 ^ 52 <= m < 2 ^ 53 -> 2 ^ 52 <= m' < 2 ^ 53 ->
  -400 <= e -> normal_le m e m' e' ->
  0 <= round_half m e <= round_half m' e'.
Proof.
  intros Hm Hm' He Hle. unfold round_half.
  assert (Hp : 0 < 2 ^ (e + 400)) by (apply Z.pow_pos_nonneg; lia).
  assert (Hle2 : m * 2 ^ (e + 400) <= m' * 2 ^ (e' + 400)).
  { destruct Hle as [Hlt | [<- Hmm]].
    - replace (e' + 400) with (e + 400 + (e' - e)) by lia.
      rewrite (Z.pow_add_r 2 (e + 400) (e' - e)) by lia.
      assert (2 <= 2 ^ (e' - e)).
      { change 2 with (2 ^ 1) at 1. apply Z.pow_le_mono_r; lia. }
      assert (m <= m' * 2 ^ (e' - e)) by nia.
      replace (m' * (2 ^ (e + 400) * 2 ^ (e' - e)))
        with (m' * 2 ^ (e' - e) * 2 ^ (e + 400)) by ring.
      apply Z.mul_le_mono_nonneg_r; lia.
    - apply Z.mul_le_mono_nonneg_r; lia. }
  split.
  - apply Z.div_pos; lia.
  - apply Z.div_le_mono; lia.
Qed.

(** *** The percentages never decrease *)

Lemma num_of_nat_normal_le i j :
  (1 <= i <= j)%nat -> Z.of_nat j < 2 ^ 53 ->
  exists m e m' e',
    normal (num_of_nat i) m e /\ normal (num_of_nat j) m' e'
    /\ normal_le m e m' e' /\ -52 <= e <= 0 /\ -52 <= e' <= 0.
Proof.
  intros Hij Hj.
  destruct (num_of_nat_normal i ltac:(lia) ltac:(lia)) as [m [e [Hn [He Hm]]]].
  destruct (num_of_nat_normal j ltac:(lia) Hj) as [m' [e' [Hn' [He' Hm']]]].
  exists m, e, m', e'. split; [exact Hn|]. split; [exact Hn'|].
  split; [|split; assumption].
  destruct Hn as [_ Hb]. destruct Hn' as [_ Hb'].
  unfold normal_le.
  destruct (Z.lt_trichotomy e e') as [H|[H|H]]; [left; exact H | right | exfalso].
  - split; [exact H|]. subst e'. rewrite Hm, Hm'.
    apply Z.mul_le_mono_nonneg_r; [apply Z.pow_nonneg|]; lia.
  - assert (Hs : 2 ^ (- e') = 2 ^ (- e) * 2 ^ (e - e'))
      by (rewrite <- Z.pow_add_r by lia; f_equal; lia).
    assert (2 <= 2 ^ (e - e')).
    { change 2 with (2 ^ 1) at 1. apply Z.pow_le_mono_r; lia. }
    assert (0 < 2 ^ (- e)) by (apply Z.pow_pos_nonneg; lia).
    assert (Z.of_nat i * 2 ^ (- e) <= Z.of_nat j * 2 ^ (- e))
      by (apply Z.mul_le_mono_nonneg_r; lia).
    nia.
Qed.

(** The numbers of the integers are ordered as the integers. *)
Lemma num_of_nat_mono i j :
  (i <= j)%nat -> Z.of_nat j < 2 ^ 53 ->
  SFleb (num_of_nat i) (num_of_nat j) = true.
Proof.
  intros Hij Hj.
  destruct i as [|i].
  - change (num_of_nat 0) with (S754_zero false).
    destruct j as [|j]; [reflexivity|].
    destruct (num_of_nat_normal (S j) ltac:(lia) Hj) as [m [e [[-> _] _]]].
    reflexivity.
  - destruct (num_of_nat_normal_le (S i) j ltac:(lia) Hj)
      as [m [e [m' [e' [Hn [Hn' [Hle _]]]]]]].
    exact (normal_le_leb _ m e _ m' e' Hn Hn' Hle).
Qed.

Lemma binary_normalize_num_of_nat z :
  0 <= z -> binary_normalize prec emax z 0 false = num_of_nat (Z.to_nat z).
Proof. intros Hz. unfold num_of_nat. rewrite Z2Nat.id by exact Hz. reflexivity. Qed.

(** The quotient, times 100, of two page numbers: a normal number, which
    grows with the numerator and is at most 100. *)
Lemma scaled_ratio_mono i j n :
  (1 <= i <= j)%nat -> (j <= n)%nat -> Z.of_nat n < 2 ^ 53 ->
  exists m e m' e',
    normal (num_mul (num_div (num_of_nat i) (num_of_nat n)) (num_of_nat 100)) m e
    /\ normal (num_mul (num_div (num_of_nat j) (num_of_nat n)) (num_of_nat 100))
              m' e'
    /\ normal_le m e m' e'
    /\ -300 <= e <= 300 /\ -300 <= e' <= 300.
Proof.
  intros Hij Hjn Hn.
  destruct (num_of_nat_normal_le i j Hij ltac:(lia))
    as [mi [ei [mj [ej [Hni [Hnj [Hle [Hei Hej]]]]]]]].
  destruct (num_of_nat_normal n ltac:(lia) Hn) as [mn [en [Hnn [Hen _]]]].
  destruct (num_div_mono _ mi ei _ mj ej _ mn en Hni Hnj Hnn Hle
              ltac:(lia) ltac:(lia))
    as [di [fi [dj [fj [Hdi [Hdj [Hdle [Hfi Hfj]]]]]]]].
  destruct (num_mul_hundred_mono _ di fi _ dj fj Hdi Hdj Hdle
              ltac:(lia) ltac:(lia))
    as [m [e [m' [e' H]]]].
  exists m, e, m', e'. exact H.
Qed.

Lemma scaled_ratio_full n :
  (1 <= n)%nat -> Z.of_nat n < 2 ^ 53 ->
  num_mul (num_div (num_of_nat n) (num_of_nat n)) (num_of_nat 100)
  = num_of_nat 100.
Proof.
  intros Hpos Hn.
  destruct (num_of_nat_finite n Hpos Hn) as [m [e ->]].
  rewrite num_div_self. vm_compute. reflexivity.
Qed.

(** [Math.round((pageIndex / totalPages) * 100)] never decreases as
    [pageIndex] grows. *)
Lemma progress_percent_mono i j n :
  (1 <= i <= j)%nat -> (j <= n)%nat -> Z.of_nat n < 2 ^ 53 ->
  SFleb (progress_percent i n) (progress_percent j n) = true.
Proof.
  intros Hij Hjn Hn. unfold progress_percent.
  destruct (scaled_ratio_mono i j n Hij Hjn Hn)
    as [m [e [m' [e' [Hm [Hm' [Hle [He He']]]]]]]].
  destruct (scaled_ratio_mono j n n ltac:(lia) ltac:(lia) Hn)
    as [m2 [e2 [m3 [e3 [Hm2 [Hm3 [Hle2 [He2 He3]]]]]]]].
  rewrite (scaled_ratio_full n ltac:(lia) Hn) in Hm3.
  destruct (normal_inj _ _ _ _ _ Hm3 hundred_normal) as [-> ->].
  destruct (normal_inj _ _ _ _ _ Hm2 Hm') as [-> ->].
  rewrite (Math_round_normal _ m e Hm ltac:(lia)).
  rewrite (Math_round_normal _ m' e' Hm' ltac:(lia)).
  destruct Hm as [_ Hb]. destruct Hm' as [_ Hb'].
  pose proof (round_half_mono m e m' e' Hb Hb' ltac:(lia) Hle) as H1.
  pose proof (round_half_mono m' e' 7036874417766400 (-46) Hb' ltac:(lia)
                ltac:(lia) Hle2) as H2.
  change (round_half 7036874417766400 (-46)) with 100 in H2.
  rewrite !binary_normalize_num_of_nat by lia.
  apply num_of_nat_mono; [apply Z2Nat.inj_le; lia|].
  rewrite Z2Nat.id by lia. lia.
Qed.

Close Scope Z_scope.

Lemma non_decreasing_map_seq (f : nat -> number) len :
  forall start,
    (forall i, start <= i -> S i < start + len ->
               num_leb (f i) (f (S i)) = true) ->
    non_decreasing (map f (seq start len)) = true.
Proof.
  induction len as [|len IH]; intros start Hstep; [reflexivity|].
  destruct len as [|len]; [reflexivity|].
  change (map f (seq start (S (S len))))
    with (f start :: map f (seq (S start) (S len))).
  change (map f (seq (S start) (S len)))
    with (f (S start) :: map f (seq (S (S start)) len)) at 1.
  cbn [non_decreasing].
  change (f (S start) :: map f (seq (S (S start)) len))
    with (map f (seq (S start) (S len))).
  rewrite Hstep by lia. cbn [andb].
  apply IH. intros i Hi Hlt. apply Hstep; lia.
Qed.

(** For every number of pages below [2 ^ 53] the percentages never
    decrease. *)
Lemma percentages_non_decreasing n :
  (Z.of_nat n < 2 ^ 53)%Z -> non_decreasing (percentages n) = true.
Proof.
  intros Hn. unfold percentages. apply non_decreasing_map_seq.
  intros i Hi Hlt. apply progress_percent_mono; lia.
Qed.

Lemma percentages_last n :
  1 <= n -> (Z.of_nat n < 2 ^ 53)%Z ->
  last (percentages n) (num_of_nat 0) = num_of_nat 100.
Proof.
  intros Hpos Hsmall. unfold percentages.
  assert (Hseq : seq 1 n = seq 1 (n - 1) ++ [n]).
  { replace n with ((n - 1) + 1) at 1 by lia.
    rewrite seq_app. cbn [seq]. replace (1 + (n - 1)) with n by lia.
    reflexivity. }
  rewrite Hseq, map_app. cbn [map]. rewrite last_last.
  apply progress_percent_last; assumption.
Qed.

(** Up to 100 pages the percentages are strictly increasing. *)
Lemma percentages_increasing_upto_100 :
  forallb (fun n => increasing (percentages n)) (seq 0 101) = true.
Proof. vm_compute. reflexivity. Qed.

Lemma turn_trace_filtered pdf callback total i :
  filter is_page_or_progress (turn_trace pdf (Some callback) total i)
  = [EvGetPage i; EvProgress (progress_percent i total)].
Proof.
  unfold turn_trace, page_trace. destruct (page_outcome pdf i); reflexivity.
Qed.

Lemma turn_trace_progress_events pdf callback total i :
  filter is_progress (turn_trace pdf (Some callback) total i)
  = [EvProgress (progress_percent i total)].
Proof.
  unfold turn_trace, page_trace. destruct (page_outcome pdf i); reflexivity.
Qed.

Lemma filter_flat_map {A B} (f : B -> bool) (g : A -> list B) l :
  filter f (flat_map g l) = flat_map (fun a => filter f (g a)) l.
Proof.
  induction l as [|a l IH]; [reflexivity|].
  cbn. rewrite filter_app, IH. reflexivity.
Qed.

Lemma flat_map_singleton {A B} (g : A -> B) l :
  flat_map (fun a => [g a]) l = map g l.
Proof. induction l as [|a l IH]; [reflexivity|]. cbn. rewrite IH. reflexivity. Qed.

(** C3, as the code has it. For a document of N pages and a callback that
    does not throw, [extractPdfText] calls [onProgress] exactly N times,
    once after each page is requested, whether its text could be read or
    not, with [Math.round((pageIndex / totalPages) * 100)]; the values never
    decrease, they are strictly increasing when N is at most 100, and the
    last value is 100 (N being below [2 ^ 53], where page numbers are
    exact). *)
Theorem progress_reports env file callback w w1 pdf :
  open_phase env file w = (w1, Ok pdf) ->
  never_throws (Some callback) ->
  exists evs r,
    extractPdfText env file (Some callback) w = (extend evs w1, Ok r)
    /\ filter is_page_or_progress evs
       = flat_map (fun i => [EvGetPage i;
                             EvProgress (progress_percent i (numPages pdf))])
                  (seq 1 (numPages pdf))
    /\ filter is_progress evs = map EvProgress (percentages (numPages pdf))
    /\ length (percentages (numPages pdf)) = numPages pdf
    /\ ((Z.of_nat (numPages pdf) < 2 ^ 53)%Z ->
        non_decreasing (percentages (numPages pdf)) = true)
    /\ (numPages pdf <= 100 -> increasing (percentages (numPages pdf)) = true)
    /\ (1 <= numPages pdf -> (Z.of_nat (numPages pdf) < 2 ^ 53)%Z ->
        last (percentages (numPages pdf)) (num_of_nat 0) = num_of_nat 100).
Proof.
  intros Hopen Hquiet.
  exists (extraction_trace pdf (Some callback)), (document_result pdf file).
  split; [apply (extractPdfText_quiet _ _ _ _ _ _ Hopen Hquiet)|].
  unfold extraction_trace. rewrite !filter_app. cbn [filter is_page_or_progress
    is_getPage is_progress orb]. rewrite !app_nil_r, !filter_flat_map.
  split; [|split; [|split; [|split; [|split]]]].
  - apply flat_map_ext. intros i. apply turn_trace_filtered.
  - unfold percentages. rewrite map_map, <- flat_map_singleton.
    apply flat_map_ext. intros i. apply turn_trace_progress_events.
  - unfold percentages. rewrite length_map, length_seq. reflexivity.
  - apply percentages_non_decreasing.
  - intros Hsmall.
    pose proof percentages_increasing_upto_100 as Hall.
    rewrite forallb_forall in Hall. apply Hall. apply in_seq. lia.
  - apply percentages_last.
Qed.

Lemma progress_reports_witness :
  exists evs r,
    extractPdfText (env_opening sample_pdf) sample_file (Some silent_callback)
                   sample_world
    = (extend evs (extend [EvArrayBuffer; EvGetDocument] sample_world), Ok r)
    /\ filter is_page_or_progress evs
       = [EvGetPage 1; EvProgress (progress_percent 1 2);
          EvGetPage 2; EvProgress (progress_percent 2 2)]
    /\ filter is_progress evs = map EvProgress (percentages 2)
    /\ length (percentages 2) = 2
    /\ non_decreasing (percentages 2) = true
    /\ increasing (percentages 2) = true
    /\ last (percentages 2) (num_of_nat 0) = num_of_nat 100.
Proof.
  destruct (progress_reports (env_opening sample_pdf) sample_file silent_callback
              sample_world (extend [EvArrayBuffer; EvGetDocument] sample_world)
              sample_pdf)
    as [evs [r [Hrun [Hturns [Hvalues [Hlen [Hmono [Hinc Hlast]]]]]]]].
  - reflexivity.
  - intros n v. reflexivity.
  - exists evs, r. split; [exact Hrun|]. split; [exact Hturns|].
    split; [exact Hvalues|]. split; [exact Hlen|]. split; [|split].
    + apply Hmono. cbn. lia.
    + apply Hinc. cbn. lia.
    + apply Hlast; cbn; lia.
Defined.

(** C3 as stated fails: with 101 pages the callback receives 50 after page
    50 and again after page 51, so the values are not strictly increasing. *)
Lemma progress_repeats_with_101_pages :
  exists w' r,
    extractPdfText (env_opening (blank_pdf 101)) sample_file
                   (Some silent_callback) sample_world = (w', Ok r)
    /\ filter is_progress (log w') = map EvProgress (percentages 101)
    /\ nth_error (percentages 101) 49 = Some (num_of_nat 50)
    /\ nth_error (percentages 101) 50 = Some (num_of_nat 50)
    /\ increasing (percentages 101) = false.
Proof.
  eexists. eexists. split; [vm_compute; reflexivity|].
  repeat split; vm_compute; reflexivity.
Qed.
(* ===================================================================== *)
(** ** The text of a page, word by word *)
(* ===================================================================== *)

Lemma trim_start_collapse b s :
  trim_start (collapse_from b s) = collapse_from true s.
Proof.
  revert b. induction s as [|c r IH]; intros b; simpl; [reflexivity|].
  destruct (is_space c) eqn:Hc.
  - destruct b; simpl; apply IH.
  - simpl. rewrite Hc. reflexivity.
Qed.

Lemma join_space_cons w ws :
  ws <> [] -> join_space (w :: ws) = w ++ 32%N :: join_space ws.
Proof. destruct ws; [congruence | reflexivity]. Qed.

(** After the leading white space is gone, collapsing leaves the words
    joined by single spaces, and at most one space after them. *)
Lemma collapse_words s :
  forall word,
    exists tail,
      (tail = [] \/ tail = [32%N])
      /\ (words_from word s = [] -> tail = [])
      /\ word ++ collapse_from (negb (nonempty word)) s
         = join_space (words_from word s) ++ tail.
Proof.
  induction s as [|c r IH]; intros word.
  - exists []. simpl. destruct word; simpl; rewrite ?app_nil_r; auto.
  - simpl. destruct (is_space c) eqn:Hc.
    + destruct (IH []) as (tail & Ht & Hn & He). simpl in He.
      destruct word as [|a word']; simpl.
      * exists tail. auto.
      * destruct (words_from [] r) as [|w1 ws] eqn:Hw.
        -- exists [32%N]. rewrite (Hn eq_refl) in He. simpl in He.
           rewrite He. split; [auto|]. split; [discriminate|].
           simpl. reflexivity.
        -- exists tail. split; [exact Ht|]. split; [discriminate|].
           rewrite He. simpl. rewrite <- app_assoc. reflexivity.
    + destruct (IH (word ++ [c])) as (tail & Ht & Hn & He).
      exists tail. split; [exact Ht|]. split; [exact Hn|].
      rewrite <- He.
      replace (nonempty (word ++ [c])) with true by (destruct word; reflexivity).
      simpl. rewrite <- app_assoc.
      destruct word; reflexivity.
Qed.

Lemma words_from_are_words s :
  forall word,
    Forall (fun c => is_space c = false) word ->
    Forall is_word (words_from word s).
Proof.
  induction s as [|c r IH]; intros word Hword; simpl.
  - destruct word; simpl; constructor; [|constructor].
    split; [discriminate | exact Hword].
  - destruct (is_space c) eqn:Hc.
    + apply Forall_app. split; [|apply IH; constructor].
      destruct word; simpl; constructor; [|constructor].
      split; [discriminate | exact Hword].
    + apply IH. apply Forall_app. split; [exact Hword|].
      constructor; [exact Hc | constructor].
Qed.

Lemma words_are_words s : Forall is_word (words s).
Proof. apply words_from_are_words. constructor. Qed.

(** A text made of words joined by spaces ends with a code unit that is not
    white space. *)
Lemma join_words_last ws :
  Forall is_word ws -> ws <> [] ->
  exists c l, rev (join_space ws) = c :: l /\ is_space c = false.
Proof.
  induction ws as [|w ws IH]; intros Hall Hne; [congruence|].
  inversion Hall as [|? ? [Hw Hs] Hrest]; subst.
  destruct ws as [|w' ws'].
  - simpl. destruct (exists_last Hw) as (l & c & ->).
    rewrite rev_app_distr. simpl. exists c, (rev l). split; [reflexivity|].
    apply Forall_app in Hs as [_ Hc]. inversion Hc; assumption.
  - destruct (IH Hrest ltac:(discriminate)) as (c & l & He & Hc).
    rewrite join_space_cons by discriminate.
    remember (join_space (w' :: ws')) as rest.
    rewrite rev_app_distr. cbn [rev]. rewrite He. simpl.
    eexists _, _. split; [reflexivity | exact Hc].
Qed.

Lemma join_words_first ws :
  Forall is_word ws -> trim_start (join_space ws) = join_space ws.
Proof.
  intros Hall. destruct ws as [|w ws]; [reflexivity|].
  inversion Hall as [|? ? [Hw Hs] Hrest]; subst.
  destruct w as [|c w]; [congruence|].
  inversion Hs; subst.
  destruct ws; simpl; rewrite H1; reflexivity.
Qed.

(** [trim] and the collapse of white space leave the words of the text,
    joined by single spaces. *)
Lemma normalise_words s :
  trim (collapse_spaces s) = join_space (words s).
Proof.
  unfold trim, collapse_spaces. rewrite trim_start_collapse.
  destruct (collapse_words s []) as (tail & Ht & Hn & He).
  simpl in He. fold (words s) in He, Hn. rewrite He.
  assert (Hlast : trim_start (rev (join_space (words s)))
                  = rev (join_space (words s))).
  { destruct (words s) as [|w ws] eqn:Hw; [reflexivity|].
    destruct (join_words_last (w :: ws)) as (c & l & Hr & Hc).
    - rewrite <- Hw. apply words_are_words.
    - discriminate.
    - rewrite Hr. simpl. rewrite Hc. reflexivity. }
  destruct Ht as [-> | ->].
  - rewrite app_nil_r, Hlast. apply rev_involutive.
  - rewrite rev_app_distr. simpl. rewrite Hlast. apply rev_involutive.
Qed.

Lemma words_from_sep a :
  forall word b,
    words_from word (a ++ 32%N :: b) = words_from word a ++ words_from [] b.
Proof.
  induction a as [|c a IH]; intros word b; simpl.
  - reflexivity.
  - destruct (is_space c).
    + rewrite IH, app_assoc. reflexivity.
    + apply IH.
Qed.

Lemma words_join parts :
  words (join_space parts) = concat (map words parts).
Proof.
  induction parts as [|s parts IH]; [reflexivity|].
  destruct parts as [|s' parts'].
  - simpl. rewrite app_nil_r. reflexivity.
  - rewrite join_space_cons by discriminate.
    unfold words at 1. rewrite words_from_sep. fold (words s).
    fold (words (join_space (s' :: parts'))). rewrite IH. reflexivity.
Qed.

Lemma page_text_words items :
  trim (collapse_spaces (join_space (map item_text items)))
  = join_space (page_words items).
Proof.
  rewrite normalise_words, words_join, map_map. reflexivity.
Qed.

Lemma nonempty_join_words ws :
  Forall is_word ws -> (nonempty (join_space ws) = true <-> ws <> []).
Proof.
  intros Hall. destruct ws as [|w ws].
  - simpl. split; [discriminate | congruence].
  - inversion Hall as [|? ? [Hw _] _]; subst.
    destruct w; [congruence|].
    split; [discriminate|]. intros _. destruct ws; reflexivity.
Qed.

Lemma page_words_are_words items : Forall is_word (page_words items).
Proof.
  unfold page_words. induction items as [|item items IH]; simpl.
  - constructor.
  - apply Forall_app. split; [apply words_are_words | exact IH].
Qed.

Lemma words_from_nil s :
  forall word,
    words_from word s = [] <-> word = [] /\ Forall (fun c => is_space c = true) s.
Proof.
  induction s as [|c r IH]; intros word; simpl.
  - destruct word; simpl; split.
    + auto.
    + reflexivity.
    + discriminate.
    + intros [? _]. discriminate.
  - destruct (is_space c) eqn:Hc.
    + destruct word; simpl.
      * rewrite IH. split.
        -- intros [_ H]. split; [reflexivity|]. constructor; assumption.
        -- intros [_ H]. inversion H; subst. auto.
      * split; [discriminate|]. intros [? _]. discriminate.
    + rewrite IH. split.
      * intros [H _]. destruct word; discriminate.
      * intros [_ H]. inversion H; subst. congruence.
Qed.

Lemma page_words_nonempty items :
  page_words items <> [] <->
  exists item c, In item items /\ In c (item_text item) /\ is_space c = false.
Proof.
  unfold page_words. induction items as [|item items IH]; simpl.
  - split; [congruence|]. intros (? & ? & [] & _).
  - destruct (words (item_text item)) as [|w ws] eqn:Hw.
    + simpl. rewrite IH.
      apply words_from_nil in Hw as [_ Hall]. rewrite Forall_forall in Hall.
      split.
      * intros (it & c & Hin & Hc & Hs). exists it, c. auto.
      * intros (it & c & [<- | Hin] & Hc & Hs).
        -- rewrite (Hall c Hc) in Hs. discriminate.
        -- exists it, c. auto.
    + simpl. split; [intros _ | discriminate].
      destruct (Forall_Exists_dec (fun c => is_space c = true)
                  (fun c => bool_dec (is_space c) true) (item_text item))
        as [Hall | Hex].
      * assert (words (item_text item) = []) by (apply words_from_nil; auto).
        congruence.
      * apply Exists_exists in Hex as (c & Hc & Hs).
        exists item, c. split; [auto|]. split; [exact Hc|].
        destruct (is_space c); congruence.
Qed.

(** A result of the extractor is the Document Result of the document that
    was opened. *)
Lemma extracted_document env file cb w w' r :
  extractPdfText env file cb w = (w', Ok r) ->
  exists w1 pdf,
    open_phase env file w = (w1, Ok pdf) /\ r = document_result pdf file.
Proof.
  intros H. apply extractPdfText_inv in H as (w1 & pdf & Hopen & Hrun).
  exists w1, pdf. split; [exact Hopen|].
  eapply extract_from_result. exact Hrun.
Qed.

Lemma page_result_words pdf k items :
  page_outcome pdf k = Ok items ->
  page_result pdf k
  = {| index := k - 1;
       text := join_space (page_words items);
       hasTextContent := nonempty (join_space (page_words items));
       error := None |}.
Proof.
  intros H. unfold page_result. rewrite H, page_text_words. reflexivity.
Qed.

(** X1. The text of a page whose retrieval succeeds is the sequence of the
    words of its items' strings (the maximal runs without white space, item
    after item), joined by single spaces; an item without [str] contributes
    nothing, and [hasTextContent] tells whether that text is not empty. *)
Theorem page_text_is_its_words env file cb w w' r :
  extractPdfText env file cb w = (w', Ok r) ->
  exists w1 pdf,
    open_phase env file w = (w1, Ok pdf)
    /\ forall k items,
         1 <= k <= numPages pdf ->
         page_outcome pdf k = Ok items ->
         nth_error (pages r) (k - 1)
         = Some {| index := k - 1;
                   text := join_space (page_words items);
                   hasTextContent := nonempty (join_space (page_words items));
                   error := None |}.
Proof.
  intros H. apply extracted_document in H as (w1 & pdf & Hopen & ->).
  exists w1, pdf. split; [exact Hopen|].
  intros k items Hk Hout.
  rewrite nth_error_pages by exact Hk.
  rewrite (page_result_words _ _ _ Hout). reflexivity.
Qed.

Lemma page_text_is_its_words_witness :
  exists w1 pdf,
    open_phase (env_opening sample_pdf) sample_file sample_world = (w1, Ok pdf)
    /\ forall k items,
         1 <= k <= numPages pdf ->
         page_outcome pdf k = Ok items ->
         nth_error (pages (document_result sample_pdf sample_file)) (k - 1)
         = Some {| index := k - 1;
                   text := join_space (page_words items);
                   hasTextContent := nonempty (join_space (page_words items));
                   error := None |}.
Proof.
  apply (page_text_is_its_words (env_opening sample_pdf) sample_file None
           sample_world
           (extend (extraction_trace sample_pdf None)
                   (extend [EvArrayBuffer; EvGetDocument] sample_world))).
  vm_compute. reflexivity.
Defined.

(** X2. A page whose retrieval succeeds has [hasTextContent] true exactly
    when the string of one of its items holds a code unit that is not white
    space. *)
Theorem page_has_text_iff env file cb w w' r :
  extractPdfText env file cb w = (w', Ok r) ->
  exists w1 pdf,
    open_phase env file w = (w1, Ok pdf)
    /\ forall k items pg,
         1 <= k <= numPages pdf ->
         page_outcome pdf k = Ok items ->
         nth_error (pages r) (k - 1) = Some pg ->
         (hasTextContent pg = true <->
          exists item c,
            In item items /\ In c (item_text item) /\ is_space c = false).
Proof.
  intros H. apply extracted_document in H as (w1 & pdf & Hopen & ->).
  exists w1, pdf. split; [exact Hopen|].
  intros k items pg Hk Hout Hpg.
  rewrite nth_error_pages in Hpg by exact Hk.
  rewrite (page_result_words _ _ _ Hout) in Hpg.
  injection Hpg as <-. simpl.
  rewrite nonempty_join_words by apply page_words_are_words.
  apply page_words_nonempty.
Qed.

Lemma page_has_text_iff_witness :
  exists w1 pdf,
    open_phase (env_opening sample_pdf) sample_file sample_world = (w1, Ok pdf)
    /\ forall k items pg,
         1 <= k <= numPages pdf ->
         page_outcome pdf k = Ok items ->
         nth_error (pages (document_result sample_pdf sample_file)) (k - 1)
         = Some pg ->
         (hasTextContent pg = true <->
          exists item c,
            In item items /\ In c (item_text item) /\ is_space c = false).
Proof.
  apply (page_has_text_iff (env_opening sample_pdf) sample_file None
           sample_world
           (extend (extraction_trace sample_pdf None)
                   (extend [EvArrayBuffer; EvGetDocument] sample_world))).
  vm_compute. reflexivity.
Defined.

Lemma single_spaced_word w rest :
  Forall (fun c => is_space c = false) w ->
  single_spaced (w ++ rest) = single_spaced rest.
Proof.
  induction 1 as [|c w Hc _ IH]; [reflexivity|].
  simpl. rewrite Hc. exact IH.
Qed.

Lemma single_spaced_join ws :
  Forall is_word ws -> single_spaced (join_space ws) = true.
Proof.
  induction ws as [|w ws IH]; intros Hall; [reflexivity|].
  inversion Hall as [|? ? [Hw Hs] Hrest]; subst.
  destruct ws as [|w' ws'].
  - simpl. rewrite <- (app_nil_r w). rewrite single_spaced_word by exact Hs.
    reflexivity.
  - rewrite join_space_cons by discriminate.
    rewrite single_spaced_word by exact Hs.
    specialize (IH Hrest).
    pose proof (join_words_first _ Hrest) as Hfirst.
    remember (join_space (w' :: ws')) as rest.
    assert (Hne : nonempty rest = true).
    { subst rest. apply nonempty_join_words; [exact Hrest | discriminate]. }
    destruct rest as [|c rest']; [discriminate|].
    simpl in Hfirst. cbn [single_spaced].
    destruct (is_space c) eqn:Hc.
    + exfalso. clear - Hfirst.
      assert (length (trim_start rest') <= length rest').
      { clear. induction rest' as [|a l IHl]; simpl; [lia|].
        destruct (is_space a); simpl; lia. }
      rewrite Hfirst in H. simpl in H. lia.
    + simpl in IH. rewrite Hc in IH. simpl in IH. simpl. exact IH.
Qed.

Lemma trim_join ws : Forall is_word ws -> trim (join_space ws) = join_space ws.
Proof.
  intros Hall. unfold trim. rewrite (join_words_first _ Hall).
  destruct ws as [|w ws]; [reflexivity|].
  destruct (join_words_last _ Hall) as (c & l & Hr & Hc); [discriminate|].
  rewrite Hr. simpl. rewrite Hc, <- Hr. apply rev_involutive.
Qed.

Lemma page_result_text pdf k :
  exists ws, Forall is_word ws /\ text (page_result pdf k) = join_space ws.
Proof.
  unfold page_result. destruct (page_outcome pdf k) as [items|err]; simpl.
  - exists (page_words items). split; [apply page_words_are_words|].
    apply page_text_words.
  - exists []. split; [constructor | reflexivity].
Qed.

(** X3. The text of every Page Result is in normal form: it neither begins
    nor ends with white space, and every white-space code unit in it is a
    space U+0020 that is not followed by white space. *)
Theorem page_text_normal_form env file cb w w' r :
  extractPdfText env file cb w = (w', Ok r) ->
  forall pg,
    In pg (pages r) ->
    trim (text pg) = text pg /\ single_spaced (text pg) = true.
Proof.
  intros H pg Hin. apply extracted_document in H as (w1 & pdf & _ & ->).
  simpl in Hin. apply in_map_iff in Hin as (k & <- & _).
  destruct (page_result_text pdf k) as (ws & Hws & ->).
  split; [apply trim_join | apply single_spaced_join]; exact Hws.
Qed.

Lemma page_text_normal_form_witness :
  trim (text (page_result sample_pdf 1)) = text (page_result sample_pdf 1)
  /\ single_spaced (text (page_result sample_pdf 1)) = true.
Proof.
  apply (page_text_normal_form (env_opening sample_pdf) sample_file None
           sample_world
           (extend (extraction_trace sample_pdf None)
                   (extend [EvArrayBuffer; EvGetDocument] sample_world))
           (document_result sample_pdf sample_file)).
  - vm_compute. reflexivity.
  - simpl. left. reflexivity.
Defined.

(* ===================================================================== *)
(** ** The lines and candidates of [harvestTables] *)
(* ===================================================================== *)

Lemma cut_lines_from_no_newline s :
  forall mode b line,
    Forall (fun c => is_newline c = false) line ->
    Forall (Forall (fun c => is_newline c = false))
           (cut_lines_from mode b line s).
Proof.
  induction s as [|c r IH]; intros mode b line Hline; simpl.
  - constructor; [exact Hline | constructor].
  - destruct mode.
    + destruct (b && is_space c).
      * constructor; [exact Hline|]. apply IH. constructor.
      * destruct (is_newline c) eqn:Hc.
        -- constructor; [exact Hline|]. apply IH. constructor.
        -- apply IH. apply Forall_app. split; [exact Hline|].
           constructor; [exact Hc | constructor].
    + destruct (is_space c) eqn:Hc.
      * apply IH. constructor.
      * apply IH. constructor; [|constructor].
        destruct (is_newline c) eqn:Hn; [|reflexivity].
        apply is_newline_space in Hn. congruence.
    + destruct (is_newline c) eqn:Hc.
      * apply IH. constructor.
      * apply IH. constructor; [exact Hc | constructor].
Qed.

Lemma cut_lines_from_occurs s :
  forall mode b line before l,
    In l (cut_lines_from mode b line s) ->
    (mode = InLine \/ line = []) ->
    occurs_in l (before ++ line ++ s).
Proof.
  induction s as [|c r IH]; intros mode b line before l Hin Hmode; simpl in Hin.
  - destruct Hin as [<- | []]. exists before, []. reflexivity.
  - assert (Hskip : forall b',
              In l (cut_lines_from InLine b' [c] r) ->
              line = [] -> occurs_in l (before ++ line ++ c :: r)).
    { intros b' H ->. apply (IH InLine b' [c] before l H). auto. }
    assert (Hdrop : forall m,
              In l (cut_lines_from m false [] r) ->
              occurs_in l (before ++ line ++ c :: r)).
    { intros m H.
      replace (before ++ line ++ c :: r)
        with ((before ++ line ++ [c]) ++ [] ++ r)
        by (rewrite <- !app_assoc; reflexivity).
      apply (IH m false [] _ l H). auto. }
    destruct mode.
    + destruct (b && is_space c).
      * destruct Hin as [<- | Hin]; [|eauto].
        exists before, (c :: r). reflexivity.
      * destruct (is_newline c).
        -- destruct Hin as [<- | Hin]; [|eauto].
           exists before, (c :: r). reflexivity.
        -- replace (before ++ line ++ c :: r)
             with (before ++ (line ++ [c]) ++ r)
             by (rewrite <- !app_assoc; reflexivity).
           apply (IH InLine (is_period c) _ before l Hin). auto.
    + destruct Hmode as [? | Hline]; [discriminate|].
      destruct (is_space c); eauto.
    + destruct Hmode as [? | Hline]; [discriminate|].
      destruct (is_newline c); eauto.
Qed.

Lemma cut_lines_from_without_spaces s :
  forall mode b line,
    (mode = InLine \/ line = []) ->
    without_spaces (concat (cut_lines_from mode b line s))
    = without_spaces (line ++ s).
Proof.
  unfold without_spaces.
  induction s as [|c r IH]; intros mode b line Hmode; simpl.
  - rewrite !app_nil_r. reflexivity.
  - assert (Hcut : is_space c = true ->
              forall m,
                filter (fun c => negb (is_space c))
                       (line ++ concat (cut_lines_from m false [] r))
                = filter (fun c => negb (is_space c)) (line ++ c :: r)).
    { intros Hc m. rewrite !filter_app. simpl. rewrite Hc. simpl.
      rewrite (IH m false []) by auto. reflexivity. }
    assert (Hkeep : forall b',
              filter (fun c => negb (is_space c))
                     (concat (cut_lines_from InLine b' (line ++ [c]) r))
              = filter (fun c => negb (is_space c)) (line ++ c :: r)).
    { intros b'. rewrite (IH InLine b' (line ++ [c])) by auto.
      rewrite <- app_assoc. reflexivity. }
    destruct mode.
    + destruct (b && is_space c) eqn:Hb.
      * apply andb_true_iff in Hb as [_ Hc]. simpl. auto.
      * destruct (is_newline c) eqn:Hn.
        -- simpl. apply Hcut. apply is_newline_space. exact Hn.
        -- apply Hkeep.
    + destruct Hmode as [? | ->]; [discriminate|].
      specialize (Hkeep (is_period c)). cbn [app] in Hcut, Hkeep |- *.
      destruct (is_space c) eqn:Hc.
      * apply (Hcut eq_refl InSpaces).
      * exact Hkeep.
    + destruct Hmode as [? | ->]; [discriminate|].
      specialize (Hkeep (is_period c)). cbn [app] in Hcut, Hkeep |- *.
      destruct (is_newline c) eqn:Hc.
      * apply (Hcut (is_newline_space _ Hc) InNewlines).
      * exact Hkeep.
Qed.

(** On Page Results the harvester returns, and what it returns is one
    candidate per selected line. *)
Lemma harvestTables_on_pages pages :
  harvestTables (map js_of_page pages) = Ok (spec_harvest pages).
Proof.
  unfold harvestTables. rewrite filter_r_pages. simpl.
  rewrite map_r_pages. simpl. unfold spec_harvest.
  rewrite flat_map_concat_map. reflexivity.
Qed.

(** X4. Every candidate the harvester returns for Page Results comes from a
    page whose [hasTextContent] is true: its [page] is that page's index,
    and its [content] is a run of consecutive code units of that page's
    text, holds a digit and a colon or comma, and holds no newline. *)
Theorem candidates_come_from_the_text pages :
  exists candidates,
    harvestTables (map js_of_page pages) = Ok candidates
    /\ forall c,
         In c candidates ->
         exists pg,
           In pg pages
           /\ hasTextContent pg = true
           /\ page c = VNum (num_of_nat (index pg))
           /\ occurs_in (content c) (text pg)
           /\ is_table_line (content c) = true
           /\ Forall (fun u => is_newline u = false) (content c).
Proof.
  exists (spec_harvest pages). split; [apply harvestTables_on_pages|].
  intros c Hc. unfold spec_harvest in Hc.
  apply in_flat_map in Hc as (pg & Hpg & Hc).
  apply filter_In in Hpg as [Hpg Hsel].
  apply andb_true_iff in Hsel as [Hhas _].
  apply in_map_iff in Hc as (line & <- & Hline).
  apply filter_In in Hline as [Hline Htable].
  exists pg. simpl. repeat split; try assumption.
  - apply (cut_lines_from_occurs (text pg) InLine false [] [] line Hline). auto.
  - pose proof (cut_lines_from_no_newline (text pg) InLine false []
                  (Forall_nil _)) as Hall.
    rewrite Forall_forall in Hall. apply Hall. exact Hline.
Qed.

(** X5. Splitting a text at the splitter of the harvester loses white space
    only: the pieces, put together and stripped of white space, are the
    text stripped of white space. *)
Theorem split_loses_white_space_only s :
  without_spaces (concat (js_split s)) = without_spaces s.
Proof.
  rewrite js_split_cut_lines. unfold cut_lines.
  rewrite cut_lines_from_without_spaces by auto. reflexivity.
Qed.

Lemma filter_r_app {A} (f : A -> result bool) a b sel :
  filter_r f (a ++ b) = Ok sel <->
  exists sa sb, filter_r f a = Ok sa /\ filter_r f b = Ok sb /\ sel = sa ++ sb.
Proof.
  revert sel. induction a as [|x a IH]; intros sel; simpl.
  - split.
    + intros H. exists [], sel. auto.
    + intros (sa & sb & [= <-] & Hb & ->). exact Hb.
  - destruct (f x) as [keep|e]; simpl.
    + destruct (filter_r f (a ++ b)) as [rest|e] eqn:Hab; simpl.
      * destruct (proj1 (IH rest) eq_refl) as (sa & sb & Ha & Hb & ->).
        rewrite Ha. simpl. split.
        -- intros [= <-]. exists (if keep then x :: sa else sa), sb.
           destruct keep; auto.
        -- intros (sa' & sb' & [= <-] & Hb' & ->).
           rewrite Hb in Hb'. injection Hb' as <-. destruct keep; reflexivity.
      * split; [discriminate|].
        intros (sa' & sb' & Ha & Hb & ->).
        destruct (filter_r f a) as [sa|] eqn:Hfa; [|discriminate].
        assert (@Throw (list A) e = Ok (sa ++ sb')) as Hc
            by (apply IH; eauto).
        discriminate.
    + split; [discriminate|]. intros (? & ? & ? & _). discriminate.
Qed.

Lemma map_r_app {A B} (f : A -> result B) a b out :
  map_r f (a ++ b) = Ok out <->
  exists oa ob, map_r f a = Ok oa /\ map_r f b = Ok ob /\ out = oa ++ ob.
Proof.
  revert out. induction a as [|x a IH]; intros out; simpl.
  - split.
    + intros H. exists [], out. auto.
    + intros (oa & ob & [= <-] & Hb & ->). exact Hb.
  - destruct (f x) as [y|e]; simpl.
    + destruct (map_r f (a ++ b)) as [rest|e] eqn:Hab; simpl.
      * destruct (proj1 (IH rest) eq_refl) as (oa & ob & Ha & Hb & ->).
        rewrite Ha. simpl. split.
        -- intros [= <-]. exists (y :: oa), ob. auto.
        -- intros (oa' & ob' & [= <-] & Hb' & ->).
           rewrite Hb in Hb'. injection Hb' as <-. reflexivity.
      * split; [discriminate|].
        intros (oa' & ob' & Ha & Hb & ->).
        destruct (map_r f a) as [oa|] eqn:Hfa; [|discriminate].
        assert (@Throw (list B) e = Ok (oa ++ ob')) as Hc
            by (apply IH; eauto).
        discriminate.
    + split; [discriminate|]. intros (? & ? & ? & _). discriminate.
Qed.

(** X6. The harvester treats pages independently and keeps their order: on
    two arrays put end to end (of any values) it returns candidates exactly
    when it does on each, and they are those of the first followed by those
    of the second. *)
Theorem harvestTables_app a b candidates :
  harvestTables (a ++ b) = Ok candidates <->
  exists ca cb,
    harvestTables a = Ok ca /\ harvestTables b = Ok cb
    /\ candidates = ca ++ cb.
Proof.
  unfold harvestTables. split.
  - intros H.
    destruct (filter_r page_selected (a ++ b)) as [sel|] eqn:Hsel;
      [|discriminate].
    apply filter_r_app in Hsel as (sa & sb & Ha & Hb & ->).
    simpl in H.
    destruct (map_r page_candidates (sa ++ sb)) as [groups|] eqn:Hg;
      [|discriminate].
    apply map_r_app in Hg as (ga & gb & Hga & Hgb & ->).
    simpl in H. injection H as <-.
    exists (concat ga), (concat gb).
    rewrite Ha, Hb. simpl. rewrite Hga, Hgb. simpl.
    rewrite concat_app. auto.
  - intros (ca & cb & Ha & Hb & ->).
    destruct (filter_r page_selected a) as [sa|] eqn:Hsa; [|discriminate].
    destruct (filter_r page_selected b) as [sb|] eqn:Hsb; [|discriminate].
    simpl in Ha, Hb.
    destruct (map_r page_candidates sa) as [ga|] eqn:Hga; [|discriminate].
    destruct (map_r page_candidates sb) as [gb|] eqn:Hgb; [|discriminate].
    simpl in Ha, Hb. injection Ha as <-. injection Hb as <-.
    assert (Hsel : filter_r page_selected (a ++ b) = Ok (sa ++ sb))
      by (apply filter_r_app; eauto).
    assert (Hg : map_r page_candidates (sa ++ sb) = Ok (ga ++ gb))
      by (apply map_r_app; eauto).
    rewrite Hsel. simpl. rewrite Hg. simpl. rewrite concat_app. reflexivity.
Qed.

Lemma cut_lines_from_nonempty s :
  forall mode b line, cut_lines_from mode b line s <> [].
Proof.
  induction s as [|c r IH]; intros mode b line; simpl; [discriminate|].
  destruct mode.
  - destruct (b && is_space c); [discriminate|].
    destruct (is_newline c); [discriminate | apply IH].
  - destruct (is_space c); apply IH.
  - destruct (is_newline c); apply IH.
Qed.

(** In a text whose white space is single spaces, the only cuts are at a
    space that follows a period, so that joining the lines by spaces gives
    the text back. *)
Lemma cut_lines_single_spaced s :
  forall b line,
    single_spaced s = true ->
    join_space (cut_lines_from InLine b line s) = line ++ s.
Proof.
  induction s as [|c r IH]; intros b line Hs.
  - simpl. rewrite app_nil_r. reflexivity.
  - cbn [single_spaced] in Hs. apply andb_true_iff in Hs as [Hc Hr].
    cbn [cut_lines_from].
    destruct (is_space c) eqn:Hsp.
    + apply andb_true_iff in Hc as [Hc Hnext]. apply N.eqb_eq in Hc. subst c.
      assert (Hskip : cut_lines_from InSpaces false [] r
                      = cut_lines_from InLine false [] r).
      { rewrite (skip_spaces false false r).
        destruct r as [|c' r']; [reflexivity|].
        simpl. apply negb_true_iff in Hnext. rewrite Hnext. reflexivity. }
      destruct b; simpl andb; cbv iota.
      * rewrite join_space_cons by apply cut_lines_from_nonempty.
        rewrite Hskip, (IH false [] Hr). reflexivity.
      * change (is_newline 32%N) with false. cbv iota.
        rewrite IH by exact Hr.
        rewrite <- app_assoc. reflexivity.
    + rewrite andb_false_r.
      destruct (is_newline c) eqn:Hn.
      * apply is_newline_space in Hn. congruence.
      * rewrite IH by exact Hr.
        rewrite <- app_assoc. reflexivity.
Qed.

(** X7. The split of the harvester loses nothing of a text the extractor
    produced: the pieces of the text of any Page Result, joined by single
    spaces, are that text. *)
Theorem extracted_text_splits_without_loss env file cb w w' r :
  extractPdfText env file cb w = (w', Ok r) ->
  forall pg, In pg (pages r) -> join_space (js_split (text pg)) = text pg.
Proof.
  intros H pg Hin. apply extracted_document in H as (w1 & pdf & _ & ->).
  simpl in Hin. apply in_map_iff in Hin as (k & <- & _).
  destruct (page_result_text pdf k) as (ws & Hws & ->).
  rewrite js_split_cut_lines. unfold cut_lines.
  apply (cut_lines_single_spaced (join_space ws) false []).
  apply single_spaced_join. exact Hws.
Qed.

Lemma extracted_text_splits_without_loss_witness :
  join_space (js_split (text (page_result sample_pdf 1)))
  = text (page_result sample_pdf 1).
Proof.
  apply (extracted_text_splits_without_loss (env_opening sample_pdf)
           sample_file None sample_world
           (extend (extraction_trace sample_pdf None)
                   (extend [EvArrayBuffer; EvGetDocument] sample_world))
           (document_result sample_pdf sample_file)).
  - vm_compute. reflexivity.
  - simpl. left. reflexivity.
Defined.

(* ===================================================================== *)
(** ** The test for a worker that failed to start *)
(* ===================================================================== *)

Lemma matches_here_ci_iff pattern :
  forall s,
    matches_here_ci pattern s = true <->
    exists middle after,
      s = middle ++ after /\ same_ignoring_case middle pattern.
Proof.
  unfold same_ignoring_case.
  induction pattern as [|p pattern IH]; intros s; simpl.
  - split; [intros _ | reflexivity]. exists [], s. auto.
  - destruct s as [|c s'].
    + split; [discriminate|].
      intros (middle & after & Hs & Hm).
      destruct middle; [discriminate Hm | discriminate Hs].
    + rewrite andb_true_iff, N.eqb_eq, IH. split.
      * intros (Hc & middle & after & -> & Hm).
        exists (c :: middle), after. simpl. rewrite Hm, Hc. auto.
      * intros (middle & after & Hs & Hm).
        destruct middle as [|c' middle]; [discriminate Hm|].
        simpl in Hs, Hm. injection Hs as <- ->. injection Hm as Hc Hm.
        split; [auto|]. exists middle, after. auto.
Qed.

Lemma test_ci_iff pattern s :
  test_ci pattern s = true <->
  exists before middle after,
    s = before ++ middle ++ after /\ same_ignoring_case middle pattern.
Proof.
  induction s as [|c s' IH].
  - simpl. rewrite orb_false_r, matches_here_ci_iff. split.
    + intros (middle & after & Hs & Hm). exists [], middle, after. auto.
    + intros (before & middle & after & Hs & Hm).
      destruct before; [|discriminate Hs]. exists middle, after. auto.
  - cbn [test_ci]. rewrite orb_true_iff, IH, matches_here_ci_iff. split.
    + intros [(middle & after & Hs & Hm)
             | (before & middle & after & Hs & Hm)].
      * exists [], middle, after. auto.
      * exists (c :: before), middle, after. simpl. rewrite Hs. auto.
    + intros (before & middle & after & Hs & Hm).
      destruct before as [|c' before].
      * left. exists middle, after. auto.
      * simpl in Hs. injection Hs as <- ->. right.
        exists before, middle, after. auto.
Qed.

(** X8. An error message counts as a worker failure exactly when it holds,
    anywhere and in any mix of upper and lower case, the phrase "Setting up
    fake worker failed" or the phrase "Cannot load script". *)
Theorem workerFailed_iff message :
  workerFailed message = true <->
  exists before middle after,
    message = before ++ middle ++ after
    /\ (same_ignoring_case middle (lit "Setting up fake worker failed")
        \/ same_ignoring_case middle (lit "Cannot load script")).
Proof.
  unfold workerFailed. rewrite orb_true_iff, !test_ci_iff. split.
  - intros [(b & m & a & Hs & Hm) | (b & m & a & Hs & Hm)];
      exists b, m, a; auto.
  - intros (b & m & a & Hs & [Hm | Hm]); [left | right];
      exists b, m, a; auto.
Qed.

(* ===================================================================== *)
(** ** What a run logs *)
(* ===================================================================== *)

Lemma log_fall_back w : log (fall_back w) = log w.
Proof.
  unfold fall_back, assign_workerSrc.
  destruct (pdfjsLib (win w)) as [lib|];
    [destruct (GlobalWorkerOptions lib)|]; reflexivity.
Qed.

Lemma fall_back_settled w : is_settled (fall_back w) = true.
Proof.
  unfold fall_back, assign_workerSrc, is_settled.
  destruct (pdfjsLib (win w)) as [lib|];
    [destruct (GlobalWorkerOptions lib)|]; reflexivity.
Qed.

Lemma log_inline_failed w :
  exists m, log (inline_failed w) = log w ++ [EvWarn m].
Proof. unfold inline_failed. rewrite log_fall_back. eexists. reflexivity. Qed.

Lemma inline_failed_settled w : is_settled (inline_failed w) = true.
Proof. apply fall_back_settled. Qed.

Lemma text_settled_log env body w :
  is_settled (text_settled env body w) = true
  /\ exists evs, log (text_settled env body w) = log w ++ evs /\ warned evs.
Proof.
  assert (Hfail : forall w0,
             log w0 = log w ->
             is_settled (inline_failed w0) = true
             /\ exists evs, log (inline_failed w0) = log w ++ evs /\ warned evs).
  { intros w0 Hlog. split; [apply inline_failed_settled|].
    destruct (log_inline_failed w0) as [m Hm]. rewrite Hlog in Hm.
    exists [EvWarn m]. split; [exact Hm | right; eauto]. }
  unfold text_settled.
  destruct body as [script|e];
    [destruct (createObjectURL env script) as [url|e]|];
    try (apply Hfail; reflexivity).
  cbv zeta.
  destruct (assign_workerSrc url (assign_blobUrl url w)) as [w2|e] eqn:Hassign.
  - unfold assign_workerSrc in Hassign.
    destruct (pdfjsLib (win (assign_blobUrl url w))) as [lib|];
      [destruct (GlobalWorkerOptions lib)|]; try discriminate.
    injection Hassign as <-.
    split; [reflexivity|]. exists []. split; [|left; reflexivity].
    simpl. rewrite app_nil_r. reflexivity.
  - apply Hfail. reflexivity.
Qed.

Lemma settled_not_awaiting env w :
  is_settled w = true ->
  match pdfWorkerReadyPromise w with
  | Some (Pending (AwaitingText body)) => text_settled env body w
  | _ => w
  end = w.
Proof.
  unfold is_settled.
  destruct (pdfWorkerReadyPromise w) as [[[|]| |]|]; try discriminate;
    reflexivity.
Qed.

Lemma run_pending_log env w :
  (pdfWorkerReadyPromise w <> None -> is_settled (run_pending env w) = true)
  /\ exists evs, log (run_pending env w) = log w ++ evs /\ warned evs.
Proof.
  assert (Hsame : exists evs, log w = log w ++ evs /\ warned evs).
  { exists []. split; [rewrite app_nil_r; reflexivity | left; reflexivity]. }
  assert (Hfail : (pdfWorkerReadyPromise w <> None ->
                   is_settled (inline_failed w) = true)
                  /\ exists evs,
                       log (inline_failed w) = log w ++ evs /\ warned evs).
  { split; [intros _; apply inline_failed_settled|].
    destruct (log_inline_failed w) as [m Hm].
    exists [EvWarn m]. split; [exact Hm | right; eauto]. }
  unfold run_pending.
  destruct (pdfWorkerReadyPromise w) as [[[|body]| |e]|] eqn:Hp.
  - unfold fetch_settled.
    destruct (fetch_result env) as [resp|e]; [destruct (ok resp)|].
    + cbn [set_promise pdfWorkerReadyPromise].
      split; [intros _; apply text_settled_log|].
      apply (text_settled_log env (body_text resp)
               (set_promise (Pending (AwaitingText (body_text resp))) w)).
    + rewrite settled_not_awaiting by apply inline_failed_settled.
      exact Hfail.
    + rewrite settled_not_awaiting by apply inline_failed_settled.
      exact Hfail.
  - split; [intros _|]; apply text_settled_log.
  - split; [intros _; unfold is_settled; rewrite Hp; reflexivity | exact Hsame].
  - split; [intros _; unfold is_settled; rewrite Hp; reflexivity | exact Hsame].
  - split; [congruence | exact Hsame].
Qed.

Lemma log_start_provisioning env w :
  log (start_provisioning env w)
  = log w ++ EvProvision :: (if canInlineWorker env then [EvFetch] else []).
Proof.
  unfold start_provisioning. destruct (canInlineWorker env).
  - cbn [log set_promise emit]. rewrite <- app_assoc. reflexivity.
  - rewrite log_fall_back. reflexivity.
Qed.

Lemma start_provisioning_promise env w :
  pdfWorkerReadyPromise (start_provisioning env w) <> None.
Proof. apply start_provisioning_counts. Qed.

(** What a call of [ensurePdfWorker] logs, whatever its outcome. *)
Lemma ensurePdfWorker_log env w w1 res :
  ensurePdfWorker env w = (w1, res) ->
  exists evs,
    log w1 = log w ++ evs
    /\ forallb is_setup_event evs = true
    /\ occurrences is_provision evs <= 1
    /\ occurrences is_fetch evs <= 1.
Proof.
  unfold ensurePdfWorker, ensurePdfWorker_call.
  assert (Hnone : exists evs,
             log w = log w ++ evs /\ forallb is_setup_event evs = true
             /\ occurrences is_provision evs <= 1
             /\ occurrences is_fetch evs <= 1).
  { exists []. rewrite app_nil_r. cbn. auto. }
  destruct (pdfjsLib (win w)) as [lib|]; [|intros [= <- _]; exact Hnone].
  destruct (truthy_str (workerSrc lib)); [intros [= <- _]; exact Hnone|].
  set (w0 := match pdfWorkerReadyPromise w with
             | Some _ => w
             | None => start_provisioning env w
             end).
  intros H.
  assert (Hw1 : w1 = run_pending env w0).
  { destruct (pdfWorkerReadyPromise (run_pending env w0)) as [[| |]|];
      injection H as <- _; reflexivity. }
  clear H. subst w1.
  destruct (run_pending_log env w0) as [_ (evs & Hlog & Hwarn)].
  assert (Hstart : exists pre,
             log w0 = log w ++ pre
             /\ (pre = [] \/ pre = [EvProvision] \/ pre = [EvProvision; EvFetch])).
  { subst w0. destruct (pdfWorkerReadyPromise w).
    - exists []. rewrite app_nil_r. auto.
    - rewrite log_start_provisioning. eexists. split; [reflexivity|].
      destruct (canInlineWorker env); auto. }
  destruct Hstart as (pre & Hpre & Hcases).
  exists (pre ++ evs). rewrite Hlog, Hpre, <- app_assoc.
  split; [reflexivity|].
  destruct Hwarn as [-> | [m ->]];
    destruct Hcases as [-> | [-> | ->]]; cbn; auto.
Qed.

Lemma occurrences_app f a b :
  occurrences f (a ++ b) = occurrences f a + occurrences f b.
Proof. unfold occurrences. rewrite filter_app, length_app. reflexivity. Qed.

Lemma forallb_filter_nil (allowed f : event -> bool) evs :
  forallb allowed evs = true ->
  (forall e, allowed e = true -> f e = false) ->
  filter f evs = [].
Proof.
  intros Hall Hdis. induction evs as [|e evs IH]; [reflexivity|].
  simpl in Hall. apply andb_true_iff in Hall as [He Hall].
  simpl. rewrite (Hdis e He). apply IH. exact Hall.
Qed.

(** What the opening of the document logs, whatever its outcome: the
    document is opened once, or twice when the first opening fails. *)
Lemma open_with_retry_log env data w w2 res :
  open_with_retry env data w = (w2, res) ->
  exists evs,
    log w2 = log w ++ evs
    /\ forallb is_opening_event evs = true
    /\ occurrences is_getDocument evs <= 2
    /\ occurrences is_fetch evs = 0
    /\ occurrences is_arrayBuffer evs = 0.
Proof.
  unfold open_with_retry, try_catch. unfold open_document at 1.
  destruct (pdfjsLib (win w)) as [lib|] eqn:Hlib.
  - destruct (getDocument env data (count_event is_getDocument w) lib)
      as [pdf|err].
    + intros [= <- _]. exists [EvGetDocument]. cbn; repeat split; lia.
    + destruct (negb (workerFailed (error_message err))).
      * intros [= <- _]. exists [EvGetDocument]. cbn; repeat split; lia.
      * unfold bind, tell, disable_worker_if_boolean, open_document.
        cbn [win emit]. rewrite Hlib.
        destruct (disableWorker lib); cbn [win set_window emit pdfjsLib];
          rewrite ?Hlib; intros [= <- _]; cbn [log emit set_window];
          rewrite <- !app_assoc; cbn [app];
          (eexists; split; [reflexivity|]); cbn; repeat split; lia.
  - destruct (negb _).
    + intros [= <- _]. exists []. rewrite app_nil_r. cbn; repeat split; lia.
    + unfold bind, tell, disable_worker_if_boolean.
      cbn [win emit]. rewrite Hlib. intros [= <- _].
      eexists. split; [reflexivity|]. cbn; repeat split; lia.
Qed.

Lemma open_phase_log env file w w1 res :
  open_phase env file w = (w1, res) ->
  exists evs,
    log w1 = log w ++ evs
    /\ forallb is_opening_event evs = true
    /\ occurrences is_fetch evs <= 1
    /\ occurrences is_arrayBuffer evs <= 1
    /\ occurrences is_getDocument evs <= 2.
Proof.
  unfold open_phase. unfold bind at 1.
  destruct (pdfjsLib (win w)).
  2:{ intros [= <- _]. exists []. rewrite app_nil_r. cbn; repeat split; lia. }
  unfold bind at 1.
  destruct (ensurePdfWorker env w) as [wa [[]|e]] eqn:Hworker;
    apply ensurePdfWorker_log in Hworker
      as (setup & Hsetup & Hall & _ & Hfetch).
  2:{ intros [= <- _]. exists setup. split; [exact Hsetup|].
      split.
      - clear - Hall. induction setup as [|e l IH]; [reflexivity|].
        simpl in *. apply andb_true_iff in Hall as [He Hl].
        rewrite (IH Hl), andb_true_r. destruct e; try discriminate; reflexivity.
      - split; [exact Hfetch|].
        unfold occurrences.
        rewrite (forallb_filter_nil is_setup_event is_arrayBuffer setup Hall),
                (forallb_filter_nil is_setup_event is_getDocument setup Hall);
          try (intros []; simpl; congruence).
        simpl. lia. }
  assert (Hopening : forallb is_opening_event setup = true).
  { clear - Hall. induction setup as [|e l IH]; [reflexivity|].
    simpl in *. apply andb_true_iff in Hall as [He Hl].
    rewrite (IH Hl), andb_true_r. destruct e; try discriminate; reflexivity. }
  assert (Hab : occurrences is_arrayBuffer setup = 0).
  { unfold occurrences.
    rewrite (forallb_filter_nil is_setup_event is_arrayBuffer setup Hall);
      [reflexivity|]. intros []; simpl; congruence. }
  assert (Hgd : occurrences is_getDocument setup = 0).
  { unfold occurrences.
    rewrite (forallb_filter_nil is_setup_event is_getDocument setup Hall);
      [reflexivity|]. intros []; simpl; congruence. }
  unfold bind at 1. unfold tell. unfold bind at 1. unfold lift.
  destruct (file_arrayBuffer file) as [data|e].
  - intros Hopen. apply open_with_retry_log in Hopen
      as (od & Hod & Hodall & Hodgd & Hodf & Hodab).
    exists (setup ++ EvArrayBuffer :: od).
    cbn [log emit] in Hod. rewrite Hod, Hsetup, <- !app_assoc.
    split; [reflexivity|].
    rewrite forallb_app, !occurrences_app. cbn [forallb is_opening_event].
    rewrite Hopening, Hodall.
    change (EvArrayBuffer :: od) with ([EvArrayBuffer] ++ od).
    rewrite !occurrences_app, Hab, Hgd, Hodf, Hodab.
    cbn. split; [reflexivity|]. lia.
  - intros [= <- _]. exists (setup ++ [EvArrayBuffer]).
    cbn [log emit]. rewrite Hsetup, <- app_assoc.
    split; [reflexivity|].
    rewrite forallb_app, !occurrences_app, Hopening, Hab, Hgd.
    cbn. split; [reflexivity|]. lia.
Qed.

(** The page loop, whatever its outcome: it ran the turns of the first [n]
    page numbers, all of them when it returned. *)
Lemma page_loop_log pdf cb total idxs :
  forall acc w w' res,
    page_loop pdf cb total idxs acc w = (w', res) ->
    exists n,
      n <= length idxs
      /\ w' = extend (flat_map (turn_trace pdf cb total) (firstn n idxs)) w
      /\ (forall pgs, res = Ok pgs -> n = length idxs).
Proof.
  induction idxs as [|i idxs IH]; intros acc w w' res.
  - intros [= <- <-]. exists 0. rewrite extend_nil. auto.
  - cbn [page_loop]. unfold bind at 1. rewrite page_step_run.
    destruct (call_result cb (count_event is_progress w)
                (progress_percent i total)).
    + intros [= <- <-]. exists 1. simpl. rewrite app_nil_r.
      split; [lia|]. split; [reflexivity | discriminate].
    + intros H. apply IH in H as (n & Hn & -> & Hok).
      exists (S n). simpl. split; [lia|]. rewrite extend_app.
      split; [reflexivity|]. intros pgs Hres. rewrite (Hok pgs Hres).
      reflexivity.
Qed.

Lemma firstn_seq_1 n len : n <= len -> firstn n (seq 1 len) = seq 1 n.
Proof.
  generalize 1 as start. revert len.
  induction n as [|n IH]; intros len start H; [reflexivity|].
  destruct len as [|len]; [lia|].
  simpl. rewrite IH by lia. reflexivity.
Qed.

(** The run from the page loop on, whatever its outcome. *)
Lemma extract_from_log pdf file cb w w' res :
  extract_from pdf file cb w = (w', res) ->
  exists k,
    k <= numPages pdf
    /\ w' = extend (flat_map (turn_trace pdf cb (numPages pdf)) (seq 1 k)
                    ++ match res with
                       | Ok _ => [EvGetMetadata; EvCleanup]
                       | Throw _ => []
                       end) w
    /\ (forall r, res = Ok r -> k = numPages pdf).
Proof.
  unfold extract_from. cbn zeta. unfold bind at 1.
  destruct (page_loop pdf cb (numPages pdf) (seq 1 (numPages pdf)) [] w)
    as [w1 [pgs|e]] eqn:Hloop;
    apply page_loop_log in Hloop as (n & Hn & -> & Hok);
    rewrite length_seq in Hn, Hok; rewrite firstn_seq_1 by exact Hn.
  - rewrite extract_tail_run, extend_app. intros [= <- <-].
    exists n. split; [exact Hn|]. split; [reflexivity|].
    intros _ _. exact (Hok pgs eq_refl).
  - intros [= <- <-]. exists n. rewrite app_nil_r.
    split; [exact Hn|]. split; [reflexivity | discriminate].
Qed.

Lemma turn_trace_occurrences pdf cb total idxs :
  filter is_getPage (flat_map (turn_trace pdf cb total) idxs)
  = map EvGetPage idxs
  /\ filter is_cleanup (flat_map (turn_trace pdf cb total) idxs) = []
  /\ filter is_getDocument (flat_map (turn_trace pdf cb total) idxs) = []
  /\ filter is_fetch (flat_map (turn_trace pdf cb total) idxs) = []
  /\ filter is_arrayBuffer (flat_map (turn_trace pdf cb total) idxs) = [].
Proof.
  induction idxs as [|i idxs (IH1 & IH2 & IH3 & IH4 & IH5)];
    [repeat split; reflexivity|].
  cbn [flat_map map]. rewrite !filter_app, IH1, IH2, IH3, IH4, IH5.
  unfold turn_trace, page_trace.
  destruct (page_outcome pdf i), cb; repeat split; reflexivity.
Qed.

(** The whole run, whatever its outcome: the events of the opening, then
    those of the page loop, then the end. *)
Lemma extractPdfText_log env file cb w w' res :
  extractPdfText env file cb w = (w', res) ->
  exists opening loop k,
    log w' = log w ++ opening ++ loop
                   ++ match res with
                      | Ok _ => [EvGetMetadata; EvCleanup]
                      | Throw _ => []
                      end
    /\ forallb is_opening_event opening = true
    /\ occurrences is_fetch opening <= 1
    /\ occurrences is_arrayBuffer opening <= 1
    /\ occurrences is_getDocument opening <= 2
    /\ filter is_getPage loop = map EvGetPage (seq 1 k)
    /\ filter is_cleanup loop = []
    /\ filter is_getDocument loop = []
    /\ filter is_fetch loop = []
    /\ filter is_arrayBuffer loop = []
    /\ (forall r, res = Ok r -> k = totalPages r).
Proof.
  unfold extractPdfText. unfold bind at 1.
  destruct (open_phase env file w) as [w1 [pdf|e]] eqn:Hopen;
    apply open_phase_log in Hopen as (opening & Hlog & Hall & Hf & Hab & Hgd).
  - intros Hrun.
    assert (Hres : forall r, res = Ok r -> totalPages r = numPages pdf).
    { intros r ->. apply extract_from_result in Hrun. subst r. reflexivity. }
    apply extract_from_log in Hrun as (k & Hk & -> & Hok).
    destruct (turn_trace_occurrences pdf cb (numPages pdf) (seq 1 k))
      as (H1 & H2 & H3 & H4 & H5).
    exists opening, (flat_map (turn_trace pdf cb (numPages pdf)) (seq 1 k)), k.
    cbn [log extend]. rewrite Hlog, <- !app_assoc.
    repeat (split; [first [reflexivity | assumption]|]).
    intros r Hr. rewrite (Hres r Hr). exact (Hok r Hr).
  - intros [= <- <-]. exists opening, [], 0. rewrite !app_nil_r.
    repeat (split; [first [reflexivity | assumption]|]). discriminate.
Qed.

(** X9. In every run of [extractPdfText], whatever its outcome, the worker
    script is fetched at most once, the bytes of the file are read at most
    once, and the document is opened at most twice; [cleanup] is called
    exactly once when a result is returned, as the last call after the one
    of [getMetadata], and is not called at all when the run throws. *)
Theorem extraction_accounting env file cb w w' res :
  extractPdfText env file cb w = (w', res) ->
  exists evs,
    log w' = log w ++ evs
    /\ occurrences is_fetch evs <= 1
    /\ occurrences is_arrayBuffer evs <= 1
    /\ occurrences is_getDocument evs <= 2
    /\ match res with
       | Ok _ =>
           occurrences is_cleanup evs = 1
           /\ exists before, evs = before ++ [EvGetMetadata; EvCleanup]
       | Throw _ => occurrences is_cleanup evs = 0
       end.
Proof.
  intros H. apply extractPdfText_log in H
    as (opening & loop & k & Hlog & Hall & Hf & Hab & Hgd
        & _ & Hlc & Hlgd & Hlf & Hlab & _).
  assert (Hoc : occurrences is_cleanup opening = 0).
  { unfold occurrences.
    rewrite (forallb_filter_nil is_opening_event is_cleanup opening Hall);
      [reflexivity|]. intros []; simpl; congruence. }
  eexists. split; [exact Hlog|].
  rewrite !occurrences_app. unfold occurrences in *.
  rewrite Hlc, Hlgd, Hlf, Hlab.
  destruct res as [r|e]; cbn; (repeat split; try lia).
  exists (opening ++ loop). rewrite <- app_assoc. reflexivity.
Qed.

Lemma extraction_accounting_witness :
  exists evs,
    log (extend (extraction_trace sample_pdf None)
                (extend [EvArrayBuffer; EvGetDocument] sample_world))
    = log sample_world ++ evs
    /\ occurrences is_fetch evs <= 1
    /\ occurrences is_arrayBuffer evs <= 1
    /\ occurrences is_getDocument evs <= 2
    /\ occurrences is_cleanup evs = 1
    /\ exists before, evs = before ++ [EvGetMetadata; EvCleanup].
Proof.
  apply (extraction_accounting (env_opening sample_pdf) sample_file None
           sample_world
           (extend (extraction_trace sample_pdf None)
                   (extend [EvArrayBuffer; EvGetDocument] sample_world))
           (Ok (document_result sample_pdf sample_file))).
  vm_compute. reflexivity.
Defined.

(** X10. In every run of [extractPdfText], whatever its outcome, the pages
    are requested one after the other from page 1 on, none twice and none
    skipped: the requests are those of pages 1 to [k] in this order, and
    [k] is the number of pages when a result is returned. *)
Theorem pages_requested_in_order env file cb w w' res :
  extractPdfText env file cb w = (w', res) ->
  exists evs k,
    log w' = log w ++ evs
    /\ filter is_getPage evs = map EvGetPage (seq 1 k)
    /\ (forall r, res = Ok r -> k = totalPages r).
Proof.
  intros H. apply extractPdfText_log in H
    as (opening & loop & k & Hlog & Hall & _ & _ & _ & Hpages & _ & _ & _ & _
        & Hk).
  eexists. exists k. split; [exact Hlog|]. split; [|exact Hk].
  rewrite !filter_app, Hpages.
  rewrite (forallb_filter_nil is_opening_event is_getPage opening Hall)
    by (intros []; simpl; congruence).
  destruct res; rewrite app_nil_r; reflexivity.
Qed.

Lemma pages_requested_in_order_witness :
  exists evs k,
    log (extend (extraction_trace sample_pdf None)
                (extend [EvArrayBuffer; EvGetDocument] sample_world))
    = log sample_world ++ evs
    /\ filter is_getPage evs = map EvGetPage (seq 1 k)
    /\ (forall r, Ok (document_result sample_pdf sample_file) = Ok r ->
                  k = totalPages r).
Proof.
  apply (pages_requested_in_order (env_opening sample_pdf) sample_file None
           sample_world).
  vm_compute. reflexivity.
Defined.

(* ===================================================================== *)
(** ** The values of the progress report *)
(* ===================================================================== *)

(** Every value reported is the number of an integer from 0 to 100. *)
Lemma progress_percent_integer i n :
  1 <= i <= n -> (Z.of_nat n < 2 ^ 53)%Z ->
  exists k, k <= 100 /\ progress_percent i n = num_of_nat k.
Proof.
  intros Hi Hn. unfold progress_percent.
  destruct (scaled_ratio_mono i n n ltac:(lia) ltac:(lia) Hn)
    as [m [e [m3 [e3 [Hm [Hm3 [Hle [He He3]]]]]]]].
  rewrite (scaled_ratio_full n ltac:(lia) Hn) in Hm3.
  destruct (normal_inj _ _ _ _ _ Hm3 hundred_normal) as [-> ->].
  rewrite (Math_round_normal _ m e Hm ltac:(lia)).
  destruct Hm as [_ Hb].
  pose proof (round_half_mono m e 7036874417766400 (-46) Hb ltac:(lia)
                ltac:(lia) Hle) as H.
  change (round_half 7036874417766400 (-46)) with 100%Z in H.
  rewrite binary_normalize_num_of_nat by lia.
  exists (Z.to_nat (round_half m e)). split; [lia | reflexivity].
Qed.

(** X11. Every value passed to [onProgress] is an integer from 0 to 100,
    for every document of fewer than 2^53 pages and in every run, whatever
    its outcome. *)
Theorem progress_values_are_percentages env file cb w w1 pdf w' res :
  open_phase env file w = (w1, Ok pdf) ->
  (Z.of_nat (numPages pdf) < 2 ^ 53)%Z ->
  extractPdfText env file cb w = (w', res) ->
  exists evs,
    w' = extend evs w1
    /\ forall percent,
         In (EvProgress percent) evs ->
         exists k, k <= 100 /\ percent = num_of_nat k.
Proof.
  intros Hopen Hn Hrun.
  rewrite (extractPdfText_opened _ _ _ _ _ _ Hopen) in Hrun.
  apply extract_from_log in Hrun as (k & Hk & -> & _).
  eexists. split; [reflexivity|].
  intros percent Hin. apply in_app_or in Hin as [Hin | Hin].
  - apply in_flat_map in Hin as (i & Hi & Hin).
    apply in_seq in Hi.
    apply turn_trace_events in Hin as [Hin | [Hin | Hin]]; try discriminate.
    injection Hin as ->. apply progress_percent_integer; [lia | exact Hn].
  - destruct res; simpl in Hin; intuition discriminate.
Qed.

Lemma progress_values_are_percentages_witness :
  exists evs,
    extend (extraction_trace sample_pdf (Some silent_callback))
           (extend [EvArrayBuffer; EvGetDocument] sample_world)
    = extend evs (extend [EvArrayBuffer; EvGetDocument] sample_world)
    /\ forall percent,
         In (EvProgress percent) evs ->
         exists k, k <= 100 /\ percent = num_of_nat k.
Proof.
  apply (progress_values_are_percentages (env_opening sample_pdf) sample_file
           (Some silent_callback) sample_world
           (extend [EvArrayBuffer; EvGetDocument] sample_world) sample_pdf
           (extend (extraction_trace sample_pdf (Some silent_callback))
                   (extend [EvArrayBuffer; EvGetDocument] sample_world))
           (Ok (document_result sample_pdf sample_file))).
  - vm_compute. reflexivity.
  - vm_compute. reflexivity.
  - vm_compute. reflexivity.
Defined.

(** Among the numbers of the integers up to 100, the order of the numbers
    is the order of the integers. *)
Lemma num_ltb_upto_100 :
  forallb (fun a =>
             forallb (fun b => implb (num_ltb (num_of_nat a) (num_of_nat b))
                                     (a <? b))
                     (seq 0 101))
          (seq 0 101) = true.
Proof. vm_compute. reflexivity. Qed.

Lemma num_ltb_lt a b :
  a <= 100 -> b <= 100 ->
  num_ltb (num_of_nat a) (num_of_nat b) = true -> a < b.
Proof.
  intros Ha Hb Hlt. pose proof num_ltb_upto_100 as H.
  rewrite forallb_forall in H.
  specialize (H a ltac:(apply in_seq; lia)).
  rewrite forallb_forall in H.
  specialize (H b ltac:(apply in_seq; lia)).
  rewrite Hlt in H. simpl in H. apply Nat.ltb_lt. exact H.
Qed.

(** A strictly increasing list of integers up to 100 has at most 101
    members. *)
Lemma increasing_length ks :
  forall k,
    Forall (fun j => j <= 100) (k :: ks) ->
    increasing (map num_of_nat (k :: ks)) = true ->
    k + length (k :: ks) <= 101.
Proof.
  induction ks as [|k' ks IH]; intros k Hall Hinc.
  - inversion Hall; subst. simpl. lia.
  - inversion Hall as [|? ? Hk Hrest]; subst.
    cbn [map increasing] in Hinc. apply andb_true_iff in Hinc as [Hlt Hinc].
    inversion Hrest as [|? ? Hk' _]; subst.
    apply (num_ltb_lt _ _ Hk Hk') in Hlt.
    specialize (IH k' Hrest Hinc). simpl in *. lia.
Qed.

Lemma percentages_integers n :
  (Z.of_nat n < 2 ^ 53)%Z ->
  exists ks,
    percentages n = map num_of_nat ks
    /\ length ks = n
    /\ Forall (fun j => j <= 100) ks.
Proof.
  intros Hn. unfold percentages.
  assert (H : forall l,
             Forall (fun i => 1 <= i <= n) l ->
             exists ks,
               map (fun i => progress_percent i n) l = map num_of_nat ks
               /\ length ks = length l
               /\ Forall (fun j => j <= 100) ks).
  { induction l as [|i l IH]; intros Hl.
    - exists []. repeat split. constructor.
    - inversion Hl as [|? ? Hi Hrest]; subst.
      destruct (IH Hrest) as (ks & He & Hlen & Hall).
      destruct (progress_percent_integer i n Hi Hn) as (k & Hk & Hp).
      exists (k :: ks). simpl. rewrite Hp, He, Hlen.
      repeat split. constructor; assumption. }
  destruct (H (seq 1 n)) as (ks & He & Hlen & Hall).
  - apply Forall_forall. intros i Hi. apply in_seq in Hi. lia.
  - exists ks. rewrite length_seq in Hlen. auto.
Qed.

Lemma percentages_101 : increasing (percentages 101) = false.
Proof. vm_compute. reflexivity. Qed.

(** X12. The values passed to [onProgress] during a run are strictly
    increasing exactly when the document has at most 100 pages (for
    documents of fewer than 2^53 pages). *)
Theorem progress_strictly_increasing_iff n :
  (Z.of_nat n < 2 ^ 53)%Z ->
  (increasing (percentages n) = true <-> n <= 100).
Proof.
  intros Hn. split.
  - intros Hinc.
    destruct (percentages_integers n Hn) as (ks & He & Hlen & Hall).
    destruct (Nat.eq_dec n 101) as [-> | Hne].
    + rewrite percentages_101 in Hinc. discriminate.
    + destruct ks as [|k ks]; [simpl in Hlen; lia|].
      rewrite He in Hinc.
      pose proof (increasing_length ks k Hall Hinc) as Hbound.
      rewrite Hlen in Hbound. lia.
  - intros Hle. pose proof percentages_increasing_upto_100 as H.
    rewrite forallb_forall in H. apply H. apply in_seq. lia.
Qed.

Lemma progress_strictly_increasing_iff_witness :
  increasing (percentages 102) = true <-> 102 <= 100.
Proof.
  apply (progress_strictly_increasing_iff 102). vm_compute. reflexivity.
Defined.

(* ===================================================================== *)
(** ** The provisioning of the worker, call after call *)
(* ===================================================================== *)

(** The steps of the provisioning leave the library, and its
    [GlobalWorkerOptions], where they are. *)
Lemma fall_back_shape w :
  has_lib (fall_back w) = has_lib w
  /\ has_options (fall_back w) = has_options w.
Proof.
  unfold fall_back, assign_workerSrc, has_lib, has_options.
  destruct (pdfjsLib (win w)) as [lib|] eqn:Hlib;
    [destruct (GlobalWorkerOptions lib) eqn:Hopt|];
    cbn [set_promise set_window win pdfjsLib GlobalWorkerOptions];
    rewrite ?Hlib, ?Hopt; auto.
Qed.

(** Line 39 rejects the promise only where the library has no
    [GlobalWorkerOptions]. *)
Lemma fall_back_rejected w :
  has_lib w = true -> rejected_for_options (fall_back w).
Proof.
  intros Hhas e. destruct (fall_back_shape w) as [_ Hshape].
  rewrite Hshape. revert Hhas.
  unfold fall_back, assign_workerSrc, has_lib, has_options.
  destruct (pdfjsLib (win w)) as [lib|]; [|discriminate].
  destruct (GlobalWorkerOptions lib); intros _ H.
  - discriminate.
  - injection H as <-. auto.
Qed.

Lemma inline_failed_shape w :
  has_lib (inline_failed w) = has_lib w
  /\ has_options (inline_failed w) = has_options w.
Proof.
  unfold inline_failed.
  match goal with |- context [fall_back ?w0] => exact (fall_back_shape w0) end.
Qed.

Lemma inline_failed_rejected w :
  has_lib w = true -> rejected_for_options (inline_failed w).
Proof.
  intros H. unfold inline_failed.
  match goal with |- context [fall_back ?w0] =>
    exact (fall_back_rejected w0 H) end.
Qed.

Lemma text_settled_shape env body w :
  (has_lib (text_settled env body w) = has_lib w
   /\ has_options (text_settled env body w) = has_options w)
  /\ (has_lib w = true -> rejected_for_options (text_settled env body w)).
Proof.
  unfold text_settled.
  destruct body as [script|e];
    [destruct (createObjectURL env script) as [url|e]|];
    try (split; [apply inline_failed_shape | apply inline_failed_rejected]).
  cbv zeta.
  destruct (assign_workerSrc url (assign_blobUrl url w)) as [w2|e] eqn:Hassign.
  - unfold assign_workerSrc in Hassign. cbn [win assign_blobUrl set_window pdfjsLib] in Hassign.
    unfold has_lib, has_options.
    destruct (pdfjsLib (win w)) as [lib|] eqn:Hlib;
      [destruct (GlobalWorkerOptions lib) eqn:Hopt|]; try discriminate.
    injection Hassign as <-.
    split; [split; reflexivity|]. intros _ e He. discriminate.
  - split.
    + apply (inline_failed_shape (assign_blobUrl url w)).
    + intros Hhas. apply (inline_failed_rejected (assign_blobUrl url w)).
      exact Hhas.
Qed.

Lemma fetch_settled_shape r w :
  (has_lib (fetch_settled r w) = has_lib w
   /\ has_options (fetch_settled r w) = has_options w)
  /\ (has_lib w = true -> rejected_for_options (fetch_settled r w)).
Proof.
  unfold fetch_settled.
  destruct r as [resp|e]; [destruct (ok resp)|];
    try (split; [apply inline_failed_shape | apply inline_failed_rejected]).
  split; [split; reflexivity|]. intros _ e He. discriminate.
Qed.

Lemma run_pending_shape env w :
  (has_lib (run_pending env w) = has_lib w
   /\ has_options (run_pending env w) = has_options w)
  /\ (has_lib w = true -> rejected_for_options w ->
      rejected_for_options (run_pending env w)).
Proof.
  unfold run_pending.
  destruct (pdfWorkerReadyPromise w) as [[[|body]| |e]|] eqn:Hp.
  - unfold fetch_settled.
    destruct (fetch_result env) as [resp|e]; [destruct (ok resp)|].
    + cbn [set_promise pdfWorkerReadyPromise].
      destruct (text_settled_shape env (body_text resp)
                  (set_promise (Pending (AwaitingText (body_text resp))) w))
        as [H1 H2].
      split; [exact H1 | intros H _; apply H2; exact H].
    + rewrite settled_not_awaiting by apply inline_failed_settled.
      split; [apply inline_failed_shape|].
      intros H _. apply inline_failed_rejected. exact H.
    + rewrite settled_not_awaiting by apply inline_failed_settled.
      split; [apply inline_failed_shape|].
      intros H _. apply inline_failed_rejected. exact H.
  - destruct (text_settled_shape env body w) as [H1 H2].
    split; [exact H1 | intros H _; apply H2; exact H].
  - split; auto.
  - split; auto.
  - split; auto.
Qed.

Lemma start_provisioning_shape env w :
  (has_lib (start_provisioning env w) = has_lib w
   /\ has_options (start_provisioning env w) = has_options w)
  /\ (has_lib w = true -> rejected_for_options (start_provisioning env w)).
Proof.
  unfold start_provisioning. destruct (canInlineWorker env).
  - split; [split; reflexivity|]. intros _ e He. discriminate.
  - split.
    + apply (fall_back_shape (emit EvProvision w)).
    + intros H. apply (fall_back_rejected (emit EvProvision w)). exact H.
Qed.

Lemma rejected_for_options_none w :
  is_rejected w = false -> rejected_for_options w.
Proof.
  unfold is_rejected. intros H e He. rewrite He in H. discriminate.
Qed.

Lemma rejected_for_options_sound w :
  rejected_for_options w -> has_options w = true -> is_rejected w = false.
Proof.
  unfold is_rejected. intros H Hopt.
  destruct (pdfWorkerReadyPromise w) as [[| |e]|] eqn:Hp; try reflexivity.
  destruct (H e Hp) as [_ Hno]. congruence.
Qed.

(** A world where a call of [ensurePdfWorker] has nothing to do: the
    library is there and has a worker location, or the promise of the
    provisioning is fulfilled. *)
Lemma ensurePdfWorker_ready env w :
  has_lib w = true ->
  has_workerSrc w = true \/ pdfWorkerReadyPromise w = Some Fulfilled ->
  ensurePdfWorker env w = (w, Ok tt).
Proof.
  unfold has_lib, has_workerSrc, ensurePdfWorker, ensurePdfWorker_call.
  destruct (pdfjsLib (win w)) as [lib|]; [|discriminate].
  intros _ Hready.
  destruct (truthy_str (workerSrc lib)); [reflexivity|].
  destruct Hready as [? | Hp]; [discriminate|].
  rewrite Hp. unfold run_pending. rewrite Hp. cbv zeta. rewrite Hp.
  reflexivity.
Qed.

(** A call of [ensurePdfWorker] where the library is there: it returns in
    a world where nothing is left to do, or it throws what the promise was
    rejected with, which is the [TypeError] of a library without
    [GlobalWorkerOptions] when no earlier rejection had another cause. *)
Lemma ensurePdfWorker_result env w w1 res :
  has_lib w = true ->
  ensurePdfWorker env w = (w1, res) ->
  (has_lib w1 = true /\ has_options w1 = has_options w)
  /\ (rejected_for_options w -> rejected_for_options w1)
  /\ match res with
     | Ok _ => worker_ready w1
     | Throw e => pdfWorkerReadyPromise w1 = Some (Rejected e)
     end.
Proof.
  intros Hlib.
  unfold ensurePdfWorker, ensurePdfWorker_call.
  pose proof Hlib as Hlib'. unfold has_lib in Hlib'.
  destruct (pdfjsLib (win w)) as [lib|] eqn:Hl; [|discriminate].
  destruct (truthy_str (workerSrc lib)) eqn:Hsrc.
  - intros [= <- <-]. split; [split; [exact Hlib | reflexivity]|].
    split; [intros H; exact H|].
    split; [exact Hlib|]. left. unfold has_workerSrc. rewrite Hl. exact Hsrc.
  - set (w0 := match pdfWorkerReadyPromise w with
               | Some _ => w
               | None => start_provisioning env w
               end).
    assert (H0 : (has_lib w0 = true /\ has_options w0 = has_options w)
                 /\ (rejected_for_options w -> rejected_for_options w0)
                 /\ pdfWorkerReadyPromise w0 <> None).
    { subst w0. destruct (pdfWorkerReadyPromise w) eqn:Hp.
      - split; [split; [exact Hlib | reflexivity]|].
        split; [intros H; exact H | congruence].
      - destruct (start_provisioning_shape env w) as [[H1 H2] H3].
        rewrite H1. split; [split; [exact Hlib | exact H2]|].
        split; [intros _; apply H3; exact Hlib|].
        apply start_provisioning_promise. }
    destruct H0 as ((Hl0 & Ho0) & Hr0 & Hp0).
    destruct (run_pending_shape env w0) as [[H1 H2] H3].
    destruct (run_pending_log env w0) as [Hset _].
    specialize (Hset Hp0). rewrite Hl0 in H1. rewrite Ho0 in H2.
    cbv zeta. unfold is_settled in Hset.
    destruct (pdfWorkerReadyPromise (run_pending env w0)) as [[| |e]|] eqn:Hp;
      try discriminate; intros [= <- <-].
    + split; [split; assumption|].
      split; [intros Hr; apply H3; [exact Hl0 | apply Hr0; exact Hr]|].
      split; [exact H1 | right; exact Hp].
    + split; [split; assumption|].
      split; [intros Hr; apply H3; [exact Hl0 | apply Hr0; exact Hr]|].
      exact Hp.
Qed.

(** X13. The two ways a call of [ensurePdfWorker] throws, in a world where
    no earlier provisioning was rejected: the library is missing, and the
    call throws 'PDF.js library not loaded' and changes nothing; or the
    library has no [GlobalWorkerOptions], and the call throws the
    [TypeError] of the assignment of line 39, with which the promise is
    rejected. Where the library has its [GlobalWorkerOptions], a failed
    fetch, a failed response or a failed blob never makes the call throw. *)
Theorem ensurePdfWorker_failures env w w1 e :
  is_rejected w = false ->
  ensurePdfWorker env w = (w1, Throw e) ->
  (pdfjsLib (win w) = None
   /\ w1 = w
   /\ e = JsError (lit "PDF.js library not loaded"))
  \/ (exists lib,
        pdfjsLib (win w) = Some lib
        /\ GlobalWorkerOptions lib = None
        /\ e = no_options_error
        /\ pdfWorkerReadyPromise w1 = Some (Rejected no_options_error)).
Proof.
  intros Hrej Hrun. destruct (has_lib w) eqn:Hlib.
  - right.
    destruct (ensurePdfWorker_result _ _ _ _ Hlib Hrun)
      as ((_ & Hopt) & Hsound & Hp).
    destruct (Hsound (rejected_for_options_none _ Hrej) e Hp) as [-> Hno].
    rewrite Hopt in Hno. unfold has_lib in Hlib. unfold has_options in Hno.
    destruct (pdfjsLib (win w)) as [lib|]; [|discriminate].
    exists lib. destruct (GlobalWorkerOptions lib); [discriminate|]. auto.
  - left. unfold has_lib in Hlib. revert Hrun.
    unfold ensurePdfWorker, ensurePdfWorker_call.
    destruct (pdfjsLib (win w)); [discriminate|].
    intros [= <- <-]. auto.
Qed.

Lemma ensurePdfWorker_failures_witness :
  (pdfjsLib (win bare_world) = None
   /\ set_promise (Rejected no_options_error)
        (extend [EvProvision; EvFetch;
                 EvWarn (lit "Unable to inline PDF.js worker, falling back to remote worker")]
                bare_world)
      = bare_world
   /\ no_options_error = JsError (lit "PDF.js library not loaded"))
  \/ (exists lib,
        pdfjsLib (win bare_world) = Some lib
        /\ GlobalWorkerOptions lib = None
        /\ no_options_error = no_options_error
        /\ pdfWorkerReadyPromise
             (set_promise (Rejected no_options_error)
                (extend [EvProvision; EvFetch;
                         EvWarn (lit "Unable to inline PDF.js worker, falling back to remote worker")]
                        bare_world))
           = Some (Rejected no_options_error)).
Proof.
  apply (ensurePdfWorker_failures (env_opening sample_pdf) bare_world).
  - reflexivity.
  - vm_compute. reflexivity.
Defined.

(** X14. A second call of [ensurePdfWorker] after one that returned does
    nothing: it returns and leaves the world, and so the log, as it is. *)
Theorem ensurePdfWorker_idempotent env w w1 :
  ensurePdfWorker env w = (w1, Ok tt) ->
  ensurePdfWorker env w1 = (w1, Ok tt).
Proof.
  intros Hrun.
  destruct (has_lib w) eqn:Hlib.
  - destruct (ensurePdfWorker_result _ _ _ _ Hlib Hrun) as (_ & _ & [Hl Hr]).
    apply ensurePdfWorker_ready; assumption.
  - revert Hrun. unfold ensurePdfWorker, ensurePdfWorker_call.
    unfold has_lib in Hlib. destruct (pdfjsLib (win w)); discriminate.
Qed.

Lemma ensurePdfWorker_idempotent_witness :
  ensurePdfWorker env_inlining
    {| win := {| pdfjsLib := Some {| GlobalWorkerOptions := Some (Some (lit "blob:1"));
                                     disableWorker := Some false |};
                 pdfWorkerBlobUrl := Some (lit "blob:1") |};
       pdfWorkerReadyPromise := Some Fulfilled;
       log := [EvProvision; EvFetch] |}
  = ({| win := {| pdfjsLib := Some {| GlobalWorkerOptions := Some (Some (lit "blob:1"));
                                      disableWorker := Some false |};
                  pdfWorkerBlobUrl := Some (lit "blob:1") |};
        pdfWorkerReadyPromise := Some Fulfilled;
        log := [EvProvision; EvFetch] |}, Ok tt).
Proof.
  apply (ensurePdfWorker_idempotent env_inlining fresh_world).
  vm_compute. reflexivity.
Defined.

(** X15. When the library carries its [GlobalWorkerOptions] and the worker
    script is fetched, read and made a blob, a call of [ensurePdfWorker] in
    a world without worker location and without promise returns with the
    blob URL both as the worker location and in
    [window.__pdfWorkerBlobUrl], after one fetch and without a warning. *)
Theorem worker_is_inlined env w lib current resp script url :
  pdfjsLib (win w) = Some lib ->
  GlobalWorkerOptions lib = Some current ->
  truthy_str (workerSrc lib) = false ->
  pdfWorkerReadyPromise w = None ->
  canInlineWorker env = true ->
  fetch_result env = Ok resp ->
  ok resp = true ->
  body_text resp = Ok script ->
  createObjectURL env script = Ok url ->
  ensurePdfWorker env w
  = ({| win := {| pdfjsLib := Some {| GlobalWorkerOptions := Some (Some url);
                                      disableWorker := disableWorker lib |};
                  pdfWorkerBlobUrl := Some url |};
        pdfWorkerReadyPromise := Some Fulfilled;
        log := log w ++ [EvProvision; EvFetch] |}, Ok tt).
Proof.
  intros Hlib Hopt Hsrc Hp Hcan Hfetch Hok Hbody Hurl.
  unfold ensurePdfWorker, ensurePdfWorker_call.
  rewrite Hlib, Hsrc, Hp. unfold start_provisioning. rewrite Hcan.
  unfold run_pending. cbn [set_promise pdfWorkerReadyPromise].
  unfold fetch_settled. rewrite Hfetch, Hok.
  cbn [set_promise pdfWorkerReadyPromise].
  unfold text_settled. rewrite Hbody, Hurl.
  unfold assign_workerSrc, assign_blobUrl.
  cbn [win set_window set_promise emit pdfjsLib pdfWorkerBlobUrl].
  rewrite Hlib, Hopt. cbv zeta.
  cbn [win set_window set_promise emit pdfjsLib pdfWorkerBlobUrl
       pdfWorkerReadyPromise log].
  unfold set_promise, set_window, emit.
  cbn [win pdfjsLib pdfWorkerBlobUrl pdfWorkerReadyPromise log].
  rewrite <- app_assoc. reflexivity.
Qed.

Lemma worker_is_inlined_witness :
  ensurePdfWorker env_inlining fresh_world
  = ({| win := {| pdfjsLib := Some {| GlobalWorkerOptions := Some (Some (lit "blob:1"));
                                      disableWorker := Some false |};
                  pdfWorkerBlobUrl := Some (lit "blob:1") |};
        pdfWorkerReadyPromise := Some Fulfilled;
        log := [EvProvision; EvFetch] |}, Ok tt).
Proof.
  apply (worker_is_inlined env_inlining fresh_world
           {| GlobalWorkerOptions := Some None; disableWorker := Some false |}
           None
           {| ok := true; status := lit "200";
              body_text := Ok (lit "onmessage = null") |}
           (lit "onmessage = null") (lit "blob:1"));
    reflexivity.
Defined.

(** X26. When the library carries its [GlobalWorkerOptions], and
    [ensurePdfWorker] finds it without a worker location and no
    provisioning was started before, and the inlining of the worker script
    fails (a capability is missing, the fetch is rejected, the status is
    not a success, the text cannot be read or the blob URL cannot be made),
    then the call returns with the provisioning settled and the worker
    location set: to the blob URL cached in the window before the call when
    there is a non-empty one, and to the remote script URL otherwise. *)
Theorem worker_location_after_failed_inlining env w lib current :
  pdfjsLib (win w) = Some lib ->
  GlobalWorkerOptions lib = Some current ->
  truthy_str (workerSrc lib) = false ->
  pdfWorkerReadyPromise w = None ->
  inlining_fails env = true ->
  exists w' lib',
    ensurePdfWorker env w = (w', Ok tt)
    /\ pdfWorkerReadyPromise w' = Some Fulfilled
    /\ pdfjsLib (win w') = Some lib'
    /\ workerSrc lib'
       = Some (or_else (pdfWorkerBlobUrl (win w)) PDF_WORKER_SOURCE)
    /\ (workerSrc lib' = Some PDF_WORKER_SOURCE
        \/ workerSrc lib' = pdfWorkerBlobUrl (win w))
    /\ truthy_str (workerSrc lib') = true.
Proof.
  intros Hlib Hopt Hsrc Hpromise Hfails.
  destruct (or_else_source (pdfWorkerBlobUrl (win w))) as [Hwhich Htruthy].
  destruct (ensurePdfWorker_failed_inlining env w lib current
              Hlib Hopt Hsrc Hpromise Hfails)
    as [w0 [Hwin Hrun]].
  assert (Hlib0 : pdfjsLib (win w0) = Some lib) by (rewrite Hwin; exact Hlib).
  exists (fall_back w0).
  exists {| GlobalWorkerOptions :=
              Some (Some (or_else (pdfWorkerBlobUrl (win w)) PDF_WORKER_SOURCE));
            disableWorker := disableWorker lib |}.
  split; [exact Hrun|].
  split; [exact (fall_back_promise w0 lib current Hlib0 Hopt)|].
  split; [rewrite (fall_back_eq w0 lib current Hlib0 Hopt), Hwin; reflexivity|].
  unfold workerSrc. cbn [GlobalWorkerOptions]. auto.
Qed.

Lemma worker_location_after_failed_inlining_witness :
  exists w' lib',
    ensurePdfWorker (env_opening sample_pdf) fresh_world = (w', Ok tt)
    /\ pdfWorkerReadyPromise w' = Some Fulfilled
    /\ pdfjsLib (win w') = Some lib'
    /\ workerSrc lib'
       = Some (or_else (pdfWorkerBlobUrl (win fresh_world)) PDF_WORKER_SOURCE)
    /\ (workerSrc lib' = Some PDF_WORKER_SOURCE
        \/ workerSrc lib' = pdfWorkerBlobUrl (win fresh_world))
    /\ truthy_str (workerSrc lib') = true.
Proof.
  apply (worker_location_after_failed_inlining (env_opening sample_pdf)
           fresh_world
           {| GlobalWorkerOptions := Some None; disableWorker := Some false |}
           None);
    reflexivity.
Defined.

Lemma assign_external_same v w :
  (has_lib (assign_external v w) = has_lib w
   /\ has_options (assign_external v w) = has_options w)
  /\ pdfWorkerReadyPromise (assign_external v w) = pdfWorkerReadyPromise w
  /\ log (assign_external v w) = log w
  /\ pdfWorkerBlobUrl (win (assign_external v w)) = pdfWorkerBlobUrl (win w).
Proof.
  unfold assign_external, has_lib, has_options.
  destruct (pdfjsLib (win w)) as [lib|] eqn:H;
    [destruct (GlobalWorkerOptions lib) eqn:Hopt|];
    cbn [set_window win pdfjsLib GlobalWorkerOptions];
    rewrite ?H, ?Hopt; auto.
Qed.

(** X16. Once the promise of the provisioning is fulfilled it stays so: in
    every run of the event loop from there, whatever is called and whatever
    outside code assigns, nothing more is logged (no fetch, no warning) and
    [window.__pdfWorkerBlobUrl] keeps its value; and a run made of calls of
    [ensurePdfWorker] only leaves the whole world as it is, even where the
    worker location has been cleared. *)
Theorem fulfilled_provisioning_is_final env st acts st' :
  steps env st acts st' ->
  pdfWorkerReadyPromise (sys_world st) = Some Fulfilled ->
  pdfWorkerReadyPromise (sys_world st') = Some Fulfilled
  /\ log (sys_world st') = log (sys_world st)
  /\ pdfWorkerBlobUrl (win (sys_world st'))
     = pdfWorkerBlobUrl (win (sys_world st))
  /\ (Forall (fun a => a = Call) acts -> sys_world st' = sys_world st).
Proof.
  induction 1 as [st | st a st1 acts st2 Hstep Hsteps IH]; intros Hp.
  - auto.
  - assert (H1 : pdfWorkerReadyPromise (sys_world st1) = Some Fulfilled
                 /\ log (sys_world st1) = log (sys_world st)
                 /\ pdfWorkerBlobUrl (win (sys_world st1))
                    = pdfWorkerBlobUrl (win (sys_world st))
                 /\ (a = Call -> sys_world st1 = sys_world st)).
    { inversion Hstep as [s w' out Hcall | s r Hpend | s body Hpend | s v];
        subst; cbn [sys_world].
      - unfold ensurePdfWorker_call in Hcall. rewrite Hp in Hcall.
        destruct (pdfjsLib (win (sys_world st))) as [lib|];
          [destruct (truthy_str (workerSrc lib))|];
          injection Hcall as <- _; auto.
      - congruence.
      - congruence.
      - destruct (assign_external_same v (sys_world st)) as (_ & H2 & H3 & H4).
        rewrite H2, H3, H4. repeat split; try assumption. discriminate. }
    destruct H1 as (Hp1 & Hl1 & Hb1 & Hw1).
    destruct (IH Hp1) as (Hp2 & Hl2 & Hb2 & Hw2).
    rewrite Hl2, Hb2. repeat split; try assumption.
    intros Hall. inversion Hall; subst. rewrite Hw2 by assumption. auto.
Qed.

Lemma fulfilled_provisioning_is_final_witness :
  let w := {| win := {| pdfjsLib := Some {| GlobalWorkerOptions := Some None;
                                            disableWorker := None |};
                        pdfWorkerBlobUrl := None |};
              pdfWorkerReadyPromise := Some Fulfilled;
              log := [EvProvision] |} in
  pdfWorkerReadyPromise w = Some Fulfilled
  /\ log w = log w
  /\ pdfWorkerBlobUrl (win w) = pdfWorkerBlobUrl (win w)
  /\ (Forall (fun a => a = Call) [Call; Call] -> w = w).
Proof.
  intros w.
  apply (fulfilled_provisioning_is_final (env_opening sample_pdf)
           {| sys_world := w; awaited := [] |} [Call; Call]
           {| sys_world := w; awaited := [1; 1] |}).
  - eapply steps_cons; [eapply step_call; reflexivity|].
    eapply steps_cons; [eapply step_call; reflexivity|].
    apply steps_nil.
  - reflexivity.
Defined.

(** The library is there whenever a provisioning was started, and its
    promise is rejected only for a library without [GlobalWorkerOptions]. *)
Lemma step_keeps_promise_sound env st a st' :
  step env st a st' ->
  rejected_for_options (sys_world st)
  /\ (pdfWorkerReadyPromise (sys_world st) <> None ->
      has_lib (sys_world st) = true) ->
  rejected_for_options (sys_world st')
  /\ (pdfWorkerReadyPromise (sys_world st') <> None ->
      has_lib (sys_world st') = true).
Proof.
  intros Hstep [Hrej Hlib].
  inversion Hstep as [s w' out Hcall | s r Hpend | s body Hpend | s v];
    subst; cbn [sys_world].
  - unfold ensurePdfWorker_call in Hcall.
    destruct (pdfjsLib (win (sys_world st))) as [lib|] eqn:Hl.
    + destruct (truthy_str (workerSrc lib)).
      * injection Hcall as <- _. auto.
      * destruct (pdfWorkerReadyPromise (sys_world st)) eqn:Hp;
          injection Hcall as <- _.
        -- rewrite Hp. split; [exact Hrej|]. intros _. apply Hlib. congruence.
        -- assert (Hhas : has_lib (sys_world st) = true)
             by (unfold has_lib; rewrite Hl; reflexivity).
           destruct (start_provisioning_shape env (sys_world st))
             as [[H1 _] H2].
           rewrite H1. auto.
    + injection Hcall as <- _. auto.
  - assert (Hhas : has_lib (sys_world st) = true)
      by (apply Hlib; congruence).
    destruct (fetch_settled_shape r (sys_world st)) as [[H1 _] H2].
    rewrite H1. auto.
  - assert (Hhas : has_lib (sys_world st) = true)
      by (apply Hlib; congruence).
    destruct (text_settled_shape env body (sys_world st)) as [[H1 _] H2].
    rewrite H1. auto.
  - destruct (assign_external_same v (sys_world st)) as ((H1 & H1') & H2 & _).
    unfold rejected_for_options in *. rewrite H1, H1', H2. auto.
Qed.

Lemma steps_keep_promise_sound env st acts st' :
  steps env st acts st' ->
  rejected_for_options (sys_world st)
  /\ (pdfWorkerReadyPromise (sys_world st) <> None ->
      has_lib (sys_world st) = true) ->
  rejected_for_options (sys_world st')
  /\ (pdfWorkerReadyPromise (sys_world st') <> None ->
      has_lib (sys_world st') = true).
Proof.
  induction 1 as [s | s a s1 acts s2 Hstep _ IH]; intros H0; [exact H0|].
  apply IH. eapply step_keeps_promise_sound; eassumption.
Qed.

Lemma steps_keep_options env st acts st' :
  steps env st acts st' ->
  has_options (sys_world st') = has_options (sys_world st).
Proof.
  induction 1 as [s | s a s1 acts s2 Hstep _ IH]; [reflexivity|].
  rewrite IH. clear IH.
  inversion Hstep as [s0 w' out Hcall | s0 r Hpend | s0 body Hpend | s0 v];
    subst; cbn [sys_world].
  - unfold ensurePdfWorker_call in Hcall.
    destruct (pdfjsLib (win (sys_world s))) as [lib|];
      [destruct (truthy_str (workerSrc lib))|];
      injection Hcall as <- _; try reflexivity.
    destruct (pdfWorkerReadyPromise (sys_world s)); [reflexivity|].
    apply start_provisioning_shape.
  - apply fetch_settled_shape.
  - apply text_settled_shape.
  - apply assign_external_same.
Qed.

(** X17. On the event loop, from the state in which the module is loaded,
    the promise of the provisioning is never rejected where the library
    carries its [GlobalWorkerOptions], however the calls, the settlements
    and the assignments of outside code interleave: a failure of the fetch,
    of the response or of the blob never reaches the callers that await it.
    Where the promise is rejected, the window had from the start a library
    without [GlobalWorkerOptions], and the rejection is the [TypeError] of
    the assignment of line 39. *)
Theorem provisioning_never_rejects env wn acts st :
  steps env (initial wn) acts st ->
  forall e,
    pdfWorkerReadyPromise (sys_world st) = Some (Rejected e) ->
    e = no_options_error
    /\ has_options (sys_world st) = false
    /\ has_options (sys_world (initial wn)) = false.
Proof.
  intros Hsteps e He.
  pose proof (steps_keep_options _ _ _ _ Hsteps) as Hopt.
  apply steps_keep_promise_sound in Hsteps as [Hrej _].
  - destruct (Hrej e He) as [-> Hno]. rewrite <- Hopt. auto.
  - split; [|simpl; congruence]. intros e0 H0. discriminate.
Qed.

Lemma provisioning_never_rejects_witness :
  no_options_error = no_options_error
  /\ has_options
       (fetch_settled (Throw (JsError (lit "Failed to fetch")))
          (start_provisioning (env_opening sample_pdf)
             (sys_world (initial bare_window)))) = false
  /\ has_options (sys_world (initial bare_window)) = false.
Proof.
  apply (provisioning_never_rejects (env_opening sample_pdf) bare_window
           [Call; FetchSettles (Throw (JsError (lit "Failed to fetch")))]
           {| sys_world :=
                fetch_settled (Throw (JsError (lit "Failed to fetch")))
                  (start_provisioning (env_opening sample_pdf)
                     (sys_world (initial bare_window)));
              awaited := [1] |}).
  - eapply steps_cons; [eapply step_call; reflexivity|].
    eapply steps_cons; [eapply step_fetch; reflexivity|].
    apply steps_nil.
  - reflexivity.
Defined.

(* ===================================================================== *)
(** ** How [extractPdfText] can fail *)
(* ===================================================================== *)

Lemma open_with_retry_failure env data w w2 e :
  has_lib w = true ->
  open_with_retry env data w = (w2, Throw e) ->
  exists attempt lib, getDocument env data attempt lib = Throw e.
Proof.
  unfold has_lib, open_with_retry, try_catch. unfold open_document at 1.
  destruct (pdfjsLib (win w)) as [lib|] eqn:Hlib; [|discriminate].
  intros _.
  destruct (getDocument env data (count_event is_getDocument w) lib)
    as [pdf|err] eqn:Hfirst; [discriminate|].
  destruct (negb (workerFailed (error_message err))).
  - intros [= _ <-]. eauto.
  - unfold bind, tell, disable_worker_if_boolean, open_document.
    cbn [win emit]. rewrite Hlib.
    destruct (disableWorker lib); cbn [win set_window emit pdfjsLib];
      rewrite ?Hlib; intros [= _ H]; eauto.
Qed.

Lemma page_loop_failure pdf cb total idxs :
  forall acc w w' e,
    page_loop pdf cb total idxs acc w = (w', Throw e) ->
    exists calls_before percent, call_result cb calls_before percent = Some e.
Proof.
  induction idxs as [|i idxs IH]; intros acc w w' e; [discriminate|].
  cbn [page_loop]. unfold bind at 1. rewrite page_step_run.
  destruct (call_result cb (count_event is_progress w)
              (progress_percent i total)) as [e0|] eqn:Hcall.
  - intros [= _ <-]. eauto.
  - apply IH.
Qed.

(** X18. The five ways [extractPdfText] can throw, in a world where no
    earlier provisioning was rejected: the library is missing (nothing is
    changed); the library has no [GlobalWorkerOptions] (the [TypeError] of
    the provisioning); the bytes of the file cannot be read (the document
    is then not opened); an opening of the document fails; the [onProgress]
    callback throws. The failure of a page or of the metadata never makes
    it throw, nor does, where the library has its [GlobalWorkerOptions],
    the failure of the inlining of the worker. *)
Theorem extraction_failure_modes env file cb w w' e :
  is_rejected w = false ->
  extractPdfText env file cb w = (w', Throw e) ->
  (pdfjsLib (win w) = None /\ w' = w
   /\ e = JsError (lit "PDF.js library not loaded"))
  \/ (exists lib,
        pdfjsLib (win w) = Some lib
        /\ GlobalWorkerOptions lib = None
        /\ e = no_options_error)
  \/ (file_arrayBuffer file = Throw e
      /\ count_event is_getDocument w' = count_event is_getDocument w)
  \/ (exists data attempt lib,
        file_arrayBuffer file = Ok data
        /\ getDocument env data attempt lib = Throw e)
  \/ (exists callback calls_before percent,
        cb = Some callback /\ callback calls_before percent = Some e).
Proof.
  intros Hrej. unfold extractPdfText. unfold bind at 1.
  destruct (open_phase env file w) as [w1 [pdf|e1]] eqn:Hopen.
  - unfold extract_from. cbn zeta. unfold bind at 1.
    destruct (page_loop pdf cb (numPages pdf) (seq 1 (numPages pdf)) [] w1)
      as [w2 [pgs|e2]] eqn:Hloop.
    + rewrite extract_tail_run. discriminate.
    + intros [= _ <-]. apply page_loop_failure in Hloop as (c & p & Hcall).
      destruct cb as [callback|]; [|discriminate].
      right. right. right. right. exists callback, c, p. auto.
  - intros [= <- <-]. revert Hopen.
    unfold open_phase. unfold bind at 1.
    destruct (pdfjsLib (win w)) as [lib|] eqn:Hlib.
    2:{ intros [= <- <-]. left. auto. }
    assert (Hhas : has_lib w = true) by (unfold has_lib; rewrite Hlib; reflexivity).
    unfold bind at 1.
    destruct (ensurePdfWorker env w) as [wa ra] eqn:Hworker.
    pose proof (ensurePdfWorker_log _ _ _ _ Hworker)
      as (setup & Hsetup & Hall & _).
    destruct (ensurePdfWorker_result _ _ _ _ Hhas Hworker)
      as ((Hhas1 & Hopt) & Hsound & Hres).
    destruct ra as [[]|e0].
    + unfold bind at 1. unfold tell. unfold bind at 1. unfold lift.
      destruct (file_arrayBuffer file) as [data|e0] eqn:Hdata.
      * intros Hopen. apply open_with_retry_failure in Hopen
          as (attempt & lib' & Hfail); [|exact Hhas1].
        right. right. right. left. exists data, attempt, lib'. auto.
      * intros [= <- <-]. right. right. left. split; [reflexivity|].
        unfold count_event. cbn [log emit]. rewrite Hsetup, !filter_app.
        rewrite (forallb_filter_nil is_setup_event is_getDocument setup Hall)
          by (intros []; simpl; congruence).
        cbn. rewrite !app_nil_r. reflexivity.
    + intros [= <- <-]. right. left.
      destruct (Hsound (rejected_for_options_none _ Hrej) e0 Hres) as [-> Hno].
      rewrite Hopt in Hno. unfold has_options in Hno. rewrite Hlib in Hno.
      exists lib. destruct (GlobalWorkerOptions lib); [discriminate|]. auto.
Qed.

Lemma extraction_failure_modes_witness :
  (pdfjsLib (win sample_world) = None
   /\ extend [EvArrayBuffer] sample_world = sample_world
   /\ JsError (lit "unreadable") = JsError (lit "PDF.js library not loaded"))
  \/ (exists lib,
        pdfjsLib (win sample_world) = Some lib
        /\ GlobalWorkerOptions lib = None
        /\ JsError (lit "unreadable") = no_options_error)
  \/ (file_arrayBuffer
        {| file_name := lit "a.pdf"; file_size := 0; file_lastModified := 0;
           file_arrayBuffer := Throw (JsError (lit "unreadable")) |}
      = Throw (JsError (lit "unreadable"))
      /\ count_event is_getDocument (extend [EvArrayBuffer] sample_world)
         = count_event is_getDocument sample_world)
  \/ (exists data attempt lib,
        file_arrayBuffer
          {| file_name := lit "a.pdf"; file_size := 0; file_lastModified := 0;
             file_arrayBuffer := Throw (JsError (lit "unreadable")) |}
        = Ok data
        /\ getDocument (env_opening sample_pdf) data attempt lib
           = Throw (JsError (lit "unreadable")))
  \/ (exists (callback : progress_callback) calls_before percent,
        None = Some callback
        /\ callback calls_before percent = Some (JsError (lit "unreadable"))).
Proof.
  apply (extraction_failure_modes (env_opening sample_pdf)
           {| file_name := lit "a.pdf"; file_size := 0; file_lastModified := 0;
              file_arrayBuffer := Throw (JsError (lit "unreadable")) |}
           None sample_world (extend [EvArrayBuffer] sample_world)
           (JsError (lit "unreadable"))).
  - reflexivity.
  - vm_compute. reflexivity.
Defined.

(* ===================================================================== *)
(** ** One extraction after the other *)
(* ===================================================================== *)

Lemma same_worker_refl w : same_worker w w.
Proof. repeat split. Qed.

Lemma same_worker_trans w1 w2 w3 :
  same_worker w1 w2 -> same_worker w2 w3 -> same_worker w1 w3.
Proof.
  intros (A1 & A2 & A3) (B1 & B2 & B3). repeat split; congruence.
Qed.

Lemma same_worker_extend evs w :
  filter is_provision evs = [] -> filter is_fetch evs = [] ->
  same_worker w (extend evs w).
Proof.
  intros Hp Hf. repeat split.
  - rewrite count_event_extend, Hp. simpl. lia.
  - rewrite count_event_extend, Hf. simpl. lia.
Qed.

Lemma open_with_retry_same_worker env data w w2 res :
  open_with_retry env data w = (w2, res) -> same_worker w w2.
Proof.
  unfold open_with_retry, try_catch. unfold open_document at 1.
  assert (Hemit : forall e, is_provision e = false -> is_fetch e = false ->
                            same_worker w (emit e w)).
  { intros e Hp Hf. rewrite emit_as_extend.
    apply same_worker_extend; simpl; rewrite ?Hp, ?Hf; reflexivity. }
  destruct (pdfjsLib (win w)) as [lib|] eqn:Hlib.
  - destruct (getDocument env data (count_event is_getDocument w) lib)
      as [pdf|err].
    + intros [= <- _]. apply Hemit; reflexivity.
    + destruct (negb (workerFailed (error_message err))).
      * intros [= <- _]. apply Hemit; reflexivity.
      * unfold bind, tell, disable_worker_if_boolean, open_document.
        cbn [win emit]. rewrite Hlib.
        destruct (disableWorker lib); cbn [win set_window emit pdfjsLib];
          rewrite ?Hlib; intros [= <- _];
          unfold same_worker, count_event;
          cbn [log pdfWorkerReadyPromise emit set_window];
          rewrite !filter_app; cbn; rewrite !app_nil_r; repeat split.
  - destruct (negb _).
    + intros [= <- _]. apply same_worker_refl.
    + unfold bind, tell, disable_worker_if_boolean.
      cbn [win emit]. rewrite Hlib. intros [= <- _].
      apply Hemit; reflexivity.
Qed.

Lemma turn_trace_no_provisioning pdf cb total idxs :
  filter is_provision (flat_map (turn_trace pdf cb total) idxs) = []
  /\ filter is_fetch (flat_map (turn_trace pdf cb total) idxs) = [].
Proof.
  induction idxs as [|i idxs [IH1 IH2]]; [split; reflexivity|].
  cbn [flat_map]. rewrite !filter_app, IH1, IH2.
  unfold turn_trace, page_trace.
  destruct (page_outcome pdf i), cb; split; reflexivity.
Qed.

(** A run of the extractor touches the provisioning of the worker in its
    call of [ensurePdfWorker] only. *)
Lemma extractPdfText_same_worker env file cb w w' res :
  has_lib w = true ->
  extractPdfText env file cb w = (w', res) ->
  exists wa ra, ensurePdfWorker env w = (wa, ra) /\ same_worker wa w'.
Proof.
  intros Hhas Hrun. revert Hrun. unfold extractPdfText. unfold bind at 1.
  destruct (ensurePdfWorker env w) as [wa ra] eqn:Hworker.
  intros Hrun. exists wa, ra. split; [reflexivity|]. revert Hrun.
  destruct (open_phase env file w) as [w1 r1] eqn:Hopen.
  assert (Hsame : same_worker wa w1).
  { revert Hopen. unfold open_phase. unfold bind at 1.
    unfold has_lib in Hhas. destruct (pdfjsLib (win w)); [|discriminate].
    unfold bind at 1. rewrite Hworker.
    destruct ra as [[]|e]; [|intros [= <- _]; apply same_worker_refl].
    unfold bind at 1. unfold tell. unfold bind at 1. unfold lift.
    destruct (file_arrayBuffer file) as [data|e].
    - intros Hopen. apply open_with_retry_same_worker in Hopen.
      eapply same_worker_trans; [|exact Hopen].
      rewrite emit_as_extend. apply same_worker_extend; reflexivity.
    - intros [= <- _]. rewrite emit_as_extend.
      apply same_worker_extend; reflexivity. }
  destruct r1 as [pdf|e]; [|intros [= <- _]; exact Hsame].
  intros Hrun. apply extract_from_log in Hrun as (k & _ & -> & _).
  eapply same_worker_trans; [exact Hsame|].
  destruct (turn_trace_no_provisioning pdf cb (numPages pdf) (seq 1 k))
    as [H1 H2].
  apply same_worker_extend; rewrite filter_app, ?H1, ?H2;
    destruct res; reflexivity.
Qed.

Lemma extractPdfText_without_library env file cb w :
  has_lib w = false -> fst (extractPdfText env file cb w) = w.
Proof.
  unfold has_lib, extractPdfText, open_phase. unfold bind at 1 2.
  destruct (pdfjsLib (win w)); [discriminate | reflexivity].
Qed.

Lemma same_worker_counted w w' :
  same_worker w w' -> provisioning_counted w -> provisioning_counted w'.
Proof.
  intros (H1 & H2 & H3) (C1 & C2 & C3). unfold provisioning_counted.
  rewrite H1, H2, H3. auto.
Qed.

Lemma run_pending_counts env w :
  count_event is_provision (run_pending env w) = count_event is_provision w
  /\ count_event is_fetch (run_pending env w) = count_event is_fetch w.
Proof.
  destruct (run_pending_log env w) as [_ (evs & Hlog & Hwarn)].
  unfold count_event. rewrite Hlog, !filter_app, !length_app.
  destruct Hwarn as [-> | [m ->]]; simpl; lia.
Qed.

(** A call of [ensurePdfWorker] starts a provisioning only where there is
    no promise yet, and leaves no promise pending. *)
Lemma ensurePdfWorker_counted env w wa ra :
  provisioning_counted w ->
  ensurePdfWorker env w = (wa, ra) ->
  provisioning_counted wa.
Proof.
  intros (C1 & C2 & C3).
  unfold ensurePdfWorker, ensurePdfWorker_call.
  destruct (pdfjsLib (win w)) as [lib|];
    [|intros [= <- _]; repeat split; assumption].
  destruct (truthy_str (workerSrc lib));
    [intros [= <- _]; repeat split; assumption|].
  set (w0 := match pdfWorkerReadyPromise w with
             | Some _ => w
             | None => start_provisioning env w
             end).
  intros H.
  assert (Hwa : wa = run_pending env w0).
  { destruct (pdfWorkerReadyPromise (run_pending env w0)) as [[| |]|];
      injection H as <- _; reflexivity. }
  clear H. subst wa.
  assert (H0 : count_event is_provision w0 = 1
               /\ count_event is_fetch w0 <= 1
               /\ pdfWorkerReadyPromise w0 <> None).
  { subst w0. destruct (pdfWorkerReadyPromise w) eqn:Hp.
    - split; [exact C1|]. split; [lia | congruence].
    - destruct (start_provisioning_counts env w) as (P1 & P2 & P3).
      split; [lia|]. split; [lia | exact P3]. }
  destruct H0 as (P1 & P2 & P3).
  destruct (run_pending_counts env w0) as [R1 R2].
  destruct (run_pending_log env w0) as [Hset _]. specialize (Hset P3).
  unfold provisioning_counted. rewrite R1, R2, P1.
  unfold is_settled in Hset.
  destruct (pdfWorkerReadyPromise (run_pending env w0)) as [[| |]|];
    try discriminate; (split; [reflexivity|]; split; [exact P2|]);
    intros stage; discriminate.
Qed.

Lemma session_step_counted w a :
  provisioning_counted w -> provisioning_counted (session_step w a).
Proof.
  intros Hc. destruct a as [env file cb | v]; cbn [session_step].
  - destruct (has_lib w) eqn:Hlib.
    + destruct (extractPdfText env file cb w) as [w' res] eqn:Hrun.
      apply (extractPdfText_same_worker _ _ _ _ _ _ Hlib) in Hrun
        as (wa & ra & Hworker & Hsame).
      apply (same_worker_counted _ _ Hsame).
      apply (ensurePdfWorker_counted _ _ _ _ Hc Hworker).
    + rewrite extractPdfText_without_library by exact Hlib. exact Hc.
  - destruct (assign_external_same v w) as (_ & H2 & H3 & _).
    destruct Hc as (C1 & C2 & C3).
    unfold provisioning_counted, count_event. rewrite H2, H3. auto.
Qed.

Lemma session_counted acts :
  forall w, provisioning_counted w -> provisioning_counted (session acts w).
Proof.
  unfold session. induction acts as [|a acts IH]; intros w Hc; [exact Hc|].
  cbn [fold_left]. apply IH. apply session_step_counted. exact Hc.
Qed.

(** X19. Over a whole session, begun in the state in which the module is
    loaded, the worker is provisioned at most once and the worker script
    is fetched at most once, whatever the number of extractions, their
    files, their environments and their outcomes, and whatever outside
    code assigns to the worker location between them. *)
Theorem session_provisions_once wn acts :
  count_event is_provision (session acts (sys_world (initial wn))) <= 1
  /\ count_event is_fetch (session acts (sys_world (initial wn))) <= 1.
Proof.
  destruct (session_counted acts (sys_world (initial wn)))
    as (C1 & C2 & _).
  - split; [reflexivity|]. split; [cbn; lia|]. intros stage. discriminate.
  - destruct (pdfWorkerReadyPromise (session acts (sys_world (initial wn))));
      lia.
Qed.

(** X20. A document without pages gives a result with no Page Result; the
    [onProgress] callback is not called, so that even a callback that
    would throw does not stop the extraction, and the metadata is still
    read and [cleanup] still called. *)
Theorem empty_document env file cb w w1 pdf :
  open_phase env file w = (w1, Ok pdf) ->
  numPages pdf = 0 ->
  extractPdfText env file cb w
  = (extend [EvGetMetadata; EvCleanup] w1, Ok (document_result pdf file))
  /\ pages (document_result pdf file) = []
  /\ totalPages (document_result pdf file) = 0.
Proof.
  intros Hopen Hzero.
  rewrite (extractPdfText_opened _ _ _ _ _ _ Hopen).
  rewrite extract_from_quiet.
  - unfold extraction_trace. simpl. rewrite Hzero. simpl. auto.
  - rewrite Hzero. intros j i Hj. destruct j; discriminate.
Qed.

Lemma empty_document_witness :
  extractPdfText (env_opening (blank_pdf 0)) sample_file
    (Some (fun _ _ => Some (JsThrown (lit "stop")))) sample_world
  = (extend [EvGetMetadata; EvCleanup]
       (extend [EvArrayBuffer; EvGetDocument] sample_world),
     Ok (document_result (blank_pdf 0) sample_file))
  /\ pages (document_result (blank_pdf 0) sample_file) = []
  /\ totalPages (document_result (blank_pdf 0) sample_file) = 0.
Proof.
  apply (empty_document (env_opening (blank_pdf 0)) sample_file
           (Some (fun _ _ => Some (JsThrown (lit "stop")))) sample_world
           (extend [EvArrayBuffer; EvGetDocument] sample_world) (blank_pdf 0)).
  - vm_compute. reflexivity.
  - reflexivity.
Defined.

(* ===================================================================== *)
(** ** From the extractor to the harvester *)
(* ===================================================================== *)

Lemma page_result_with_text pdf k :
  hasTextContent (page_result pdf k) = true -> error (page_result pdf k) = None.
Proof.
  unfold page_result. destruct (page_outcome pdf k); simpl;
    [reflexivity | discriminate].
Qed.

(** X21. The harvester accepts the pages of every result of the extractor,
    and the [page] of each candidate leads back to its source: it is the
    position, in [pages], of a Page Result without [error] whose text holds
    the candidate's [content]. *)
Theorem candidates_of_an_extraction env file cb w w' r :
  extractPdfText env file cb w = (w', Ok r) ->
  exists candidates,
    harvestTables (map js_of_page (pages r)) = Ok candidates
    /\ forall c,
         In c candidates ->
         exists i pg,
           page c = VNum (num_of_nat i)
           /\ nth_error (pages r) i = Some pg
           /\ hasTextContent pg = true
           /\ error pg = None
           /\ occurs_in (content c) (text pg).
Proof.
  intros H. apply extracted_document in H as (w1 & pdf & _ & ->).
  exists (spec_harvest (pages (document_result pdf file))).
  split; [apply harvestTables_on_pages|].
  intros c Hc. unfold spec_harvest in Hc.
  apply in_flat_map in Hc as (pg & Hpg & Hc).
  apply filter_In in Hpg as [Hpg Hsel].
  apply andb_true_iff in Hsel as [Hhas _].
  apply in_map_iff in Hc as (line & <- & Hline).
  apply filter_In in Hline as [Hline _].
  simpl in Hpg. apply in_map_iff in Hpg as (k & <- & Hk).
  apply in_seq in Hk.
  exists (k - 1), (page_result pdf k). simpl.
  rewrite page_result_index.
  split; [reflexivity|].
  split; [apply (nth_error_pages pdf file k); lia|].
  split; [exact Hhas|].
  split; [apply page_result_with_text; exact Hhas|].
  apply (cut_lines_from_occurs _ InLine false [] [] line Hline). auto.
Qed.

Lemma candidates_of_an_extraction_witness :
  exists candidates,
    harvestTables (map js_of_page (pages (document_result sample_pdf sample_file)))
    = Ok candidates
    /\ forall c,
         In c candidates ->
         exists i pg,
           page c = VNum (num_of_nat i)
           /\ nth_error (pages (document_result sample_pdf sample_file)) i
              = Some pg
           /\ hasTextContent pg = true
           /\ error pg = None
           /\ occurs_in (content c) (text pg).
Proof.
  apply (candidates_of_an_extraction (env_opening sample_pdf) sample_file None
           sample_world
           (extend (extraction_trace sample_pdf None)
                   (extend [EvArrayBuffer; EvGetDocument] sample_world))).
  vm_compute. reflexivity.
Defined.

Lemma or_else_nonempty a b : b <> [] -> or_else a b <> [].
Proof.
  intros Hb. unfold or_else. destruct a as [[|c s]|]; simpl; congruence.
Qed.

(** X22. The [author] of a result is never the empty string. *)
Theorem author_is_never_empty env file cb w w' r :
  extractPdfText env file cb w = (w', Ok r) -> author r <> [].
Proof.
  intros H. apply extracted_document in H as (w1 & pdf & _ & ->).
  simpl. apply or_else_nonempty. discriminate.
Qed.

Lemma author_is_never_empty_witness :
  author (document_result sample_pdf sample_file) = lit "Unknown author"
  /\ author (document_result sample_pdf sample_file) <> [].
Proof.
  split; [reflexivity|].
  apply (author_is_never_empty (env_opening sample_pdf) sample_file None
           sample_world
           (extend (extraction_trace sample_pdf None)
                   (extend [EvArrayBuffer; EvGetDocument] sample_world))).
  vm_compute. reflexivity.
Defined.

Lemma step_without_capabilities env st a st' :
  canInlineWorker env = false ->
  step env st a st' ->
  count_event is_fetch (sys_world st) = 0
  /\ (pdfWorkerReadyPromise (sys_world st) = None
      \/ is_settled (sys_world st) = true) ->
  count_event is_fetch (sys_world st') = 0
  /\ (pdfWorkerReadyPromise (sys_world st') = None
      \/ is_settled (sys_world st') = true).
Proof.
  intros Hcan Hstep [Hcount Hp].
  inversion Hstep as [s w' out Hcall | s r Hpend | s body Hpend | s v];
    subst; cbn [sys_world].
  - unfold ensurePdfWorker_call in Hcall.
    destruct (pdfjsLib (win (sys_world st))) as [lib|].
    + destruct (truthy_str (workerSrc lib)).
      * injection Hcall as <- _. auto.
      * destruct (pdfWorkerReadyPromise (sys_world st)) eqn:Hprom;
          injection Hcall as <- _.
        -- rewrite Hprom. auto.
        -- unfold start_provisioning. rewrite Hcan.
           split; [|right; apply fall_back_settled].
           unfold count_event. rewrite log_fall_back. cbn [log emit].
           rewrite filter_app, length_app. simpl.
           unfold count_event in Hcount. lia.
    + injection Hcall as <- _. auto.
  - exfalso. destruct Hp as [Hp | Hp]; [congruence|].
    unfold is_settled in Hp. rewrite Hpend in Hp. discriminate.
  - exfalso. destruct Hp as [Hp | Hp]; [congruence|].
    unfold is_settled in Hp. rewrite Hpend in Hp. discriminate.
  - destruct (assign_external_same v (sys_world st)) as (_ & H2 & H3 & _).
    unfold count_event, is_settled in *. rewrite H2, H3. auto.
Qed.

(** X23. Where one of [fetch], [Blob], [URL] and [URL.createObjectURL] is
    missing, the worker script is never fetched, however the calls of
    [ensurePdfWorker] and the assignments of outside code interleave, and
    the provisioning is never left pending. *)
Theorem no_fetch_without_capabilities env wn acts st :
  canInlineWorker env = false ->
  steps env (initial wn) acts st ->
  count_event is_fetch (sys_world st) = 0
  /\ forall stage, pdfWorkerReadyPromise (sys_world st) <> Some (Pending stage).
Proof.
  intros Hcan Hsteps.
  assert (Hinv : count_event is_fetch (sys_world st) = 0
                 /\ (pdfWorkerReadyPromise (sys_world st) = None
                     \/ is_settled (sys_world st) = true)).
  { assert (H0 : count_event is_fetch (sys_world (initial wn)) = 0
                 /\ (pdfWorkerReadyPromise (sys_world (initial wn)) = None
                     \/ is_settled (sys_world (initial wn)) = true))
      by (split; [reflexivity | left; reflexivity]).
    revert H0. induction Hsteps as [s | s a s1 acts s2 Hstep _ IH];
      intros H0; [exact H0|].
    apply IH. eapply step_without_capabilities; eassumption. }
  destruct Hinv as [Hcount Hp]. split; [exact Hcount|].
  intros stage Hs. destruct Hp as [Hp | Hp]; [congruence|].
  unfold is_settled in Hp. rewrite Hs in Hp. discriminate.
Qed.

Lemma no_fetch_without_capabilities_witness :
  let env := {| can_fetch := true;
                can_Blob := false;
                can_URL := true;
                can_createObjectURL := true;
                fetch_result := Throw (JsError (lit "Failed to fetch"));
                createObjectURL := fun _ => Ok (lit "blob:1");
                getDocument := fun _ _ _ => Ok (blank_pdf 1) |} in
  let w := start_provisioning env (sys_world (initial fresh_window)) in
  count_event is_fetch w = 0
  /\ forall stage, pdfWorkerReadyPromise w <> Some (Pending stage).
Proof.
  intros env w.
  apply (no_fetch_without_capabilities env fresh_window [Call]
           {| sys_world := w; awaited := [1] |}).
  - reflexivity.
  - eapply steps_cons; [eapply step_call; reflexivity|].
    apply steps_nil.
Defined.

(** *** The lines of an extracted text are its sentences *)

Lemma ends_with_period_cons c w :
  w <> [] -> ends_with_period (c :: w) = ends_with_period w.
Proof.
  intros Hw. unfold ends_with_period. simpl.
  destruct (rev w) as [|x l] eqn:Hr.
  - apply (f_equal (@rev _)) in Hr. rewrite rev_involutive in Hr.
    simpl in Hr. congruence.
  - reflexivity.
Qed.

(** A word goes to the line being read as a whole. *)
Lemma cut_lines_from_word w :
  forall b line s,
    is_word w ->
    cut_lines_from InLine b line (w ++ s)
    = cut_lines_from InLine (ends_with_period w) (line ++ w) s.
Proof.
  induction w as [|c w IH]; intros b line s [Hne Hall]; [congruence|].
  inversion Hall as [|? ? Hc Hw]; subst.
  assert (Hn : is_newline c = false).
  { destruct (is_newline c) eqn:Hn; [|reflexivity].
    apply is_newline_space in Hn. congruence. }
  cbn [app cut_lines_from]. rewrite Hc, andb_false_r, Hn.
  destruct w as [|c' w'].
  - reflexivity.
  - rewrite IH by (split; [discriminate | exact Hw]).
    rewrite (ends_with_period_cons c (c' :: w')) by discriminate.
    rewrite <- app_assoc. reflexivity.
Qed.

Lemma join_space_snoc cur w :
  join_space (cur ++ [w]) = open_line cur ++ w.
Proof.
  induction cur as [|a cur IH]; [reflexivity|].
  cbn [app]. rewrite join_space_cons by (destruct cur; discriminate).
  rewrite IH. destruct cur as [|a' cur'].
  - cbn [open_line join_space app]. rewrite <- app_assoc. reflexivity.
  - cbn [open_line]. rewrite (join_space_cons a) by discriminate.
    rewrite <- !app_assoc. reflexivity.
Qed.

Lemma sentences_from_cons cur w w' rest :
  sentences_from cur (w :: w' :: rest)
  = if ends_with_period w
    then (cur ++ [w]) :: sentences_from [] (w' :: rest)
    else sentences_from (cur ++ [w]) (w' :: rest).
Proof. reflexivity. Qed.

Lemma cut_lines_sentences rest :
  forall w cur,
    Forall is_word (w :: rest) ->
    cut_lines_from InLine false (open_line cur) (join_space (w :: rest))
    = map join_space (sentences_from cur (w :: rest)).
Proof.
  induction rest as [|w' rest IH]; intros w cur Hall;
    inversion Hall as [|? ? Hw Hrest]; subst.
  - cbn [join_space sentences_from map].
    rewrite <- (app_nil_r w) at 1.
    rewrite cut_lines_from_word by exact Hw.
    rewrite join_space_snoc. reflexivity.
  - rewrite join_space_cons by discriminate.
    rewrite cut_lines_from_word by exact Hw.
    rewrite sentences_from_cons. cbn [cut_lines_from].
    change (is_space 32%N) with true. change (is_newline 32%N) with false.
    destruct (ends_with_period w); cbn [andb map].
    + rewrite join_space_snoc. f_equal.
      rewrite (skip_spaces false false).
      assert (Hrun : run is_space (join_space (w' :: rest)) = 0).
      { pose proof (join_words_first _ Hrest) as Hfirst.
        destruct (join_space (w' :: rest)) as [|c l]; [reflexivity|].
        simpl in *. destruct (is_space c); [|reflexivity].
        exfalso.
        assert (length (trim_start l) <= length l).
        { clear. induction l as [|a l IHl]; simpl; [lia|].
          destruct (is_space a); simpl; lia. }
        rewrite Hfirst in H. simpl in H. lia. }
      rewrite Hrun. cbn [skipn]. apply (IH w' [] Hrest).
    + rewrite <- (IH w' (cur ++ [w]) Hrest).
      f_equal. change (is_period 32%N) with false.
      rewrite <- join_space_snoc.
      destruct (cur ++ [w]) as [|a l] eqn:Hcur; [|reflexivity].
      destruct cur; discriminate.
Qed.

Lemma sentences_from_words ws :
  forall cur,
    Forall is_word cur -> Forall is_word ws ->
    Forall (Forall is_word) (sentences_from cur ws).
Proof.
  induction ws as [|w rest IH]; intros cur Hcur Hws.
  - constructor; [exact Hcur | constructor].
  - inversion Hws as [|? ? Hw Hrest]; subst.
    assert (Hcw : Forall is_word (cur ++ [w])).
    { apply Forall_app. split; [exact Hcur|]. constructor; [exact Hw|constructor]. }
    cbn [sentences_from]. destruct rest as [|w' rest'].
    + constructor; [exact Hcw | constructor].
    + destruct (ends_with_period w).
      * constructor; [exact Hcw|]. apply IH; [constructor | exact Hrest].
      * apply IH; assumption.
Qed.

(** The lines of a text made of words joined by single spaces are made of
    words joined by single spaces. *)
Lemma cut_lines_of_words ws :
  Forall is_word ws ->
  Forall (fun line => exists sentence,
              Forall is_word sentence /\ line = join_space sentence)
         (cut_lines (join_space ws)).
Proof.
  intros Hws.
  assert (He : cut_lines (join_space ws)
               = map join_space (sentences_from [] ws)).
  { destruct ws as [|w rest]; [reflexivity|].
    apply (cut_lines_sentences rest w [] Hws). }
  rewrite He. apply Forall_forall. intros line Hin.
  apply in_map_iff in Hin as (sentence & <- & Hin).
  exists sentence. split; [|reflexivity].
  pose proof (sentences_from_words ws [] (Forall_nil _) Hws) as Hall.
  rewrite Forall_forall in Hall. apply Hall. exact Hin.
Qed.

(** X24. The candidates found in the pages of a result of the extractor
    are clean: the [content] of each neither begins nor ends with white
    space, and its only white space is single spaces. *)
Theorem candidates_of_an_extraction_are_trimmed env file cb w w' r :
  extractPdfText env file cb w = (w', Ok r) ->
  exists candidates,
    harvestTables (map js_of_page (pages r)) = Ok candidates
    /\ forall c,
         In c candidates ->
         trim (content c) = content c /\ single_spaced (content c) = true.
Proof.
  intros H. apply extracted_document in H as (w1 & pdf & _ & ->).
  exists (spec_harvest (pages (document_result pdf file))).
  split; [apply harvestTables_on_pages|].
  intros c Hc. unfold spec_harvest in Hc.
  apply in_flat_map in Hc as (pg & Hpg & Hc).
  apply filter_In in Hpg as [Hpg _].
  apply in_map_iff in Hc as (line & <- & Hline).
  apply filter_In in Hline as [Hline _].
  simpl in Hpg. apply in_map_iff in Hpg as (k & <- & _).
  destruct (page_result_text pdf k) as (ws & Hws & Htext).
  rewrite Htext in Hline.
  pose proof (cut_lines_of_words ws Hws) as Hall.
  rewrite Forall_forall in Hall.
  destruct (Hall line Hline) as (sentence & Hsent & ->).
  simpl. split; [apply trim_join | apply single_spaced_join]; exact Hsent.
Qed.

Lemma candidates_of_an_extraction_are_trimmed_witness :
  exists candidates,
    harvestTables (map js_of_page (pages (document_result sample_pdf sample_file)))
    = Ok candidates
    /\ forall c,
         In c candidates ->
         trim (content c) = content c /\ single_spaced (content c) = true.
Proof.
  apply (candidates_of_an_extraction_are_trimmed (env_opening sample_pdf)
           sample_file None sample_world
           (extend (extraction_trace sample_pdf None)
                   (extend [EvArrayBuffer; EvGetDocument] sample_world))).
  vm_compute. reflexivity.
Defined.

(* ===================================================================== *)
(** ** The inputs the harvester accepts *)
(* ===================================================================== *)

Lemma filter_r_inv {A} (f : A -> result bool) l sel :
  filter_r f l = Ok sel ->
  forall x, In x l -> exists keep, f x = Ok keep /\ (keep = true -> In x sel).
Proof.
  revert sel. induction l as [|a l IH]; intros sel H x Hin; [destruct Hin|].
  simpl in H. destruct (f a) as [keep|] eqn:Hfa; [|discriminate].
  simpl in H. destruct (filter_r f l) as [rest|] eqn:Hrest; [|discriminate].
  simpl in H. injection H as <-.
  destruct Hin as [<- | Hin].
  - exists keep. split; [exact Hfa|]. intros ->. left. reflexivity.
  - destruct (IH rest eq_refl x Hin) as (k & Hk & Hsel).
    exists k. split; [exact Hk|]. intros Hkt.
    destruct keep; [right|]; apply Hsel; exact Hkt.
Qed.

Lemma map_r_inv {A B} (f : A -> result B) l out :
  map_r f l = Ok out -> forall x, In x l -> exists y, f x = Ok y.
Proof.
  revert out. induction l as [|a l IH]; intros out H x Hin; [destruct Hin|].
  simpl in H. destruct (f a) as [b|] eqn:Hfa; [|discriminate].
  simpl in H. destruct (map_r f l) as [rest|] eqn:Hrest; [|discriminate].
  destruct Hin as [<- | Hin]; [eauto | apply (IH rest eq_refl x Hin)].
Qed.

(** X25. The harvester returns exactly on the arrays all of whose members
    it can process: none is [undefined] or [null], and where both
    [hasTextContent] and [text] are truthy, [text] is a string. On any
    other array it throws. *)
Theorem harvestTables_returns_iff pages :
  (exists candidates, harvestTables pages = Ok candidates) <->
  Forall (fun pg => page_ok pg = true) pages.
Proof.
  split.
  - intros [candidates H]. unfold harvestTables in H.
    destruct (filter_r page_selected pages) as [sel|] eqn:Hsel; [|discriminate].
    simpl in H.
    destruct (map_r page_candidates sel) as [groups|] eqn:Hgroups;
      [|discriminate].
    apply Forall_forall. intros pg Hin.
    destruct (filter_r_inv _ _ _ Hsel pg Hin) as (keep & Hkeep & Hin_sel).
    unfold page_selected in Hkeep. unfold page_ok.
    destruct pg as [| | b | x | s | props]; try reflexivity; try discriminate.
    simpl in Hkeep.
    destruct (truthy (lookup_prop "hasTextContent" props)); [|reflexivity].
    simpl in Hkeep. injection Hkeep as <-.
    destruct (truthy (lookup_prop "text" props)) eqn:Htext; [|reflexivity].
    simpl.
    destruct (map_r_inv _ _ _ Hgroups (VObj props) (Hin_sel eq_refl))
      as (y & Hy).
    unfold page_candidates in Hy. simpl in Hy.
    destruct (lookup_prop "text" props); simpl in Hy;
      try discriminate; reflexivity.
  - intros Hall.
    destruct (filter_r_ok pages Hall) as (sel & Hsel & Hstr).
    destruct (map_r_ok sel Hstr) as (groups & Hgroups).
    exists (concat groups). unfold harvestTables.
    rewrite Hsel. simpl. rewrite Hgroups. reflexivity.
Qed.
